(** * Voice notes application (index.tsx): a shallow embedding

    The development follows the class [VoiceNotesApp] of [src/index.tsx].

    - Strings are [string]; a code unit is an [ascii], so the model covers
      the strings whose code units lie in 0..255.  [trim] and the regular
      expression class [\s] use ECMAScript's white space and line
      terminators in that range.
    - Note objects live in a store of objects ([heap]); [this.notes] and
      [this.currentNote] hold references, so that a note shown in the editor
      and the same note in the list are one object, as in the source.
    - Every [async] method is cut at its [await]s on the browser or on the
      remote service: the code up to the [await] is one function, the code
      after it another one that takes the outcome of the awaited operation.
      Handlers run to completion; suspended methods sit in [pending] and an
      event resumes them, in any order.
    - The browser is part of the state: the media streams with the number
      of times their tracks were stopped, the recorders, the requests sent
      to the remote service, the item of [localStorage].
    - Left out: CSS classes, the canvas drawing, the timer read-out, the
      theme, and the DOM nodes of the sidebar.  Calls into the page and
      into [marked] and [localStorage] are taken not to throw. *)

From Stdlib Require Import ZArith Lia Ascii String.
From stdpp Require Import base option list strings pretty.

Local Open Scope string_scope.
Local Open Scope Z_scope.

(** ** Strings as the source uses them *)

Module JsString.

(** White space and line terminators of ECMAScript below U+0100:
    TAB, LF, VT, FF, CR, SP, NBSP.  Both [String.prototype.trim] and the
    class [\s] use this set. *)
Definition isSpace (c : ascii) : bool :=
  match N_of_ascii c with
  | 9 | 10 | 11 | 12 | 13 | 32 | 160 => true
  | _ => false
  end%N.

(** [\d] *)
Definition isDigit (c : ascii) : bool :=
  let n := N_of_ascii c in ((48 <=? n) && (n <=? 57))%N.

Definition isHash (c : ascii) : bool := Ascii.eqb c "#".

(** The class [[\*_\`#\->\s\[\]\(.\d)]] of the fallback rule. *)
Definition isMarkup (c : ascii) : bool :=
  Ascii.eqb c "*" || Ascii.eqb c "_" || Ascii.eqb c "`" || Ascii.eqb c "#"
  || Ascii.eqb c "-" || Ascii.eqb c ">" || isSpace c
  || Ascii.eqb c "[" || Ascii.eqb c "]" || Ascii.eqb c "("
  || Ascii.eqb c "." || isDigit c || Ascii.eqb c ")".

(** A string is truthy when it is not empty. *)
Definition truthy (s : string) : bool :=
  match s with "" => false | String _ _ => true end.

(** [o || d] on a possibly absent string. *)
Definition orElse (o : option string) (d : string) : string :=
  match o with
  | Some s => if truthy s then s else d
  | None => d
  end.

Fixpoint trimStart (s : string) : string :=
  match s with
  | "" => ""
  | String c r => if isSpace c then trimStart r else s
  end.

Fixpoint trimEnd (s : string) : string :=
  match s with
  | "" => ""
  | String c r =>
      match trimEnd r with
      | "" => if isSpace c then "" else String c ""
      | r' => String c r'
      end
  end.

Definition trim (s : string) : string := trimEnd (trimStart s).

(** [s.split(sep)] for a one-character separator. *)
Fixpoint split (sep : ascii) (s : string) : list string :=
  match s with
  | "" => [""]
  | String c r =>
      if Ascii.eqb c sep then "" :: split sep r
      else match split sep r with
           | h :: t => String c h :: t
           | [] => [String c ""]
           end
  end.

Definition startsWith (c : ascii) (s : string) : bool :=
  match s with
  | String d _ => Ascii.eqb d c
  | "" => false
  end.

(** A backtracking matcher for the two patterns of the source, both
    anchored at the start of the string.  [plus_then cls k] is [cls+]
    followed by the pattern [k]; it is greedy, and gives back characters
    when [k] fails.  The result is the rest of the string after the match. *)
Fixpoint plus_then (cls : ascii -> bool) (k : string -> option string)
    (s : string) : option string :=
  match s with
  | "" => None
  | String c r =>
      if cls c then
        match plus_then cls k r with
        | Some rest => Some rest
        | None => k r
        end
      else None
  end.

(** [/^#+\s+/] *)
Definition re_heading : string -> option string :=
  plus_then isHash (plus_then isSpace Some).

(** [/^[\*_\`#\->\s\[\]\(.\d)]+/] *)
Definition re_markup : string -> option string :=
  plus_then isMarkup Some.

(** [s.replace(re, '')] for an anchored pattern without the [g] flag. *)
Definition replace_empty (re : string -> option string) (s : string) : string :=
  match re s with
  | Some rest => rest
  | None => s
  end.

Definition newline : ascii := "010".

End JsString.

Import JsString.

(** ** Title derivation (inside [getPolishedNote]) *)

(** [polishedText.split('\n').map((l) => l.trim())] *)
Definition titleLines (polishedText : string) : list string :=
  map trim (split newline polishedText).

(** The first loop.  [Some title] is the text written to the editor title
    ([noteTitleSet] becomes true); [None] is [noteTitleSet] still false at
    the end of the loop. *)
Fixpoint headingLoop (lines : list string) : option string :=
  match lines with
  | [] => None
  | line :: rest =>
      if startsWith "#" line then
        let title := trim (replace_empty re_heading line) in
        if truthy title then Some title else headingLoop rest
      else headingLoop rest
  end.

Definition maxLength : nat := 60.

(** The second loop, run when the first one set no title. *)
Fixpoint fallbackLoop (lines : list string) : option string :=
  match lines with
  | [] => None
  | line :: rest =>
      if (0 <? String.length line)%nat then
        let potentialTitle := trim (replace_empty re_markup line) in
        if (3 <? String.length potentialTitle)%nat then
          Some (substring 0 maxLength potentialTitle
                +:+ (if (maxLength <? String.length potentialTitle)%nat
                     then "..." else ""))
        else fallbackLoop rest
      else fallbackLoop rest
  end.

(** What the two loops write to [editorTitle.textContent], if anything. *)
Definition derivedTitle (polishedText : string) : option string :=
  let lines := titleLines polishedText in
  match headingLoop lines with
  | Some title => Some title
  | None => fallbackLoop lines
  end.

(** The editor title after the two loops. *)
Definition deriveInto (polishedText : string) (editorTitle : string) : string :=
  match derivedTitle polishedText with
  | Some t => t
  | None => editorTitle
  end.


(** ** Data *)

(** [interface Note] *)
Module Note.
Record t := mk {
  id : string;
  title : string;
  rawTranscription : string;
  polishedNote : string;
  timestamp : Z
}.
Definition set_title (v : string) (n : t) : t :=
  mk (id n) v (rawTranscription n) (polishedNote n) (timestamp n).
Definition set_rawTranscription (v : string) (n : t) : t :=
  mk (id n) (title n) v (polishedNote n) (timestamp n).
Definition set_polishedNote (v : string) (n : t) : t :=
  mk (id n) (title n) (rawTranscription n) v (timestamp n).
End Note.

(** A [Blob]: its size in bytes and its content type. *)
Module Blob.
Record t := mk { size : N; type : string }.
End Blob.

(** A [File] of the upload input. *)
Module File.
Record t := mk { name : string; size : N; type : string }.
Definition blob (f : t) : Blob.t := Blob.mk (size f) (type f).
End File.

(** The content of an element set through [innerHTML]: the output of
    [marked.parse] on a text, or a string taken as it is. *)
Inductive Html :=
| Marked (markdown : string)
| Literal (s : string).

(** The [placeholder] attributes of the three editable elements
    ([getAttribute] gives [null] when the attribute is absent).  They come
    from the page, which is not part of the source file. *)
Record Placeholders := {
  editorTitle_placeholder : option string;
  rawTranscription_placeholder : option string;
  polishedNote_placeholder : option string
}.

(** One part of the [contents] of a [generateContent] request. *)
Inductive Part :=
| text_part (text : string)
| inlineData (mimeType data : string).

(** A [MediaRecorder]: the stream it records, its [mimeType], and where it
    is between [start()] and its [stop] event. *)
Inductive RecState :=
| Inactive      (* built, [start()] not called or failed *)
| Recording     (* [state === 'recording'] *)
| Stopping      (* inactive again, the [stop] event not yet fired *)
| Stopped.      (* the [stop] event has been fired *)

Record Recorder := {
  rec_stream : nat;
  rec_mimeType : string;
  rec_state : RecState
}.

(** Who started a pipeline: [handleFileUpload] clears the input in its
    [finally] block once [processAudio] has settled; the recorder's
    [onstop] handler does nothing more. *)
Inductive Caller := FromUpload | FromRecorder.

(** A suspended [async] method: the [await] it stopped at, with the local
    variables the rest of the method reads. *)
Inductive Cont :=
| AwaitClose
| AwaitUserMedia (fallback : bool)
| AwaitRead (audioBlob : Blob.t) (caller : Caller)
| AwaitTranscription (caller : Caller)
| AwaitPolish (caller : Caller).

(** The fields of [VoiceNotesApp] the methods below read or write, the
    content of the elements they touch, and the part of the browser they
    act on. *)
Record State := mkState {
  (* elements *)
  recordingStatus : string;            (* recordingStatus.textContent *)
  rawTranscription_text : string;      (* rawTranscription.textContent *)
  polishedNote_html : Html;            (* polishedNote.innerHTML *)
  editorTitle : string;                (* editorTitle.textContent *)
  audioUpload_value : string;          (* audioUploadInput.value *)
  placeholders : Placeholders;
  (* fields *)
  audioChunks : list Blob.t;
  isRecording : bool;
  currentNote : option nat;            (* a reference into [heap] *)
  stream : option nat;                 (* an index into [streams] *)
  mediaRecorder : option nat;          (* an index into [recorders] *)
  audioContext : bool;                 (* [this.audioContext] is not null (and then not closed) *)
  notes : list nat;                    (* references into [heap] *)
  (* the browser *)
  heap : list Note.t;                  (* the Note objects, by reference *)
  voiceNotes : option (list Note.t);   (* localStorage item 'voiceNotes' *)
  streams : list nat;                  (* per stream: how often its tracks were stopped *)
  recorders : list Recorder;
  genAI_calls : list (list Part);      (* generateContent requests so far *)
  pending : list Cont                  (* suspended methods *)
}.

(** Field updates. *)
Definition set_recordingStatus (v : string) (st : State) : State :=
  mkState v (rawTranscription_text st) (polishedNote_html st) (editorTitle
    st) (audioUpload_value st) (placeholders st) (audioChunks st)
    (isRecording st) (currentNote st) (stream st) (mediaRecorder st)
    (audioContext st) (notes st) (heap st) (voiceNotes st) (streams st)
    (recorders st) (genAI_calls st) (pending st).
Definition set_rawTranscription_text (v : string) (st : State) : State :=
  mkState (recordingStatus st) v (polishedNote_html st) (editorTitle st)
    (audioUpload_value st) (placeholders st) (audioChunks st) (isRecording
    st) (currentNote st) (stream st) (mediaRecorder st) (audioContext st)
    (notes st) (heap st) (voiceNotes st) (streams st) (recorders st)
    (genAI_calls st) (pending st).
Definition set_polishedNote_html (v : Html) (st : State) : State :=
  mkState (recordingStatus st) (rawTranscription_text st) v (editorTitle st)
    (audioUpload_value st) (placeholders st) (audioChunks st) (isRecording
    st) (currentNote st) (stream st) (mediaRecorder st) (audioContext st)
    (notes st) (heap st) (voiceNotes st) (streams st) (recorders st)
    (genAI_calls st) (pending st).
Definition set_editorTitle (v : string) (st : State) : State :=
  mkState (recordingStatus st) (rawTranscription_text st) (polishedNote_html
    st) v (audioUpload_value st) (placeholders st) (audioChunks st)
    (isRecording st) (currentNote st) (stream st) (mediaRecorder st)
    (audioContext st) (notes st) (heap st) (voiceNotes st) (streams st)
    (recorders st) (genAI_calls st) (pending st).
Definition set_audioUpload_value (v : string) (st : State) : State :=
  mkState (recordingStatus st) (rawTranscription_text st) (polishedNote_html
    st) (editorTitle st) v (placeholders st) (audioChunks st) (isRecording
    st) (currentNote st) (stream st) (mediaRecorder st) (audioContext st)
    (notes st) (heap st) (voiceNotes st) (streams st) (recorders st)
    (genAI_calls st) (pending st).
Definition set_audioChunks (v : list Blob.t) (st : State) : State :=
  mkState (recordingStatus st) (rawTranscription_text st) (polishedNote_html
    st) (editorTitle st) (audioUpload_value st) (placeholders st) v
    (isRecording st) (currentNote st) (stream st) (mediaRecorder st)
    (audioContext st) (notes st) (heap st) (voiceNotes st) (streams st)
    (recorders st) (genAI_calls st) (pending st).
Definition set_isRecording (v : bool) (st : State) : State :=
  mkState (recordingStatus st) (rawTranscription_text st) (polishedNote_html
    st) (editorTitle st) (audioUpload_value st) (placeholders st)
    (audioChunks st) v (currentNote st) (stream st) (mediaRecorder st)
    (audioContext st) (notes st) (heap st) (voiceNotes st) (streams st)
    (recorders st) (genAI_calls st) (pending st).
Definition set_currentNote (v : option nat) (st : State) : State :=
  mkState (recordingStatus st) (rawTranscription_text st) (polishedNote_html
    st) (editorTitle st) (audioUpload_value st) (placeholders st)
    (audioChunks st) (isRecording st) v (stream st) (mediaRecorder st)
    (audioContext st) (notes st) (heap st) (voiceNotes st) (streams st)
    (recorders st) (genAI_calls st) (pending st).
Definition set_stream (v : option nat) (st : State) : State :=
  mkState (recordingStatus st) (rawTranscription_text st) (polishedNote_html
    st) (editorTitle st) (audioUpload_value st) (placeholders st)
    (audioChunks st) (isRecording st) (currentNote st) v (mediaRecorder st)
    (audioContext st) (notes st) (heap st) (voiceNotes st) (streams st)
    (recorders st) (genAI_calls st) (pending st).
Definition set_mediaRecorder (v : option nat) (st : State) : State :=
  mkState (recordingStatus st) (rawTranscription_text st) (polishedNote_html
    st) (editorTitle st) (audioUpload_value st) (placeholders st)
    (audioChunks st) (isRecording st) (currentNote st) (stream st) v
    (audioContext st) (notes st) (heap st) (voiceNotes st) (streams st)
    (recorders st) (genAI_calls st) (pending st).
Definition set_audioContext (v : bool) (st : State) : State :=
  mkState (recordingStatus st) (rawTranscription_text st) (polishedNote_html
    st) (editorTitle st) (audioUpload_value st) (placeholders st)
    (audioChunks st) (isRecording st) (currentNote st) (stream st)
    (mediaRecorder st) v (notes st) (heap st) (voiceNotes st) (streams st)
    (recorders st) (genAI_calls st) (pending st).
Definition set_notes (v : list nat) (st : State) : State :=
  mkState (recordingStatus st) (rawTranscription_text st) (polishedNote_html
    st) (editorTitle st) (audioUpload_value st) (placeholders st)
    (audioChunks st) (isRecording st) (currentNote st) (stream st)
    (mediaRecorder st) (audioContext st) v (heap st) (voiceNotes st)
    (streams st) (recorders st) (genAI_calls st) (pending st).
Definition set_heap (v : list Note.t) (st : State) : State :=
  mkState (recordingStatus st) (rawTranscription_text st) (polishedNote_html
    st) (editorTitle st) (audioUpload_value st) (placeholders st)
    (audioChunks st) (isRecording st) (currentNote st) (stream st)
    (mediaRecorder st) (audioContext st) (notes st) v (voiceNotes st)
    (streams st) (recorders st) (genAI_calls st) (pending st).
Definition set_voiceNotes (v : option (list Note.t)) (st : State) : State :=
  mkState (recordingStatus st) (rawTranscription_text st) (polishedNote_html
    st) (editorTitle st) (audioUpload_value st) (placeholders st)
    (audioChunks st) (isRecording st) (currentNote st) (stream st)
    (mediaRecorder st) (audioContext st) (notes st) (heap st) v (streams st)
    (recorders st) (genAI_calls st) (pending st).
Definition set_streams (v : list nat) (st : State) : State :=
  mkState (recordingStatus st) (rawTranscription_text st) (polishedNote_html
    st) (editorTitle st) (audioUpload_value st) (placeholders st)
    (audioChunks st) (isRecording st) (currentNote st) (stream st)
    (mediaRecorder st) (audioContext st) (notes st) (heap st) (voiceNotes
    st) v (recorders st) (genAI_calls st) (pending st).
Definition set_recorders (v : list Recorder) (st : State) : State :=
  mkState (recordingStatus st) (rawTranscription_text st) (polishedNote_html
    st) (editorTitle st) (audioUpload_value st) (placeholders st)
    (audioChunks st) (isRecording st) (currentNote st) (stream st)
    (mediaRecorder st) (audioContext st) (notes st) (heap st) (voiceNotes
    st) (streams st) v (genAI_calls st) (pending st).
Definition set_genAI_calls (v : list (list Part)) (st : State) : State :=
  mkState (recordingStatus st) (rawTranscription_text st) (polishedNote_html
    st) (editorTitle st) (audioUpload_value st) (placeholders st)
    (audioChunks st) (isRecording st) (currentNote st) (stream st)
    (mediaRecorder st) (audioContext st) (notes st) (heap st) (voiceNotes
    st) (streams st) (recorders st) v (pending st).
Definition set_pending (v : list Cont) (st : State) : State :=
  mkState (recordingStatus st) (rawTranscription_text st) (polishedNote_html
    st) (editorTitle st) (audioUpload_value st) (placeholders st)
    (audioChunks st) (isRecording st) (currentNote st) (stream st)
    (mediaRecorder st) (audioContext st) (notes st) (heap st) (voiceNotes
    st) (streams st) (recorders st) (genAI_calls st) v.

Notation "st |> f" := (f st) (at level 45, left associativity, only parsing).

(** ** The browser objects the methods act on *)

(** [s.getTracks().forEach((track) => track.stop())] *)
Definition stopTracks (s : nat) (st : State) : State :=
  set_streams (alter S s (streams st)) st.

(** [this.stream?.getTracks().forEach((track) => track.stop())], and
    [if (this.stream) this.stream.getTracks().forEach(...)] *)
Definition stopStreamTracks (st : State) : State :=
  match stream st with
  | Some s => stopTracks s st
  | None => st
  end.

(** A stream is live while none of its tracks has been stopped. *)
Definition liveStreams (st : State) : list nat :=
  List.filter (fun s => bool_decide (streams st !! s = Some 0%nat))
    (seq 0 (length (streams st))).

(** [MediaRecorder.stop()]: a recorder that records becomes inactive and
    the task that fires [dataavailable] and [stop] is queued; on an
    inactive recorder nothing happens. *)
Definition Recorder_stop (rc : Recorder) : Recorder :=
  match rec_state rc with
  | Recording => {| rec_stream := rec_stream rc; rec_mimeType := rec_mimeType rc;
                    rec_state := Stopping |}
  | _ => rc
  end.

(** [this.mediaRecorder?.stop()] *)
Definition mediaRecorder_stop (st : State) : State :=
  match mediaRecorder st with
  | Some r => set_recorders (alter Recorder_stop r (recorders st)) st
  | None => st
  end.

(** [this.mediaRecorder?.mimeType] *)
Definition mediaRecorder_mimeType (st : State) : option string :=
  r ← mediaRecorder st; rc ← recorders st !! r; Some (rec_mimeType rc).

Definition suspend (k : Cont) (st : State) : State :=
  set_pending (pending st ++ [k]) st.

(** ** Live display *)

(** [setupAudioVisualizer]: a new [AudioContext] unless there is no stream
    or a context is already there. *)
Definition setupAudioVisualizer (st : State) : State :=
  match stream st with
  | None => st
  | Some _ => if audioContext st then st else set_audioContext true st
  end.

(** [startLiveDisplay]; of its statements only [setupAudioVisualizer]
    touches the state kept here. *)
Definition startLiveDisplay (st : State) : State := setupAudioVisualizer st.

(** [stopLiveDisplay]: the context is closed, if any, and the field
    becomes [null]. *)
Definition stopLiveDisplay (st : State) : State := set_audioContext false st.

(** ** Notes *)

(** [displayNote] *)
Definition displayNote (note : Note.t) (st : State) : State :=
  let titlePlaceholder :=
    orElse (editorTitle_placeholder (placeholders st)) "Untitled Note" in
  let rawPlaceholder :=
    orElse (rawTranscription_placeholder (placeholders st)) "" in
  let polishedPlaceholder :=
    orElse (polishedNote_placeholder (placeholders st)) "" in
  st |> set_editorTitle (orElse (Some (Note.title note)) titlePlaceholder)
     |> set_rawTranscription_text
          (orElse (Some (Note.rawTranscription note)) rawPlaceholder)
     |> set_polishedNote_html
          (if truthy (Note.polishedNote note)
           then Marked (Note.polishedNote note)
           else Literal polishedPlaceholder).

(** [createNewNote]; [now1] and [now2] are what the two calls of
    [Date.now()] return. *)
Definition createNewNote (now1 now2 : Z) (st : State) : State :=
  let note := Note.mk ("note_" +:+ pretty now1) "" "" "" now2 in
  let st := st |> set_currentNote (Some (length (heap st)))
               |> set_heap (heap st ++ [note]) in
  let st := st |> displayNote note |> set_recordingStatus "Ready to record" in
  if isRecording st
  then st |> mediaRecorder_stop |> set_isRecording false
  else stopLiveDisplay st.

(** [JSON.stringify(this.notes)] stored under ['voiceNotes']. *)
Definition saveNotesToLocalStorage (st : State) : State :=
  set_voiceNotes (Some (omap (fun r => heap st !! r) (notes st))) st.

(** [loadNotesFromLocalStorage]: [JSON.parse] builds new objects. *)
Definition loadNotesFromLocalStorage (st : State) : State :=
  match voiceNotes st with
  | Some savedNotes =>
      st |> set_notes (seq (length (heap st)) (length savedNotes))
         |> set_heap (heap st ++ savedNotes)
  | None => st
  end.

(** [n.id === noteId] for the object behind reference [r]. *)
Definition hasId (st : State) (noteId : string) (r : nat) : bool :=
  match heap st !! r with
  | Some n => String.eqb (Note.id n) noteId
  | None => false
  end.

(** [Array.prototype.findIndex]; [None] stands for [-1]. *)
Fixpoint findIndex {A : Type} (p : A -> bool) (l : list A) : option nat :=
  match l with
  | [] => None
  | x :: l' => if p x then Some 0%nat else S <$> findIndex p l'
  end.

(** [saveOrUpdateCurrentNote] *)
Definition saveOrUpdateCurrentNote (st : State) : State :=
  match currentNote st with
  | None => st
  | Some cur =>
      let st := set_heap
        (alter (Note.set_title
                  (orElse (Some (trim (editorTitle st))) "Untitled Note"))
               cur (heap st)) st in
      match heap st !! cur with
      | None => st
      | Some note =>
          let hasContent :=
            truthy (trim (Note.rawTranscription note))
            || truthy (trim (Note.polishedNote note)) in
          if negb hasContent then st
          else
            let noteIndex := findIndex (hasId st (Note.id note)) (notes st) in
            let st := match noteIndex with
                      | Some i => set_notes (<[i := cur]> (notes st)) st
                      | None => set_notes (cur :: notes st) st
                      end in
            saveNotesToLocalStorage st
      end
  end.

(** [displayNoteById] *)
Definition displayNoteById (noteId : string) (st : State) : State :=
  match List.find (hasId st noteId) (notes st) with
  | Some r =>
      match heap st !! r with
      | Some note => st |> set_currentNote (Some r) |> displayNote note
      | None => st
      end
  | None => st
  end.

(** [deleteNote] *)
Definition deleteNote (noteId : string) (now1 now2 : Z) (st : State) : State :=
  let st := st |> set_notes
                    (List.filter (fun r => negb (hasId st noteId r)) (notes st))
               |> saveNotesToLocalStorage in
  match currentNote st with
  | Some cur => if hasId st noteId cur then createNewNote now1 now2 st else st
  | None => st
  end.

(** [clearAllNotes]; [confirmed] is the answer to [confirm(...)]. *)
Definition clearAllNotes (confirmed : bool) (now1 now2 : Z) (st : State) : State :=
  if confirmed
  then st |> set_notes [] |> saveNotesToLocalStorage |> createNewNote now1 now2
  else st.

(** ** The pipeline: [processAudio], [getTranscription], [getPolishedNote] *)

(** How an awaited operation ended: with a value, or with an exception,
    of which the handlers read only the [name] ([None] when the thrown
    value is not an [Error]). *)
Inductive Settled (A : Type) :=
| Resolved (a : A)
| Rejected (errorName : option string).
Arguments Resolved {A} a.
Arguments Rejected {A} errorName.

(** What runs when the pipeline started by [caller] has settled. *)
Definition settle (caller : Caller) (st : State) : State :=
  match caller with
  | FromUpload => set_audioUpload_value "" st   (* [finally] of handleFileUpload *)
  | FromRecorder => st
  end.

Definition generateContent (contents : list Part) (k : Cont) (st : State) : State :=
  st |> set_genAI_calls (genAI_calls st ++ [contents]) |> suspend k.

Definition polish_prompt : string :=
  "Take this raw transcription and create a polished, well-formatted note. Remove filler words, repetitions, and false starts. Format lists and use markdown for headings. Maintain original content and meaning. Raw transcription: ".

(** [getPolishedNote], up to [await generateContent] *)
Definition getPolishedNote (caller : Caller) (st : State) : State :=
  if negb (truthy (rawTranscription_text st))
     || negb (truthy (trim (rawTranscription_text st)))
  then st |> set_recordingStatus "No transcription to polish" |> settle caller
  else st |> set_recordingStatus "Polishing note..."
          |> generateContent
               [text_part (polish_prompt +:+ rawTranscription_text st)]
               (AwaitPolish caller).

(** [getPolishedNote], from the response on; the response is
    [response.text], or the exception thrown in place of it. *)
Definition getPolishedNote_resume (caller : Caller)
    (response : Settled (option string)) (st : State) : State :=
  match response with
  | Resolved polishedText =>
      if truthy (orElse polishedText "") then
        let polishedText := orElse polishedText "" in
        st |> set_polishedNote_html (Marked polishedText)
           |> set_editorTitle (deriveInto polishedText (editorTitle st))
           |> (fun st =>
                 match currentNote st with
                 | Some cur =>
                     set_heap (alter (Note.set_polishedNote polishedText)
                                 cur (heap st)) st
                 | None => st
                 end)
           |> saveOrUpdateCurrentNote
           |> set_recordingStatus "Note polished. Ready for next recording."
           |> settle caller
      else st |> set_recordingStatus "Polishing failed or returned empty."
              |> settle caller
  | Rejected _ =>
      st |> set_recordingStatus "Error polishing note. Please try again."
         |> settle caller
  end.

(** [getTranscription], up to [await generateContent] *)
Definition getTranscription (base64Audio mimeType : string) (caller : Caller)
    (st : State) : State :=
  st |> set_recordingStatus "Getting transcription..."
     |> generateContent
          [text_part "Generate a complete, detailed transcript of this audio.";
           inlineData mimeType base64Audio]
          (AwaitTranscription caller).

(** [getTranscription], from the response on *)
Definition getTranscription_resume (caller : Caller)
    (response : Settled (option string)) (st : State) : State :=
  match response with
  | Resolved transcriptionText =>
      if truthy (orElse transcriptionText "") then
        let transcriptionText := orElse transcriptionText "" in
        st |> set_rawTranscription_text transcriptionText
           |> (fun st =>
                 match currentNote st with
                 | Some cur =>
                     set_heap (alter (Note.set_rawTranscription transcriptionText)
                                 cur (heap st)) st
                 | None => st
                 end)
           |> set_recordingStatus "Transcription complete. Polishing note..."
           |> getPolishedNote caller
      else st |> set_recordingStatus "Transcription failed or returned empty."
              |> settle caller
  | Rejected _ =>
      st |> set_recordingStatus "Error getting transcription. Please try again."
         |> settle caller
  end.

(** The [catch] block of [processAudio] *)
Definition processAudio_catch (caller : Caller) (st : State) : State :=
  st |> set_recordingStatus "Error processing recording. Please try again."
     |> settle caller.

(** [processAudio], up to [await readResult] *)
Definition processAudio (caller : Caller) (audioBlob : Blob.t) (st : State) : State :=
  if (Blob.size audioBlob =? 0)%N
  then st |> set_recordingStatus "No audio data captured. Please try again."
          |> settle caller
  else st |> set_recordingStatus "Converting audio..."
          |> suspend (AwaitRead audioBlob caller).

(** [processAudio], from the outcome of the [FileReader] on: [reader.result]
    or the reader's error. *)
Definition processAudio_resume (audioBlob : Blob.t) (caller : Caller)
    (readResult : Settled string) (st : State) : State :=
  match readResult with
  | Resolved base64data =>
      let base64Audio := split "," base64data !! 1%nat in
      let mimeType := Blob.type audioBlob in
      if negb (truthy (orElse base64Audio "")) || negb (truthy mimeType)
      then processAudio_catch caller st
      else getTranscription (orElse base64Audio "") mimeType caller st
  | Rejected _ => processAudio_catch caller st
  end.

Definition quote : string := String "034" EmptyString.

(** [handleFileUpload]; [files] is [input.files] ([null] and the empty
    list behave alike). *)
Definition handleFileUpload (files : list File.t) (now1 now2 : Z) (st : State)
    : State :=
  match files with
  | [] => st
  | file :: _ =>
      let maxSizeInMB := 50%N in
      if (maxSizeInMB * 1024 * 1024 <? File.size file)%N
      then st |> set_recordingStatus
                   ("File is too large (max " +:+ pretty maxSizeInMB +:+ "MB).")
              |> set_audioUpload_value ""
      else st |> createNewNote now1 now2
              |> set_recordingStatus
                   ("Processing " +:+ quote +:+ File.name file +:+ quote +:+ "...")
              |> processAudio FromUpload (File.blob file)
  end.

(** ** Recording: [startRecording], [stopRecording] and the recorder's handlers *)

(** What the browser answers when the recorder is built and started: whether
    [new MediaRecorder(stream, {mimeType: 'audio/webm'})] and
    [new MediaRecorder(stream)] succeed, the [mimeType] of the latter,
    whether [start()] succeeds, and the name of the exception otherwise. *)
Record RecorderEnv := {
  webm_supported : bool;
  default_supported : bool;
  default_mimeType : string;
  start_ok : bool;
  recorder_errorName : option string
}.

(** The outer [catch] block of [startRecording] *)
Definition startRecording_catch (error : option string) (st : State) : State :=
  let errorName := default "Unknown" error in
  st |> set_recordingStatus
          (if String.eqb errorName "NotAllowedError"
              || String.eqb errorName "PermissionDeniedError"
           then "Microphone permission denied. Please check browser settings."
           else "Error accessing microphone. Please check connection.")
     |> set_isRecording false
     |> stopStreamTracks
     |> set_stream None
     |> stopLiveDisplay.

(** [startRecording] from [this.audioContext = null] to the first
    [await getUserMedia] *)
Definition startRecording_request (st : State) : State :=
  st |> set_audioContext false
     |> set_recordingStatus "Requesting microphone access..."
     |> suspend (AwaitUserMedia false).

(** [startRecording], up to its first [await]: that of
    [this.audioContext.close()] when there is a context, that of
    [getUserMedia] otherwise. *)
Definition startRecording (st : State) : State :=
  let st := st |> set_audioChunks [] |> stopStreamTracks in
  if audioContext st then suspend AwaitClose st
  else startRecording_request st.

(** [startRecording] after [await this.audioContext.close()] *)
Definition startRecording_closed (r : Settled unit) (st : State) : State :=
  match r with
  | Resolved _ => startRecording_request st
  | Rejected error => startRecording_catch error st
  end.

(** [startRecording] from the construction of the recorder on *)
Definition startRecording_record (env : RecorderEnv) (st : State) : State :=
  let mimeType :=
    if webm_supported env then Some "audio/webm"
    else if default_supported env then Some (default_mimeType env)
    else None in
  match stream st, mimeType with
  | Some s, Some m =>
      let r := length (recorders st) in
      let st := st |> set_recorders (recorders st ++
                        [{| rec_stream := s; rec_mimeType := m;
                            rec_state := Inactive |}])
                   |> set_mediaRecorder (Some r) in
      if start_ok env then
        st |> set_recorders
                (alter (fun rc => {| rec_stream := rec_stream rc;
                                     rec_mimeType := rec_mimeType rc;
                                     rec_state := Recording |})
                   r (recorders st))
           |> set_isRecording true
           |> startLiveDisplay
      else startRecording_catch (recorder_errorName env) st
  | _, _ => startRecording_catch (recorder_errorName env) st
  end.

(** [startRecording] after [await getUserMedia]; [fallback] tells whether
    this was the second request.  A granted request yields a new stream. *)
Definition startRecording_userMedia (fallback : bool) (r : Settled unit)
    (env : RecorderEnv) (st : State) : State :=
  match r with
  | Resolved _ =>
      st |> set_stream (Some (length (streams st)))
         |> set_streams (streams st ++ [0%nat])
         |> startRecording_record env
  | Rejected error =>
      if fallback then startRecording_catch error st
      else suspend (AwaitUserMedia true) st
  end.

(** [stopRecording] *)
Definition stopRecording (st : State) : State :=
  match mediaRecorder st with
  | Some _ =>
      if isRecording st then
        st |> mediaRecorder_stop
           |> set_isRecording false
           |> set_recordingStatus "Processing audio..."
      else stopLiveDisplay st
  | None => if negb (isRecording st) then stopLiveDisplay st else st
  end.

(** [toggleRecording] *)
Definition toggleRecording (st : State) : State :=
  if negb (isRecording st) then startRecording st else stopRecording st.

(** [mediaRecorder.ondataavailable] *)
Definition ondataavailable (data : Blob.t) (st : State) : State :=
  if (0 <? Blob.size data)%N
  then set_audioChunks (audioChunks st ++ [data]) st
  else st.

(** [new Blob(this.audioChunks, {type})] *)
Definition Blob_of_chunks (chunks : list Blob.t) (type : string) : Blob.t :=
  Blob.mk (foldr (fun c n => (Blob.size c + n)%N) 0%N chunks) type.

(** [mediaRecorder.onstop] *)
Definition onstop (st : State) : State :=
  let st := stopLiveDisplay st in
  let st :=
    if (0 <? length (audioChunks st))%nat then
      let audioBlob := Blob_of_chunks (audioChunks st)
                         (orElse (mediaRecorder_mimeType st) "audio/webm") in
      processAudio FromRecorder audioBlob st
    else set_recordingStatus "No audio data captured. Please try again." st in
  st |> stopStreamTracks |> set_stream None.

(** ** Events *)

Inductive Outcome :=
| OClose (r : Settled unit)
| OUserMedia (r : Settled unit) (env : RecorderEnv)
| ORead (r : Settled string)
| OGenerate (r : Settled (option string)).

Inductive Event :=
| ClickRecord
| ClickNew (now1 now2 : Z)
| ChangeUpload (value : string) (files : list File.t) (now1 now2 : Z)
| ClickClearAll (confirmed : bool) (now1 now2 : Z)
| ClickDelete (noteId : string) (now1 now2 : Z)
| ClickNote (noteId : string)
| EditTitle (text : string)
| EditRaw (text : string)
| Resume (k : nat) (o : Outcome)
| StopTask (r : nat) (data : Blob.t).

(** The rest of a suspended method, given the outcome it waited for. *)
Definition resume (c : Cont) (o : Outcome) (st : State) : option State :=
  match c, o with
  | AwaitClose, OClose r => Some (startRecording_closed r st)
  | AwaitUserMedia fallback, OUserMedia r env =>
      Some (startRecording_userMedia fallback r env st)
  | AwaitRead audioBlob caller, ORead r =>
      Some (processAudio_resume audioBlob caller r st)
  | AwaitTranscription caller, OGenerate r =>
      Some (getTranscription_resume caller r st)
  | AwaitPolish caller, OGenerate r =>
      Some (getPolishedNote_resume caller r st)
  | _, _ => None
  end.

(** The task a recorder queues when it stops can run once [stop()] was
    called on it, or once the tracks of its stream have been stopped while
    it was recording. *)
Definition stopTask_ready (st : State) (rc : Recorder) : bool :=
  match rec_state rc with
  | Stopping => true
  | Recording => negb (bool_decide (streams st !! rec_stream rc = Some 0%nat))
  | _ => false
  end.

(** One event, handled to completion.  An event that cannot happen in the
    state (no such suspended method, no such recorder) changes nothing. *)
Definition step (ev : Event) (st : State) : State :=
  match ev with
  | ClickRecord => toggleRecording st
  | ClickNew now1 now2 => createNewNote now1 now2 st
  | ChangeUpload value files now1 now2 =>
      st |> set_audioUpload_value value |> handleFileUpload files now1 now2
  | ClickClearAll confirmed now1 now2 => clearAllNotes confirmed now1 now2 st
  | ClickDelete noteId now1 now2 => deleteNote noteId now1 now2 st
  | ClickNote noteId => displayNoteById noteId st
  | EditTitle text => set_editorTitle text st
  | EditRaw text => set_rawTranscription_text text st
  | Resume k o =>
      match pending st !! k with
      | Some c =>
          match resume c o (set_pending (delete k (pending st)) st) with
          | Some st' => st'
          | None => st
          end
      | None => st
      end
  | StopTask r data =>
      match recorders st !! r with
      | Some rc =>
          if stopTask_ready st rc then
            st |> set_recorders
                    (<[r := {| rec_stream := rec_stream rc;
                               rec_mimeType := rec_mimeType rc;
                               rec_state := Stopped |}]> (recorders st))
               |> ondataavailable data
               |> onstop
          else st
      | None => st
      end
  end.

Definition run (evs : list Event) (st : State) : State :=
  foldl (fun st ev => step ev st) st evs.

(** The constructor: the fields' initial values, then
    [loadNotesFromLocalStorage], [createNewNote] and the status line.
    [saved] is the item found in [localStorage]. *)
Definition constructor (ph : Placeholders) (saved : option (list Note.t))
    (now1 now2 : Z) : State :=
  {| recordingStatus := ""; rawTranscription_text := "";
     polishedNote_html := Literal ""; editorTitle := "";
     audioUpload_value := ""; placeholders := ph;
     audioChunks := []; isRecording := false; currentNote := None;
     stream := None; mediaRecorder := None; audioContext := false;
     notes := []; heap := []; voiceNotes := saved;
     streams := []; recorders := []; genAI_calls := []; pending := [] |}
  |> loadNotesFromLocalStorage
  |> createNewNote now1 now2
  |> set_recordingStatus "Ready to record".

(** * Definitions used in the statements *)

(** ** Title derivation *)

(** [skip cls s] drops the longest prefix of [s] made of characters of
    [cls]; it describes what the two patterns remove. *)
Fixpoint skip (cls : ascii -> bool) (s : string) : string :=
  match s with
  | "" => ""
  | String c r => if cls c then skip cls r else s
  end.

Definition startsIn (cls : ascii -> bool) (s : string) : bool :=
  match s with
  | String c _ => cls c
  | "" => false
  end.

(** What [line.replace(/^#+\s+/, '')] leaves of a line starting with [#]:
    the line without the run of [#] and the white space after it when the
    pattern matches, the line itself when it does not. *)
Definition heading_title (line : string) : string :=
  let rest := skip isHash line in
  if startsIn isSpace rest then skip isSpace rest else line.

(** A line that starts with [#] is a heading with its marker when white
    space follows the run of [#]. *)
Definition marker_complete (line : string) : bool :=
  startsIn isSpace (skip isHash line).

(** The title the fallback rule makes of a candidate. *)
Definition truncated (candidate : string) : string :=
  if (maxLength <? String.length candidate)%nat
  then substring 0 maxLength candidate +:+ "..."
  else candidate.

(** A line the fallback rule accepts. *)
Definition usable (line : string) : bool :=
  (0 <? String.length line)%nat
  && (3 <? String.length (skip isMarkup line))%nat.

(** [line] is the first element of [lines] that satisfies [p]. *)
Definition first_such (p : string -> bool) (lines : list string)
    (line : string) : Prop :=
  exists pre post,
    lines = (pre ++ line :: post)%list
    /\ Forall (fun l => p l = false) pre
    /\ p line = true.


(** The derivation as the specification words it, to be compared with
    [derivedTitle]: rule (a) takes the first line that begins with a
    heading marker and strips the marker; rule (b) looks at the first
    non-empty line only. *)
Definition spec_headingRule (lines : list string) : option string :=
  match List.find (startsWith "#") lines with
  | Some line => Some (trim (skip isHash line))
  | None => None
  end.

Definition spec_fallbackRule (lines : list string) : option string :=
  match List.find (fun l => (0 <? String.length l)%nat) lines with
  | Some line =>
      let candidate := trim (skip isMarkup line) in
      if (3 <? String.length candidate)%nat then Some (truncated candidate)
      else None
  | None => None
  end.

Definition spec_derivedTitle (polishedText : string) : option string :=
  let lines := titleLines polishedText in
  match spec_headingRule lines with
  | Some title => Some title
  | None => spec_fallbackRule lines
  end.

Definition text_greeting : string := "# Greeting
Hello world.".

Definition text_short_first_line : string := "Hi
Hello world".

Definition text_hashtag : string := "#idea
# Plan".

Definition text_bare_marker : string := "###
# Real title".

(** ** The note store *)

(** A note with some text in one of its two content fields. *)
Definition hasText (n : Note.t) : Prop :=
  Note.rawTranscription n <> "" \/ Note.polishedNote n <> "".

(** [hasContent] of [saveOrUpdateCurrentNote]: some text is left in one of
    the two fields after trimming. *)
Definition hasContent (n : Note.t) : Prop :=
  trim (Note.rawTranscription n) <> "" \/ trim (Note.polishedNote n) <> "".

(** Every reference of [this.notes] leads to a note with text. *)
Definition stored_ok (st : State) : Prop :=
  forall r, r ∈ notes st ->
    exists n, heap st !! r = Some n /\ hasText n.

(** The same for the list found in [localStorage] at start-up. *)
Definition saved_ok (saved : option (list Note.t)) : Prop :=
  forall l, saved = Some l -> Forall hasText l.

(** Objects stay where they are, and one that has text keeps some. *)
Definition heap_le (h h' : list Note.t) : Prop :=
  forall r n, h !! r = Some n ->
    exists n', h' !! r = Some n' /\ (hasText n -> hasText n').

(** [st'] has the notes list of [st] or a part of it. *)
Definition quiet (st st' : State) : Prop :=
  heap_le (heap st) (heap st')
  /\ (forall r, r ∈ notes st' -> r ∈ notes st).

(** The title [saveOrUpdateCurrentNote] writes into the current note. *)
Definition savedTitle (st : State) : string :=
  if truthy (trim (editorTitle st)) then trim (editorTitle st)
  else "Untitled Note".

(** [i] is the first index of [this.notes] whose note has the id [noteId]. *)
Definition first_index_of (st : State) (noteId : string) (i : nat) : Prop :=
  (exists r, notes st !! i = Some r /\ hasId st noteId r = true)
  /\ (forall j r, (j < i)%nat -> notes st !! j = Some r ->
        hasId st noteId r = false).

(** Two saved notes, the second one opened in the editor. *)
Definition note_a : Note.t := Note.mk "note_1" "First" "alpha" "# First" 1.
Definition note_b : Note.t := Note.mk "note_2" "Second" "beta" "# Second" 2.
Definition no_placeholders : Placeholders :=
  {| editorTitle_placeholder := None;
     rawTranscription_placeholder := None;
     polishedNote_placeholder := None |}.
Definition st_second_open : State :=
  constructor no_placeholders (Some [note_a; note_b]) 3 3
  |> displayNoteById "note_2".

(** [st'] has the objects and the notes list of [st]. *)
Definition same_store (st st' : State) : Prop :=
  heap st' = heap st /\ notes st' = notes st.

(** From [st] to [st'] the list took in only notes with content. *)
Definition grows (st st' : State) : Prop :=
  heap_le (heap st) (heap st')
  /\ (forall r, r ∈ notes st' ->
        r ∈ notes st \/ exists n, heap st' !! r = Some n /\ hasContent n).

(** ** The pipeline *)

(** A response without text: [response.text] is absent or empty, or the
    call threw. *)
Definition failed_or_empty (response : Settled (option string)) : Prop :=
  match response with
  | Resolved text => truthy (orElse text "") = false
  | Rejected _ => True
  end.


(** ** Recording *)

(** [st'] has the stream field and the streams of [st]. *)
Definition same_streams (st st' : State) : Prop :=
  stream st' = stream st /\ streams st' = streams st.

(** A live stream [s0] that the [stream] field does not hold stays so
    from [st] to [st']. *)
Definition unreachable_stream_kept (s0 : nat) (st st' : State) : Prop :=
  streams st !! s0 = Some 0%nat -> stream st <> Some s0 ->
  streams st' !! s0 = Some 0%nat /\ stream st' <> Some s0.

(** A browser that builds and starts the recorder without complaint. *)
Definition env_ok : RecorderEnv :=
  {| webm_supported := true; default_supported := true;
     default_mimeType := "audio/ogg"; start_ok := true;
     recorder_errorName := None |}.

Definition granted : Outcome := OUserMedia (Resolved ()) env_ok.
Definition denied : Outcome := OUserMedia (Rejected (Some "NotAllowedError")) env_ok.

(** The application as the constructor leaves it, nothing saved before. *)
Definition st_ready : State := constructor no_placeholders None 7 7.

(** The record button clicked twice before the first microphone request
    is answered; then both requests are granted. *)
Definition double_start : list Event :=
  [ClickRecord; ClickRecord; Resume 0 granted; Resume 0 granted].

(** A recording is stopped and, before the recorder's stop task has run,
    started again; the context is closed, and both microphone requests of
    the new start are refused. *)
Definition restart_refused : list Event :=
  [ClickRecord; Resume 0 granted; ClickRecord;
   ClickRecord; Resume 0 (OClose (Resolved ())); Resume 0 denied; Resume 0 denied].

(** One recording from the click on the record button to the answer of
    the transcription request; [r] is the recorder that is used. *)
Definition record_and_transcribe (r : nat) (transcript : string) : list Event :=
  [ClickRecord; Resume 0 granted; ClickRecord;
   StopTask r (Blob.mk 10 "audio/webm");
   Resume 0 (ORead (Resolved "data:audio/webm;base64,AAAA"));
   Resume 0 (OGenerate (Resolved (Some transcript)))].

(** * More of the class *)

(** ** The timer read-out: [updateLiveTimer] *)

(** [s.padStart(targetLength, pad)] for a one-character pad. *)
Fixpoint repeat_char (n : nat) (c : ascii) : string :=
  match n with
  | O => ""
  | S n' => String c (repeat_char n' c)
  end.

Definition padStart (targetLength : nat) (pad : ascii) (s : string) : string :=
  repeat_char (targetLength - String.length s) pad +:+ s.

(** [Math.floor(totalSeconds / 60)], [totalSeconds % 60] and
    [Math.floor((elapsedMs % 1000) / 10)]; times are integers (milliseconds),
    far below the range where the quotients stop being exact. *)
Definition timer_minutes (elapsedMs : Z) : Z := (elapsedMs `div` 1000) `div` 60.
Definition timer_seconds (elapsedMs : Z) : Z := Z.rem (elapsedMs `div` 1000) 60.
Definition timer_hundredths (elapsedMs : Z) : Z := Z.rem elapsedMs 1000 `div` 10.

(** The text [updateLiveTimer] writes. *)
Definition timerText (elapsedMs : Z) : string :=
  padStart 2 "0" (pretty (timer_minutes elapsedMs)) +:+ ":"
  +:+ padStart 2 "0" (pretty (timer_seconds elapsedMs)) +:+ "."
  +:+ padStart 2 "0" (pretty (timer_hundredths elapsedMs)).

(** [updateLiveTimer]: [now] is [Date.now()]; the result is the new text of
    the read-out, [None] when the method returns without writing. *)
Definition updateLiveTimer (now recordingStartTime : Z) (st : State)
    : option string :=
  if negb (isRecording st) then None
  else Some (timerText (now - recordingStartTime)).

(** ** The theme: [initTheme], [toggleTheme] *)

(** What the two methods touch: the [light-mode] class of the body, the
    classes of the icon, and the item ['theme'] of [localStorage]. *)
Record Theme := {
  light_mode : bool;
  icon_classes : list string;
  theme_item : option string
}.

(** Replacement in an ordered set: the first of [old] and [new] becomes
    [new], the others go. *)
Fixpoint set_replace (old new : string) (l : list string) : list string :=
  match l with
  | [] => []
  | x :: l' =>
      if String.eqb x old || String.eqb x new
      then new :: List.filter
                    (fun y => negb (String.eqb y old || String.eqb y new)) l'
      else x :: set_replace old new l'
  end.

(** [classList.replace(old, new)]: nothing happens without [old]. *)
Definition classList_replace (old new : string) (l : list string) : list string :=
  if existsb (String.eqb old) l then set_replace old new l else l.

(** [initTheme] *)
Definition initTheme (t : Theme) : Theme :=
  if bool_decide (theme_item t = Some "light")
  then {| light_mode := true;
          icon_classes := classList_replace "fa-sun" "fa-moon" (icon_classes t);
          theme_item := theme_item t |}
  else {| light_mode := false;
          icon_classes := classList_replace "fa-moon" "fa-sun" (icon_classes t);
          theme_item := theme_item t |}.

(** [toggleTheme] *)
Definition toggleTheme (t : Theme) : Theme :=
  if negb (light_mode t)
  then {| light_mode := true;
          icon_classes := classList_replace "fa-sun" "fa-moon" (icon_classes t);
          theme_item := Some "light" |}
  else {| light_mode := false;
          icon_classes := classList_replace "fa-moon" "fa-sun" (icon_classes t);
          theme_item := Some "dark" |}.

(** The icon shows the moon in light mode and the sun otherwise. *)
Definition icon_matches (t : Theme) : Prop :=
  if light_mode t
  then "fa-moon" ∈ icon_classes t /\ "fa-sun" ∉ icon_classes t
  else "fa-sun" ∈ icon_classes t /\ "fa-moon" ∉ icon_classes t.

(** ** The placeholders of the editable elements *)

(** An editable element read through [textContent] (the title and the
    transcription; the polished note goes through [innerText]), with its
    [placeholder-active] class. *)
Record Editable := {
  el_text : string;
  el_placeholder_active : bool
}.

(** [updatePlaceholderState], run at start-up and on [blur] *)
Definition updatePlaceholderState (placeholder : string) (el : Editable)
    : Editable :=
  let currentText := trim (el_text el) in
  if String.eqb currentText "" || String.eqb currentText placeholder then
    {| el_text := if String.eqb currentText "" then placeholder else el_text el;
       el_placeholder_active := true |}
  else {| el_text := el_text el; el_placeholder_active := false |}.

(** The [focus] handler *)
Definition onfocus (placeholder : string) (el : Editable) : Editable :=
  if String.eqb (trim (el_text el)) placeholder
  then {| el_text := ""; el_placeholder_active := false |}
  else el.

(** ** The sidebar: [renderSidebar] *)

(** One [li] of the list: the note id kept in [dataset.noteId] and used by
    the click and delete handlers, the [active] class, and the two texts. *)
Record SidebarItem := {
  item_noteId : string;
  item_active : bool;
  item_title : string;
  item_snippet : string
}.

(** [this.currentNote && note.id === this.currentNote.id] *)
Definition isCurrentId (st : State) (noteId : string) : bool :=
  match currentNote st with
  | Some cur => hasId st noteId cur
  | None => false
  end.

Definition renderItem (st : State) (note : Note.t) : SidebarItem :=
  {| item_noteId := Note.id note;
     item_active := isCurrentId st (Note.id note);
     item_title := Note.title note;
     item_snippet := substring 0 50 (Note.rawTranscription note) +:+ "..." |}.

(** [renderSidebar]: the items of [notesList], in order. *)
Definition renderSidebar (st : State) : list SidebarItem :=
  omap (fun r => renderItem st <$> heap st !! r) (notes st).

(** ** Definitions used in the further statements *)

(** The notes of the list, in order. *)
Definition listed (st : State) : list Note.t :=
  omap (fun r => heap st !! r) (notes st).

(** Every reference of the list and the current note lead to an object. *)
Definition refs_ok (st : State) : Prop :=
  (forall r, r ∈ notes st -> is_Some (heap st !! r))
  /\ (exists cur, currentNote st = Some cur /\ is_Some (heap st !! cur)).

(** No two notes of a list have the same id. *)
Definition distinct_ids (l : list Note.t) : Prop := NoDup (Note.id <$> l).

(** No chunk of the buffer is empty. *)
Definition chunks_ok (st : State) : Prop :=
  Forall (fun c => (0 < Blob.size c)%N) (audioChunks st).

(** The draft [createNewNote] makes. *)
Definition draft (now1 now2 : Z) : Note.t :=
  Note.mk ("note_" +:+ pretty now1) "" "" "" now2.

(** A string without the character [c]. *)
Fixpoint lacks (c : ascii) (s : string) : bool :=
  match s with
  | "" => true
  | String d r => negb (Ascii.eqb d c) && lacks c r
  end.

(** What [getTranscription] writes when the response has text: the
    transcription element and the current note. *)
Definition write_transcription (transcriptionText : string) (st : State) : State :=
  st |> set_rawTranscription_text transcriptionText
     |> (fun st =>
           match currentNote st with
           | Some cur =>
               set_heap (alter (Note.set_rawTranscription transcriptionText)
                           cur (heap st)) st
           | None => st
           end).

(** What [getPolishedNote] writes when the response has text, before it
    saves: the polished element, the editor title and the current note. *)
Definition write_polished (polishedText : string) (st : State) : State :=
  st |> set_polishedNote_html (Marked polishedText)
     |> set_editorTitle (deriveInto polishedText (editorTitle st))
     |> (fun st =>
           match currentNote st with
           | Some cur =>
               set_heap (alter (Note.set_polishedNote polishedText)
                           cur (heap st)) st
           | None => st
           end).

(** The pipeline a suspended method belongs to. *)
Definition caller_of (c : Cont) : option Caller :=
  match c with
  | AwaitRead _ caller | AwaitTranscription caller | AwaitPolish caller =>
      Some caller
  | _ => None
  end.

(** A request to the model with something in it: audio with a MIME type
    and data, or the polishing prompt followed by a text that is not
    blank. *)
Definition request_ok (contents : list Part) : Prop :=
  (exists mimeType data,
     contents = [text_part "Generate a complete, detailed transcript of this audio.";
                 inlineData mimeType data]
     /\ mimeType <> "" /\ data <> "")
  \/ (exists text,
        contents = [text_part (polish_prompt +:+ text)] /\ trim text <> "").

(** The pipeline has ended and its caller has been told, or it waits at
    one more [await]. *)
Definition ended_or_waiting (caller : Caller) (st st' : State) : Prop :=
  (pending st' = pending st
   /\ audioUpload_value st'
      = match caller with
        | FromUpload => ""
        | FromRecorder => audioUpload_value st
        end)
  \/ (exists c', pending st' = (pending st ++ [c'])%list
        /\ caller_of c' = Some caller
        /\ audioUpload_value st' = audioUpload_value st).


(** The text [startLiveDisplay] puts into [liveRecordingTitle]. *)
Definition liveRecordingTitle_text (st : State) : string :=
  let currentTitle := trim (editorTitle st) in
  let placeholder :=
    orElse (editorTitle_placeholder (placeholders st)) "Untitled Note" in
  if truthy currentTitle && negb (String.eqb currentTitle placeholder)
  then currentTitle
  else "New Recording".

(** * Title derivation *)

Section TitleDerivation.

Lemma trimStart_skip s : trimStart s = skip isSpace s.
Proof. induction s as [|c r IH]; simpl; [done|]. by destruct (isSpace c). Qed.

Lemma plus_then_Some cls s :
  plus_then cls Some s = if startsIn cls s then Some (skip cls s) else None.
Proof.
  induction s as [|c r IH]; simpl; [done|].
  destruct (cls c) eqn:Hc; [|done].
  rewrite IH. destruct r as [|d r']; simpl; [done|].
  by destruct (cls d).
Qed.

Lemma re_markup_skip s : replace_empty re_markup s = skip isMarkup s.
Proof.
  unfold replace_empty, re_markup. rewrite plus_then_Some.
  destruct s as [|c r]; simpl; [done|]. by destruct (isMarkup c).
Qed.

Lemma isHash_not_space c : isHash c = true -> isSpace c = false.
Proof.
  unfold isHash. intros H%Ascii.eqb_eq. by subst.
Qed.

Lemma re_heading_skip s :
  re_heading s =
    if startsIn isHash s && startsIn isSpace (skip isHash s)
    then Some (skip isSpace (skip isHash s)) else None.
Proof.
  unfold re_heading.
  induction s as [|c r IH]; simpl; [done|].
  destruct (isHash c) eqn:Hc; simpl; [|done].
  rewrite IH. destruct (startsIn isHash r) eqn:Hr; simpl.
  - destruct (startsIn isSpace (skip isHash r)); [done|].
    destruct r as [|d r']; [done|]. simpl in Hr.
    simpl. by rewrite (isHash_not_space d Hr).
  - rewrite plus_then_Some.
    destruct r as [|d r']; simpl in *; [done|]. by rewrite Hr.
Qed.

Lemma replace_heading_title line :
  startsWith "#" line = true ->
  replace_empty re_heading line = heading_title line.
Proof.
  intros H. unfold replace_empty, heading_title. rewrite re_heading_skip.
  destruct line as [|c r]; [done|]. simpl in H.
  change (startsIn isHash (String c r)) with (isHash c).
  unfold isHash at 1. rewrite H. simpl.
  by destruct (startsIn isSpace _).
Qed.

(** Trimmed strings. *)

Lemma trimEnd_tail c r : trimEnd (String c r) = String c r -> trimEnd r = r.
Proof.
  simpl. destruct (trimEnd r) as [|d r'] eqn:Hr.
  - destruct (isSpace c); [done|]. by intros [= <-].
  - by intros [= <-].
Qed.

Lemma trimEnd_skip cls s : trimEnd s = s -> trimEnd (skip cls s) = skip cls s.
Proof.
  induction s as [|c r IH]; simpl skip; [done|].
  intros H. destruct (cls c); [|done]. apply IH. by eapply trimEnd_tail.
Qed.

Lemma trimEnd_idem s : trimEnd (trimEnd s) = trimEnd s.
Proof.
  induction s as [|c r IH]; simpl; [done|].
  destruct (trimEnd r) as [|d r'] eqn:Hr.
  - destruct (isSpace c) eqn:Hc; simpl; [done|]. by rewrite Hc.
  - simpl in *. rewrite IH. done.
Qed.

Lemma trimEnd_head c r :
  isSpace c = false -> trimEnd (String c r) = String c (trimEnd r).
Proof. intros H. simpl. destruct (trimEnd r); by rewrite ?H. Qed.

Lemma trimStart_trimEnd s : trimStart (trimEnd s) = trimEnd (trimStart s).
Proof.
  induction s as [|c r IH]; [done|].
  simpl trimStart at 2. destruct (isSpace c) eqn:Hc.
  - rewrite <- IH. simpl. destruct (trimEnd r); simpl; by rewrite Hc.
  - rewrite trimEnd_head by done. simpl. by rewrite Hc.
Qed.

Lemma trimStart_idem s : trimStart (trimStart s) = trimStart s.
Proof.
  induction s as [|c r IH]; simpl; [done|].
  destruct (isSpace c) eqn:Hc; [done|]. simpl. by rewrite Hc.
Qed.

Lemma trim_idem s : trim (trim s) = trim s.
Proof.
  unfold trim. rewrite (trimStart_trimEnd (trimStart s)).
  by rewrite trimStart_idem, trimEnd_idem.
Qed.

Lemma trim_fixed_end s : trim s = s -> trimEnd s = s.
Proof.
  unfold trim. intros H. rewrite <- H at 1. by rewrite trimEnd_idem.
Qed.

Lemma skip_space_empty s : trimEnd s = s -> skip isSpace s = "" -> s = "".
Proof.
  induction s as [|c r IH]; [done|].
  intros Hs. simpl. destruct (isSpace c) eqn:Hc; [|done].
  intros Hr. rewrite (IH (trimEnd_tail _ _ Hs) Hr) in Hs.
  simpl in Hs. by rewrite Hc in Hs.
Qed.

Lemma skip_not_starts cls s : startsIn cls (skip cls s) = false.
Proof.
  induction s as [|c r IH]; simpl; [done|].
  destruct (cls c) eqn:Hc; [done|]. simpl. done.
Qed.

Lemma skip_fixed cls s : startsIn cls s = false -> skip cls s = s.
Proof. destruct s as [|c r]; simpl; [done|]. by intros ->. Qed.

Lemma trim_skip_space s : trimEnd s = s -> trim (skip isSpace s) = skip isSpace s.
Proof.
  intros H. unfold trim. rewrite trimStart_skip.
  rewrite (skip_fixed isSpace (skip isSpace s)) by apply skip_not_starts.
  by apply trimEnd_skip.
Qed.



Lemma titleLines_trimmed text : Forall (fun l => trim l = l) (titleLines text).
Proof.
  unfold titleLines. apply Forall_forall. intros l Hl.
  apply (list_elem_of_fmap_1 trim) in Hl as (x & -> & _).
  apply trim_idem.
Qed.

Lemma heading_title_trimmed line :
  trim line = line -> startsWith "#" line = true ->
  trim (heading_title line) = heading_title line
  /\ truthy (heading_title line) = true.
Proof.
  intros Ht Hs. unfold heading_title.
  pose proof (trimEnd_skip isHash line (trim_fixed_end _ Ht)) as Hrest.
  destruct (startsIn isSpace (skip isHash line)) eqn:Hsp.
  - split; [by apply trim_skip_space|].
    destruct (skip isSpace (skip isHash line)) eqn:Hk; [|done].
    apply skip_space_empty in Hk; [|done]. by rewrite Hk in Hsp.
  - split; [done|]. by destruct line.
Qed.

Lemma headingLoop_first lines line :
  Forall (fun l => trim l = l) lines ->
  first_such (startsWith "#") lines line ->
  headingLoop lines = Some (heading_title line).
Proof.
  intros Htrim (pre & post & -> & Hpre & Hline).
  induction pre as [|l pre IH]; simpl.
  - rewrite Hline, replace_heading_title by done.
    apply Forall_inv in Htrim.
    destruct (heading_title_trimmed line Htrim Hline) as [-> ->]. done.
  - apply Forall_cons in Hpre as [-> Hpre].
    apply IH; [|done]. by apply Forall_cons in Htrim as [_ ?].
Qed.

Lemma headingLoop_none lines :
  Forall (fun l => startsWith "#" l = false) lines -> headingLoop lines = None.
Proof.
  induction 1 as [|l lines Hl _ IH]; simpl; [done|]. by rewrite Hl.
Qed.

Lemma isMarkup_space c : isMarkup c = false -> isSpace c = false.
Proof.
  unfold isMarkup. destruct (isSpace c); [|done].
  rewrite !orb_true_r. done.
Qed.

Lemma candidate_skip line :
  trim line = line ->
  trim (replace_empty re_markup line) = skip isMarkup line.
Proof.
  intros Ht. rewrite re_markup_skip. unfold trim.
  rewrite trimStart_skip, skip_fixed.
  - apply trimEnd_skip. by apply trim_fixed_end.
  - pose proof (skip_not_starts isMarkup line) as H.
    destruct (skip isMarkup line) as [|c r]; [done|].
    simpl in *. by apply isMarkup_space.
Qed.

Lemma substring_all n s :
  (String.length s <= n)%nat -> substring 0 n s = s.
Proof.
  revert n. induction s as [|c r IH]; intros [|n] H; simpl in *; try done; try lia.
  f_equal. apply IH. lia.
Qed.

Lemma substring_prefix_length n s :
  (n <= String.length s)%nat -> String.length (substring 0 n s) = n.
Proof.
  revert n. induction s as [|c r IH]; intros [|n] H; simpl in *; try done; try lia.
  f_equal. apply IH. lia.
Qed.

Lemma append_cons c r t : String c r +:+ t = String c (r +:+ t).
Proof. reflexivity. Qed.

Lemma append_empty_r s : s +:+ "" = s.
Proof. induction s as [|c r IH]; [done|]. by rewrite append_cons, IH. Qed.

Lemma append_length s t :
  String.length (s +:+ t) = (String.length s + String.length t)%nat.
Proof.
  induction s as [|c r IH]; [done|]. rewrite append_cons. simpl. by rewrite IH.
Qed.

Lemma fallback_title candidate :
  substring 0 maxLength candidate
    +:+ (if (maxLength <? String.length candidate)%nat then "..." else "")
  = truncated candidate.
Proof.
  unfold truncated. destruct (maxLength <? String.length candidate)%nat eqn:H.
  - done.
  - apply Nat.ltb_ge in H. by rewrite append_empty_r, substring_all.
Qed.

Lemma fallbackLoop_step line rest :
  trim line = line ->
  fallbackLoop (line :: rest) =
    if usable line then Some (truncated (skip isMarkup line))
    else fallbackLoop rest.
Proof.
  intros Ht. simpl. unfold usable. rewrite candidate_skip by done.
  destruct (0 <? String.length line)%nat; simpl; [|done].
  destruct (3 <? String.length (skip isMarkup line))%nat; [|done].
  by rewrite fallback_title.
Qed.

Lemma fallbackLoop_first lines line :
  Forall (fun l => trim l = l) lines ->
  first_such usable lines line ->
  fallbackLoop lines = Some (truncated (skip isMarkup line)).
Proof.
  intros Htrim (pre & post & -> & Hpre & Hline).
  induction pre as [|l pre IH].
  - simpl app. rewrite fallbackLoop_step by (by apply Forall_inv in Htrim).
    by rewrite Hline.
  - apply Forall_cons in Hpre as [Hl Hpre].
    apply Forall_cons in Htrim as [Hlt Htrim].
    simpl app. rewrite fallbackLoop_step, Hl by done. by apply IH.
Qed.

Lemma fallbackLoop_none lines :
  Forall (fun l => trim l = l) lines ->
  Forall (fun l => usable l = false) lines -> fallbackLoop lines = None.
Proof.
  intros Htrim Hall. induction Hall as [|l lines Hl _ IH]; [done|].
  apply Forall_cons in Htrim as [Hlt Htrim].
  rewrite fallbackLoop_step, Hl by done. by apply IH.
Qed.

Lemma truncated_length candidate :
  String.length (truncated candidate) =
    if (maxLength <? String.length candidate)%nat then (maxLength + 3)%nat
    else String.length candidate.
Proof.
  unfold truncated. destruct (maxLength <? String.length candidate)%nat eqn:H.
  - apply Nat.ltb_lt in H.
    rewrite append_length, substring_prefix_length by lia. done.
  - done.
Qed.

Lemma deriveInto_idem polishedText editorTitle :
  deriveInto polishedText (deriveInto polishedText editorTitle)
  = deriveInto polishedText editorTitle.
Proof. unfold deriveInto. by destruct (derivedTitle polishedText). Qed.

Example derivedTitle_greeting : derivedTitle text_greeting = Some "Greeting".
Proof. reflexivity. Qed.

Example derivedTitle_numbered :
  derivedTitle "1. **Shopping** list" = Some "Shopping** list".
Proof. reflexivity. Qed.

(** Where the pattern of the first loop does not match -- no white space
    after the run of [#] -- nothing is removed, and the test on the title
    that follows cannot fail: the line itself is written, also when a
    heading with text comes later. *)
Example derivedTitle_hashtag :
  derivedTitle text_hashtag = Some "#idea"
  /\ spec_derivedTitle text_hashtag = Some "idea".
Proof. split; reflexivity. Qed.

Example derivedTitle_bare_marker :
  titleLines text_bare_marker = ["###"; "# Real title"]
  /\ marker_complete "###" = false
  /\ derivedTitle text_bare_marker = Some "###".
Proof. repeat split; reflexivity. Qed.

Lemma marker_stripped line :
  trim line = line -> marker_complete line = true ->
  heading_title line = trim (skip isHash line).
Proof.
  intros Ht Hm. unfold marker_complete in Hm. unfold heading_title.
  rewrite Hm. unfold trim. rewrite trimStart_skip. symmetry.
  apply trimEnd_skip, trimEnd_skip. by apply trim_fixed_end.
Qed.

(** C2, as stated, fails: when the first non-empty line leaves a candidate
    of at most 3 characters, the source goes on to the next lines, where the
    claim leaves the title unset. *)
Lemma title_first_nonempty_line_counterexample :
  titleLines text_short_first_line = ["Hi"; "Hello world"]
  /\ derivedTitle text_short_first_line = Some "Hello world"
  /\ spec_derivedTitle text_short_first_line = None.
Proof. repeat split; reflexivity. Qed.

(** C2 (amended): the rules on the trimmed lines of the polished text.
    (a) When the first line starting with [#] is a heading with its marker
    (white space follows the run of [#]), it gives the title: the line with
    the marker stripped, trimmed; it wins whatever the other lines are.
    (b) When no line starts with [#], the first non-empty line whose
    candidate (leading markup characters removed) is longer than 3
    characters gives the title, cut to 60 characters plus ["..."] when
    longer than 60 and unchanged otherwise; lines with a shorter candidate
    are passed over.  (c) When no line starts with [#] and no line has such
    a candidate, no title is written.  Deriving twice from the same text
    gives what deriving once gives. *)
Theorem title_derivation_rules (polishedText : string) :
  let lines := titleLines polishedText in
  (forall line, first_such (startsWith "#") lines line ->
     marker_complete line = true ->
     derivedTitle polishedText = Some (trim (skip isHash line)))
  /\ (Forall (fun l => startsWith "#" l = false) lines ->
      forall line, first_such usable lines line ->
        derivedTitle polishedText = Some (truncated (skip isMarkup line)))
  /\ (Forall (fun l => startsWith "#" l = false) lines ->
      Forall (fun l => usable l = false) lines ->
      derivedTitle polishedText = None)
  /\ (forall candidate,
        ((String.length candidate <= 60)%nat -> truncated candidate = candidate)
        /\ ((60 < String.length candidate)%nat ->
            truncated candidate = substring 0 60 candidate +:+ "..."
            /\ String.length (truncated candidate) = 63%nat))
  /\ (forall editorTitle,
        deriveInto polishedText (deriveInto polishedText editorTitle)
        = deriveInto polishedText editorTitle).
Proof.
  intros lines. pose proof (titleLines_trimmed polishedText) as Htrim.
  fold lines in Htrim. unfold derivedTitle. fold lines.
  split; [|split; [|split; [|split]]].
  - intros line Hline Hm. rewrite (headingLoop_first lines line) by done.
    f_equal. apply marker_stripped; [|done].
    destruct Hline as (pre & post & E & _). rewrite E in Htrim.
    apply Forall_app in Htrim as [_ Htrim]. by apply Forall_cons in Htrim as [? _].
  - intros Hno line Hline.
    by rewrite (headingLoop_none lines), (fallbackLoop_first lines line).
  - intros Hno Hun.
    by rewrite (headingLoop_none lines), (fallbackLoop_none lines).
  - intros candidate. pose proof (truncated_length candidate) as Hlen.
    unfold truncated in *. change maxLength with 60%nat in *. split; intros H.
    + apply Nat.ltb_ge in H. by rewrite H.
    + apply Nat.ltb_lt in H. by rewrite H in *.
  - intros editorTitle. apply deriveInto_idem.
Qed.

Lemma title_derivation_rules_witness :
  derivedTitle text_greeting = Some "Greeting"
  /\ derivedTitle text_short_first_line = Some "Hello world"
  /\ derivedTitle "ok" = None.
Proof.
  split; [|split].
  - apply (proj1 (title_derivation_rules text_greeting) "# Greeting").
    + exists [], ["Hello world."]. repeat split; constructor.
    + reflexivity.
  - apply (fun H => proj1 (proj2 (title_derivation_rules text_short_first_line))
                       H "Hello world").
    + repeat constructor.
    + exists ["Hi"], []. repeat split; repeat constructor.
  - apply (proj1 (proj2 (proj2 (title_derivation_rules "ok"))));
      repeat constructor.
Defined.

End TitleDerivation.

(** * Reading a field of an updated state *)

Ltac simpl_state :=
  cbn [
    recordingStatus rawTranscription_text polishedNote_html editorTitle
    audioUpload_value placeholders audioChunks isRecording currentNote
    stream mediaRecorder audioContext notes heap voiceNotes streams
    recorders genAI_calls pending set_recordingStatus
    set_rawTranscription_text set_polishedNote_html set_editorTitle
    set_audioUpload_value set_audioChunks set_isRecording set_currentNote
    set_stream set_mediaRecorder set_audioContext set_notes set_heap
    set_voiceNotes set_streams set_recorders set_genAI_calls set_pending ].

Ltac simpl_state_in H :=
  cbn [
    recordingStatus rawTranscription_text polishedNote_html editorTitle
    audioUpload_value placeholders audioChunks isRecording currentNote
    stream mediaRecorder audioContext notes heap voiceNotes streams
    recorders genAI_calls pending set_recordingStatus
    set_rawTranscription_text set_polishedNote_html set_editorTitle
    set_audioUpload_value set_audioChunks set_isRecording set_currentNote
    set_stream set_mediaRecorder set_audioContext set_notes set_heap
    set_voiceNotes set_streams set_recorders set_genAI_calls set_pending ] in H.

(** ** What each method does to the objects and to the list *)

Lemma same_store_refl st : same_store st st.
Proof. by split. Qed.

Lemma same_store_trans st1 st2 st3 :
  same_store st1 st2 -> same_store st2 st3 -> same_store st1 st3.
Proof. intros [? ?] [? ?]. split; congruence. Qed.

Lemma same_store_set_recordingStatus v st : same_store st (set_recordingStatus v st).
Proof. split; reflexivity. Qed.

Lemma same_store_set_rawTranscription_text v st : same_store st (set_rawTranscription_text v st).
Proof. split; reflexivity. Qed.

Lemma same_store_set_polishedNote_html v st : same_store st (set_polishedNote_html v st).
Proof. split; reflexivity. Qed.

Lemma same_store_set_editorTitle v st : same_store st (set_editorTitle v st).
Proof. split; reflexivity. Qed.

Lemma same_store_set_audioUpload_value v st : same_store st (set_audioUpload_value v st).
Proof. split; reflexivity. Qed.

Lemma same_store_set_audioChunks v st : same_store st (set_audioChunks v st).
Proof. split; reflexivity. Qed.

Lemma same_store_set_isRecording v st : same_store st (set_isRecording v st).
Proof. split; reflexivity. Qed.

Lemma same_store_set_currentNote v st : same_store st (set_currentNote v st).
Proof. split; reflexivity. Qed.

Lemma same_store_set_stream v st : same_store st (set_stream v st).
Proof. split; reflexivity. Qed.

Lemma same_store_set_mediaRecorder v st : same_store st (set_mediaRecorder v st).
Proof. split; reflexivity. Qed.

Lemma same_store_set_audioContext v st : same_store st (set_audioContext v st).
Proof. split; reflexivity. Qed.

Lemma same_store_set_voiceNotes v st : same_store st (set_voiceNotes v st).
Proof. split; reflexivity. Qed.

Lemma same_store_set_streams v st : same_store st (set_streams v st).
Proof. split; reflexivity. Qed.

Lemma same_store_set_recorders v st : same_store st (set_recorders v st).
Proof. split; reflexivity. Qed.

Lemma same_store_set_genAI_calls v st : same_store st (set_genAI_calls v st).
Proof. split; reflexivity. Qed.

Lemma same_store_set_pending v st : same_store st (set_pending v st).
Proof. split; reflexivity. Qed.

Ltac same_store_setter :=
  first
    [ apply same_store_set_recordingStatus
    | apply same_store_set_rawTranscription_text
    | apply same_store_set_polishedNote_html
    | apply same_store_set_editorTitle
    | apply same_store_set_audioUpload_value
    | apply same_store_set_audioChunks
    | apply same_store_set_isRecording
    | apply same_store_set_currentNote
    | apply same_store_set_stream
    | apply same_store_set_mediaRecorder
    | apply same_store_set_audioContext
    | apply same_store_set_voiceNotes
    | apply same_store_set_streams
    | apply same_store_set_recorders
    | apply same_store_set_genAI_calls
    | apply same_store_set_pending ].

(** A chain of field updates that leaves [heap] and [notes] alone. *)
Ltac same_store_chain :=
  repeat (first [ same_store_setter
                | eapply same_store_trans; [|same_store_setter] ]);
  try apply same_store_refl.

(** The methods that are chains of field updates and of each other. *)
Ltac unfold_methods :=
  unfold toggleRecording, stopRecording, startRecording, startRecording_closed,
    startRecording_userMedia, startRecording_record, startRecording_request,
    startRecording_catch, onstop, ondataavailable, processAudio_resume,
    processAudio, processAudio_catch, getTranscription, getPolishedNote,
    generateContent, settle, displayNoteById, displayNote,
    saveNotesToLocalStorage, startLiveDisplay, setupAudioVisualizer,
    stopLiveDisplay, suspend, mediaRecorder_stop, stopStreamTracks, stopTracks.

Ltac same_store_tac :=
  intros; unfold_methods; repeat case_match; split; reflexivity.


Ltac unfold_note_methods :=
  unfold handleFileUpload, clearAllNotes, deleteNote, createNewNote,
    getTranscription_resume, getPolishedNote_resume, saveOrUpdateCurrentNote.

Ltac same_streams_tac :=
  intros; unfold_note_methods; unfold_methods; repeat case_match;
  split; reflexivity.

(** * The note store *)

Section NoteStore.

Lemma truthy_ne s : truthy s = true <-> s <> "".
Proof. destruct s; simpl; split; done. Qed.

Lemma hasContent_hasText n : hasContent n -> hasText n.
Proof.
  unfold hasContent, hasText. intros [H|H]; [left|right]; by intros E; rewrite E in H.
Qed.

Lemma orElse_Some s d : orElse (Some s) d = if truthy s then s else d.
Proof. reflexivity. Qed.

(** [findIndex] gives the first index that satisfies the test. *)
Lemma findIndex_Some {A} (p : A -> bool) (l : list A) i :
  findIndex p l = Some i <->
  (exists x, l !! i = Some x /\ p x = true)
  /\ (forall j y, (j < i)%nat -> l !! j = Some y -> p y = false).
Proof.
  revert i. induction l as [|x l IH]; intros i; simpl.
  - split; [done|]. by intros [(y & Hy & _) _].
  - destruct (p x) eqn:Hx.
    + split.
      * intros [= <-]. split; [by exists x|]. intros; lia.
      * intros [(y & Hy & Hp) Hlt]. destruct i as [|i]; [done|].
        specialize (Hlt 0%nat x). rewrite Hx in Hlt.
        discriminate Hlt; [lia|done].
    + rewrite fmap_Some. split.
      * intros (k & Hk & ->). apply IH in Hk as [Hk1 Hk2]. split; [done|].
        intros [|j] y Hj Hy; simpl in Hy; [by inversion Hy; subst|].
        apply (Hk2 j); [lia|done].
      * intros [(y & Hy & Hp) Hlt]. destruct i as [|i]; simpl in Hy.
        { inversion Hy; subst. congruence. }
        exists i. split; [|done]. apply IH. split; [by exists y|].
        intros j z Hj Hz. apply (Hlt (S j)); [lia|done].
Qed.

Lemma findIndex_ext {A} (p q : A -> bool) (l : list A) :
  (forall x, p x = q x) -> findIndex p l = findIndex q l.
Proof.
  intros H. induction l as [|x l IH]; simpl; [done|]. by rewrite H, IH.
Qed.

Lemma findIndex_None {A} (p : A -> bool) (l : list A) :
  findIndex p l = None <-> (forall x, x ∈ l -> p x = false).
Proof.
  induction l as [|x l IH]; simpl.
  - split; [|done]. intros _ y Hy. by apply elem_of_nil in Hy.
  - destruct (p x) eqn:Hx.
    + split; [done|]. intros H. specialize (H x). rewrite Hx in H.
      discriminate H. by left.
    + destruct (findIndex p l); simpl.
      * split; [done|]. intros H. assert (Some n = None); [|done].
        apply IH. intros y Hy. apply H. by right.
      * split; [|done]. intros _ y [->|Hy]%elem_of_cons; [done|].
        by apply IH.
Qed.

Lemma hasId_set_title v cur st noteId r :
  hasId (set_heap (alter (Note.set_title v) cur (heap st)) st) noteId r
  = hasId st noteId r.
Proof.
  unfold hasId. simpl. destruct (decide (cur = r)) as [->|Hne].
  - rewrite list_lookup_alter_eq. by destruct (heap st !! r).
  - by rewrite list_lookup_alter_ne.
Qed.

(** [saveOrUpdateCurrentNote], case by case. *)
Lemma saveOrUpdate_unfold st cur note :
  currentNote st = Some cur ->
  heap st !! cur = Some note ->
  let st1 := set_heap (alter (Note.set_title (savedTitle st)) cur (heap st)) st in
  saveOrUpdateCurrentNote st =
    if truthy (trim (Note.rawTranscription note))
       || truthy (trim (Note.polishedNote note))
    then saveNotesToLocalStorage
           (match findIndex (hasId st (Note.id note)) (notes st) with
            | Some i => set_notes (<[i := cur]> (notes st)) st1
            | None => set_notes (cur :: notes st) st1
            end)
    else st1.
Proof.
  intros Hcur Hnote. unfold saveOrUpdateCurrentNote. rewrite Hcur.
  rewrite orElse_Some. fold (savedTitle st). simpl.
  rewrite list_lookup_alter_eq, Hnote. simpl.
  destruct (truthy (trim (Note.rawTranscription note))
            || truthy (trim (Note.polishedNote note))); simpl; [|done].
  f_equal.
  assert (findIndex
            (hasId (set_heap (alter (Note.set_title (savedTitle st)) cur (heap st)) st)
               (Note.id note)) (notes st)
          = findIndex (hasId st (Note.id note)) (notes st)) as ->.
  { apply findIndex_ext. intros r. apply hasId_set_title. }
  done.
Qed.



Lemma hasContent_test note :
  hasContent note <->
  truthy (trim (Note.rawTranscription note))
  || truthy (trim (Note.polishedNote note)) = true.
Proof.
  unfold hasContent. rewrite orb_true_iff, !truthy_ne. done.
Qed.

Example second_open_state :
  notes st_second_open = [0; 1]%nat
  /\ currentNote st_second_open = Some 1%nat
  /\ heap st_second_open !! 1%nat = Some note_b
  /\ editorTitle st_second_open = "Second".
Proof. repeat split; reflexivity. Qed.

(** C10: without content the method still writes the title -- the trimmed
    editor title, or ['Untitled Note'] when that is empty -- into the
    current note, and changes nothing else: the list and the stored item
    stay as they are. *)
Theorem saveOrUpdate_writes_title_without_content st cur note :
  currentNote st = Some cur ->
  heap st !! cur = Some note ->
  trim (Note.rawTranscription note) = "" ->
  trim (Note.polishedNote note) = "" ->
  let st' := saveOrUpdateCurrentNote st in
  heap st' !! cur = Some (Note.set_title (savedTitle st) note)
  /\ (forall r, r <> cur -> heap st' !! r = heap st !! r)
  /\ notes st' = notes st
  /\ voiceNotes st' = voiceNotes st.
Proof.
  intros Hcur Hnote Hraw Hpol. simpl.
  rewrite (saveOrUpdate_unfold st cur note Hcur Hnote), Hraw, Hpol. simpl.
  repeat split.
  - by rewrite list_lookup_alter_eq, Hnote.
  - intros r Hr. by rewrite list_lookup_alter_ne.
Qed.

Lemma saveOrUpdate_writes_title_without_content_witness :
  let st := constructor no_placeholders None 7 7 |> set_editorTitle "  Plans " in
  heap (saveOrUpdateCurrentNote st) !! 0%nat
    = Some (Note.mk "note_7" "Plans" "" "" 7)
  /\ notes (saveOrUpdateCurrentNote st) = [].
Proof.
  intros st.
  destruct (saveOrUpdate_writes_title_without_content st 0%nat
              (Note.mk "note_7" "" "" "" 7)
              eq_refl eq_refl eq_refl eq_refl) as (H1 & _ & H2 & _).
  split; [exact H1 | exact H2].
Defined.

(** C9, as stated, fails: a note that is already in the list is written
    back at its index, it does not move to the front. *)
Lemma upsert_moves_to_front_counterexample :
  notes st_second_open = [0; 1]%nat
  /\ currentNote st_second_open = Some 1%nat
  /\ hasId st_second_open "note_2" 1%nat = true
  /\ notes (saveOrUpdateCurrentNote st_second_open) = [0; 1]%nat
  /\ head (notes (saveOrUpdateCurrentNote st_second_open))
     <> currentNote st_second_open.
Proof. repeat split; try reflexivity. discriminate. Qed.

(** C9 (amended): for a current note with content, the method writes the
    title into it and then, when [i] is the first index of the list whose
    note has the same id, puts the current note at index [i] -- the list
    keeps its length and its other entries, nothing moves; when no note of
    the list has that id, the current note becomes the new first element.
    No other object is changed. *)
Theorem upsert_replaces_in_place st cur note :
  currentNote st = Some cur ->
  heap st !! cur = Some note ->
  hasContent note ->
  let st' := saveOrUpdateCurrentNote st in
  (forall i, first_index_of st (Note.id note) i ->
     notes st' = <[i := cur]> (notes st)
     /\ notes st' !! i = Some cur
     /\ length (notes st') = length (notes st)
     /\ (forall j, j <> i -> notes st' !! j = notes st !! j))
  /\ ((forall r, r ∈ notes st -> hasId st (Note.id note) r = false) ->
      notes st' = cur :: notes st)
  /\ heap st' !! cur = Some (Note.set_title (savedTitle st) note)
  /\ (forall r, r <> cur -> heap st' !! r = heap st !! r).
Proof.
  intros Hcur Hnote Hc%hasContent_test. simpl.
  rewrite (saveOrUpdate_unfold st cur note Hcur Hnote), Hc.
  split; [|split; [|split]].
  - intros i Hi. pose proof Hi as [(r & Hr & _) _].
    apply findIndex_Some in Hi. rewrite Hi. simpl.
    apply lookup_lt_Some in Hr.
    split; [done|]. split; [by apply list_lookup_insert_eq|].
    split; [by rewrite length_insert|].
    intros j Hj. by apply list_lookup_insert_ne.
  - intros Hno. apply findIndex_None in Hno. by rewrite Hno.
  - destruct (findIndex _ _); simpl; by rewrite list_lookup_alter_eq, Hnote.
  - intros r Hr. destruct (findIndex _ _); simpl; by rewrite list_lookup_alter_ne.
Qed.

Lemma upsert_replaces_in_place_witness :
  notes (saveOrUpdateCurrentNote st_second_open) = <[1%nat := 1%nat]> [0; 1]%nat
  /\ notes (saveOrUpdateCurrentNote (constructor no_placeholders None 7 7
             |> getTranscription_resume FromRecorder (Resolved (Some "memo"))))
     = [0%nat].
Proof.
  split.
  - refine (proj1 (proj1 (upsert_replaces_in_place st_second_open 1%nat note_b
                            eq_refl eq_refl _) 1%nat _)).
    + left. discriminate.
    + split; [exists 1%nat; split; reflexivity|].
      intros [|j] r Hj Hr; [|lia]. by inversion Hr.
  - refine (proj1 (proj2 (upsert_replaces_in_place
                            (constructor no_placeholders None 7 7
                             |> getTranscription_resume FromRecorder
                                  (Resolved (Some "memo")))
                            0%nat (Note.mk "note_7" "" "memo" "" 7)
                            eq_refl eq_refl _)) _).
    + left. discriminate.
    + intros r Hr. by apply elem_of_nil in Hr.
Defined.



Lemma heap_le_refl h : heap_le h h.
Proof. intros r n H. by exists n. Qed.

Lemma heap_le_trans h1 h2 h3 : heap_le h1 h2 -> heap_le h2 h3 -> heap_le h1 h3.
Proof.
  intros H12 H23 r n H. destruct (H12 r n H) as (n2 & H2 & Ht2).
  destruct (H23 r n2 H2) as (n3 & H3 & Ht3). exists n3. auto.
Qed.

Lemma heap_le_app h l : heap_le h (h ++ l).
Proof. intros r n H. exists n. split; [by apply lookup_app_l_Some|done]. Qed.

Lemma heap_le_alter f cur h :
  (forall n, hasText n -> hasText (f n)) -> heap_le h (alter f cur h).
Proof.
  intros Hf r n H. rewrite list_lookup_alter.
  destruct (decide (cur = r)) as [->|]; rewrite H; simpl;
    [exists (f n)|exists n]; auto.
Qed.

Lemma quiet_refl st : quiet st st.
Proof. split; [apply heap_le_refl|done]. Qed.

Lemma quiet_trans st1 st2 st3 : quiet st1 st2 -> quiet st2 st3 -> quiet st1 st3.
Proof.
  intros [H1 N1] [H2 N2]. split; [by eapply heap_le_trans|auto].
Qed.

Lemma same_store_quiet st st' : same_store st st' -> quiet st st'.
Proof. intros [Hh Hn]. unfold quiet. rewrite Hh, Hn. split; [apply heap_le_refl|done]. Qed.

Lemma quiet_grows st st' : quiet st st' -> grows st st'.
Proof. intros [H N]. split; [done|]. intros r Hr. left. auto. Qed.

Lemma quiet_then_grows st1 st2 st3 : quiet st1 st2 -> grows st2 st3 -> grows st1 st3.
Proof.
  intros [H1 N1] [H2 N2]. split; [by eapply heap_le_trans|].
  intros r Hr. destruct (N2 r Hr) as [?|?]; auto.
Qed.

Lemma grows_then_same st1 st2 st3 :
  grows st1 st2 -> same_store st2 st3 -> grows st1 st3.
Proof. intros [H1 N1] [Hh Hn]. unfold grows. rewrite Hh, Hn. done. Qed.

Lemma stored_ok_grows st st' : stored_ok st -> grows st st' -> stored_ok st'.
Proof.
  intros Hok [Hh Hn] r Hr. destruct (Hn r Hr) as [Hold|(n & Hl & Hc)].
  - destruct (Hok r Hold) as (n & Hl & Ht).
    destruct (Hh r n Hl) as (n' & Hl' & Ht'). exists n'. auto.
  - exists n. split; [done|]. by apply hasContent_hasText.
Qed.

Lemma same_store_settle caller st : same_store st (settle caller st).
Proof. same_store_tac. Qed.

Lemma same_store_toggleRecording st : same_store st (toggleRecording st).
Proof. same_store_tac. Qed.

Lemma same_store_startRecording_closed r st :
  same_store st (startRecording_closed r st).
Proof. same_store_tac. Qed.

Lemma same_store_startRecording_userMedia fallback r env st :
  same_store st (startRecording_userMedia fallback r env st).
Proof. same_store_tac. Qed.

Lemma same_store_processAudio caller audioBlob st :
  same_store st (processAudio caller audioBlob st).
Proof. same_store_tac. Qed.

Lemma same_store_processAudio_resume audioBlob caller r st :
  same_store st (processAudio_resume audioBlob caller r st).
Proof. same_store_tac. Qed.

Lemma same_store_getPolishedNote caller st :
  same_store st (getPolishedNote caller st).
Proof. same_store_tac. Qed.

Lemma same_store_onstop st : same_store st (onstop st).
Proof. same_store_tac. Qed.

Lemma same_store_ondataavailable data st : same_store st (ondataavailable data st).
Proof. same_store_tac. Qed.

Lemma same_store_displayNoteById noteId st :
  same_store st (displayNoteById noteId st).
Proof. same_store_tac. Qed.

Lemma quiet_createNewNote now1 now2 st : quiet st (createNewNote now1 now2 st).
Proof.
  unfold createNewNote. unfold_methods. repeat case_match; split; simpl_state;
    solve [apply heap_le_app | intros r Hr; exact Hr].
Qed.

Lemma quiet_deleteNote noteId now1 now2 st :
  quiet st (deleteNote noteId now1 now2 st).
Proof.
  unfold deleteNote.
  set (st1 := saveNotesToLocalStorage _).
  assert (quiet st st1) as H1.
  { split; [apply heap_le_refl|]. simpl_state. intros r Hr.
    apply list_elem_of_In, List.filter_In in Hr as [Hr _].
    by apply list_elem_of_In. }
  repeat case_match; try exact H1.
  eapply quiet_trans; [exact H1|apply quiet_createNewNote].
Qed.

Lemma quiet_clearAllNotes confirmed now1 now2 st :
  quiet st (clearAllNotes confirmed now1 now2 st).
Proof.
  unfold clearAllNotes. destruct confirmed; [|apply quiet_refl].
  eapply quiet_trans; [|apply quiet_createNewNote].
  split; [apply heap_le_refl|]. simpl_state. intros r Hr.
  by apply elem_of_nil in Hr.
Qed.

Lemma quiet_handleFileUpload files now1 now2 st :
  quiet st (handleFileUpload files now1 now2 st).
Proof.
  unfold handleFileUpload. destruct files as [|file files]; [apply quiet_refl|].
  case_match.
  - apply same_store_quiet. same_store_chain.
  - eapply quiet_trans; [apply quiet_createNewNote|].
    eapply quiet_trans; [|apply same_store_quiet, same_store_processAudio].
    apply same_store_quiet. same_store_chain.
Qed.

Lemma hasText_set_rawTranscription t n :
  truthy t = true -> hasText (Note.set_rawTranscription t n).
Proof. intros H%truthy_ne. by left. Qed.

Lemma hasText_set_polishedNote t n :
  truthy t = true -> hasText (Note.set_polishedNote t n).
Proof. intros H%truthy_ne. by right. Qed.

Lemma quiet_getTranscription_resume caller response st :
  quiet st (getTranscription_resume caller response st).
Proof.
  unfold getTranscription_resume.
  destruct response as [transcriptionText|e];
    [|apply same_store_quiet; same_store_tac].
  destruct (truthy (orElse transcriptionText "")) eqn:Ht;
    [|apply same_store_quiet; same_store_tac].
  eapply quiet_trans; [|apply same_store_quiet, same_store_getPolishedNote].
  split; [|simpl_state; case_match; simpl_state; intros r Hr; exact Hr].
  simpl_state. case_match; simpl_state; [|apply heap_le_refl].
  apply heap_le_alter. intros note _. by apply hasText_set_rawTranscription.
Qed.

Lemma elem_of_insert_inv {A} (l : list A) i x y :
  y ∈ <[i := x]> l -> y = x \/ y ∈ l.
Proof.
  intros (j & Hj)%list_elem_of_lookup_1.
  apply list_lookup_insert_Some in Hj as [(-> & -> & _)|(_ & Hj)]; [by left|].
  right. by eapply list_elem_of_lookup_2.
Qed.

Lemma hasText_set_title v n : hasText n -> hasText (Note.set_title v n).
Proof. done. Qed.

Lemma grows_saveOrUpdateCurrentNote st : grows st (saveOrUpdateCurrentNote st).
Proof.
  destruct (currentNote st) as [cur|] eqn:Hcur;
    [|unfold saveOrUpdateCurrentNote; rewrite Hcur; apply quiet_grows, quiet_refl].
  destruct (heap st !! cur) as [note|] eqn:Hnote.
  - rewrite (saveOrUpdate_unfold st cur note Hcur Hnote).
    destruct (truthy _ || truthy _) eqn:Hc.
    + apply hasContent_test in Hc. split.
      * destruct (findIndex _ _); unfold saveNotesToLocalStorage; simpl_state;
          apply heap_le_alter, hasText_set_title.
      * intros r Hr.
        assert (r = cur \/ r ∈ notes st) as [->|Hold]; [|right|by left].
        { destruct (findIndex _ _); unfold saveNotesToLocalStorage in Hr;
            simpl_state_in Hr.
          - by apply elem_of_insert_inv in Hr.
          - by apply elem_of_cons in Hr. }
        exists (Note.set_title (savedTitle st) note). split; [|exact Hc].
        destruct (findIndex _ _); unfold saveNotesToLocalStorage; simpl_state;
          by rewrite list_lookup_alter_eq, Hnote.
    + split; [apply heap_le_alter, hasText_set_title|]. simpl_state. auto.
  - unfold saveOrUpdateCurrentNote. rewrite Hcur. simpl_state.
    rewrite list_lookup_alter_eq, Hnote. cbn [fmap option_fmap option_map].
    split; [apply heap_le_alter, hasText_set_title|]. simpl_state. auto.
Qed.

Lemma grows_getPolishedNote_resume caller response st :
  grows st (getPolishedNote_resume caller response st).
Proof.
  unfold getPolishedNote_resume.
  destruct response as [polishedText|e];
    [|apply quiet_grows, same_store_quiet; same_store_tac].
  destruct (truthy (orElse polishedText "")) eqn:Ht;
    [|apply quiet_grows, same_store_quiet; same_store_tac].
  eapply grows_then_same;
    [|eapply same_store_trans; [|apply same_store_settle]; same_store_chain].
  eapply quiet_then_grows; [|apply grows_saveOrUpdateCurrentNote].
  split; [|simpl_state; case_match; simpl_state; intros r Hr; exact Hr].
  simpl_state. case_match; simpl_state; [|apply heap_le_refl].
  apply heap_le_alter. intros note _. by apply hasText_set_polishedNote.
Qed.

Lemma grows_resume c o st st' : resume c o st = Some st' -> grows st st'.
Proof.
  destruct c, o; simpl; intros [= <-].
  - apply quiet_grows, same_store_quiet, same_store_startRecording_closed.
  - apply quiet_grows, same_store_quiet, same_store_startRecording_userMedia.
  - apply quiet_grows, same_store_quiet, same_store_processAudio_resume.
  - apply quiet_grows, quiet_getTranscription_resume.
  - apply grows_getPolishedNote_resume.
Qed.

Lemma grows_step ev st : grows st (step ev st).
Proof.
  destruct ev; simpl.
  - apply quiet_grows, same_store_quiet, same_store_toggleRecording.
  - apply quiet_grows, quiet_createNewNote.
  - apply quiet_grows. eapply quiet_trans; [|apply quiet_handleFileUpload].
    apply same_store_quiet. same_store_chain.
  - apply quiet_grows, quiet_clearAllNotes.
  - apply quiet_grows, quiet_deleteNote.
  - apply quiet_grows, same_store_quiet, same_store_displayNoteById.
  - apply quiet_grows, same_store_quiet. same_store_chain.
  - apply quiet_grows, same_store_quiet. same_store_chain.
  - destruct (pending st !! k) as [c|]; [|apply quiet_grows, quiet_refl].
    destruct (resume c o _) as [st'|] eqn:Hr; [|apply quiet_grows, quiet_refl].
    apply grows_resume in Hr. eapply quiet_then_grows; [|exact Hr].
    apply same_store_quiet. same_store_chain.
  - destruct (recorders st !! r) as [rc|]; [|apply quiet_grows, quiet_refl].
    destruct (stopTask_ready st rc); [|apply quiet_grows, quiet_refl].
    apply quiet_grows, same_store_quiet.
    eapply same_store_trans; [|apply same_store_onstop].
    eapply same_store_trans; [|apply same_store_ondataavailable].
    same_store_chain.
Qed.

Lemma stored_ok_constructor ph saved now1 now2 :
  saved_ok saved -> stored_ok (constructor ph saved now1 now2).
Proof.
  intros Hsaved. unfold constructor.
  eapply stored_ok_grows;
    [|apply quiet_grows; eapply quiet_trans;
      [apply quiet_createNewNote|apply same_store_quiet; same_store_chain]].
  unfold loadNotesFromLocalStorage. simpl_state.
  destruct saved as [l|]; unfold stored_ok; simpl_state.
  - intros r Hr. apply list_elem_of_lookup_1 in Hr as (i & Hi).
    apply lookup_seq in Hi as [-> Hi]. cbn [length Nat.add app].
    destruct (lookup_lt_is_Some_2 l i Hi) as (n & Hn).
    exists n. split; [done|].
    specialize (Hsaved l eq_refl). rewrite Forall_forall in Hsaved.
    apply Hsaved. by eapply list_elem_of_lookup_2.
  - intros r Hr. by apply elem_of_nil in Hr.
Qed.

Lemma stored_ok_run evs st : stored_ok st -> stored_ok (run evs st).
Proof.
  revert st. induction evs as [|ev evs IH]; intros st Hok; [done|].
  simpl. apply IH. eapply stored_ok_grows; [exact Hok|apply grows_step].
Qed.

(** What the guard of [saveOrUpdateCurrentNote] gives:
    the method leaves the list (and the stored item) as it is when both
    content fields of the current note are empty after trimming; whatever
    the event, a reference that enters the list leads to a note with
    content after trimming; and from a start with properly saved notes,
    after any sequence of events, every note of the list has one of the
    two fields non-empty -- as a string, white space included. *)
Lemma notes_enter_with_content :
  (forall st cur note,
     currentNote st = Some cur -> heap st !! cur = Some note ->
     trim (Note.rawTranscription note) = "" ->
     trim (Note.polishedNote note) = "" ->
     notes (saveOrUpdateCurrentNote st) = notes st
     /\ voiceNotes (saveOrUpdateCurrentNote st) = voiceNotes st)
  /\ (forall ev st r,
        r ∈ notes (step ev st) -> r ∉ notes st ->
        exists n, heap (step ev st) !! r = Some n /\ hasContent n)
  /\ (forall ph saved now1 now2 evs,
        saved_ok saved ->
        let st := run evs (constructor ph saved now1 now2) in
        forall r, r ∈ notes st ->
          exists n, heap st !! r = Some n
            /\ (Note.rawTranscription n <> "" \/ Note.polishedNote n <> "")).
Proof.
  split; [|split].
  - intros st cur note Hcur Hnote Hraw Hpol.
    rewrite (saveOrUpdate_unfold st cur note Hcur Hnote), Hraw, Hpol.
    split; reflexivity.
  - intros ev st r Hin Hnot.
    destruct (grows_step ev st) as [_ Hg].
    destruct (Hg r Hin) as [?|?]; done.
  - intros ph saved now1 now2 evs Hsaved st.
    apply stored_ok_run, stored_ok_constructor, Hsaved.
Qed.

(** The scenario of the specification: transcript and polished text
    arrive, the note gets its title from the heading and is in the list. *)
Example greeting_scenario :
  let st := run (record_and_transcribe 0 "Hello world."
                 ++ [Resume 0 (OGenerate (Resolved (Some text_greeting)))])
              st_ready in
  notes st = [0%nat]
  /\ heap st !! 0%nat
     = Some (Note.mk "note_7" "Greeting" "Hello world." text_greeting 7)
  /\ recordingStatus st = "Note polished. Ready for next recording.".
Proof. vm_compute. repeat split. Qed.

(** C1 fails on the source.  The list holds references, and
    [getTranscription] takes any non-empty text, white space included,
    where [getPolishedNote] and [saveOrUpdateCurrentNote] trim first.  So a
    second recording into a note of the list, answered with a transcription
    of white space, leaves that note in the list with no content in the
    transcription; with a polished text that is white space too, both
    fields are empty after trimming.  The next write of the list to
    [localStorage] -- here the deletion of another note -- stores that
    note. *)
Theorem blank_note_reaches_store :
  let st0 := constructor no_placeholders (Some [note_a]) 7 7 in
  let polished := run (record_and_transcribe 0 "memo"
                       ++ [Resume 0 (OGenerate (Resolved (Some " ")))]) st0 in
  let again := run (record_and_transcribe 1 " ") polished in
  let st := step (ClickDelete "note_1" 9 9) again in
  let blank := Note.mk "note_7" "Untitled Note" " " " " 7 in
  listed polished = [Note.mk "note_7" "Untitled Note" "memo" " " 7; note_a]
  /\ listed again = [blank; note_a]
  /\ recordingStatus again = "No transcription to polish"
  /\ listed st = [blank]
  /\ voiceNotes st = Some [blank]
  /\ trim (Note.rawTranscription blank) = ""
  /\ trim (Note.polishedNote blank) = "".
Proof. vm_compute. repeat split. Qed.

End NoteStore.

(** * The pipeline *)

Section Pipeline.

Lemma step_Resume st k c o st' :
  pending st !! k = Some c ->
  resume c o (set_pending (delete k (pending st)) st) = Some st' ->
  step (Resume k o) st = st'.
Proof. intros Hk Hr. simpl. by rewrite Hk, Hr. Qed.

(** C3: when the transcription request comes back without text or fails,
    the method reports it and ends: the status line carries the failure
    message, there is no second request and no suspended method left of
    this pipeline, no object is written to -- a current note with empty
    fields keeps them empty -- and the list and the stored item are the
    same. *)
Theorem transcription_failure_halts st k caller response :
  pending st !! k = Some (AwaitTranscription caller) ->
  failed_or_empty response ->
  let st' := step (Resume k (OGenerate response)) st in
  st' = (st |> set_pending (delete k (pending st))
            |> set_recordingStatus
                 (match response with
                  | Resolved _ => "Transcription failed or returned empty."
                  | Rejected _ => "Error getting transcription. Please try again."
                  end)
            |> settle caller)
  /\ recordingStatus st'
     = match response with
       | Resolved _ => "Transcription failed or returned empty."
       | Rejected _ => "Error getting transcription. Please try again."
       end
  /\ genAI_calls st' = genAI_calls st
  /\ pending st' = delete k (pending st)
  /\ heap st' = heap st
  /\ (forall cur note,
        currentNote st = Some cur -> heap st !! cur = Some note ->
        Note.rawTranscription note = "" -> Note.polishedNote note = "" ->
        currentNote st' = Some cur /\ heap st' !! cur = Some note)
  /\ notes st' = notes st
  /\ voiceNotes st' = voiceNotes st.
Proof.
  intros Hk Hfail st'.
  assert (st' = (st |> set_pending (delete k (pending st))
                    |> set_recordingStatus
                         (match response with
                          | Resolved _ => "Transcription failed or returned empty."
                          | Rejected _ => "Error getting transcription. Please try again."
                          end)
                    |> settle caller)) as ->.
  { apply (step_Resume st k (AwaitTranscription caller)); [done|].
    simpl. f_equal. unfold getTranscription_resume.
    destruct response as [text|e]; [|done]. simpl in Hfail. by rewrite Hfail. }
  destruct caller; repeat split; try reflexivity; assumption.
Qed.

Lemma transcription_failure_halts_witness :
  let st := constructor no_placeholders None 7 7
            |> getTranscription "AAAA" "audio/webm" FromRecorder in
  let st' := step (Resume 0 (OGenerate (Resolved (Some "")))) st in
  recordingStatus st' = "Transcription failed or returned empty."
  /\ genAI_calls st' = genAI_calls st
  /\ pending st' = []
  /\ notes st' = [].
Proof.
  intros st st'.
  destruct (transcription_failure_halts st 0%nat FromRecorder
              (Resolved (Some "")) eq_refl eq_refl)
    as (_ & Hs & Hc & Hp & _ & _ & Hn & _).
  split; [exact Hs|]. split; [exact Hc|]. split; [exact Hp|exact Hn].
Defined.

(** A polishing request that comes back without text or fails: only the
    status line, the list of suspended methods and (after an upload) the
    file input change. *)
Lemma polishing_failure_step st k caller response :
  pending st !! k = Some (AwaitPolish caller) ->
  failed_or_empty response ->
  let st' := step (Resume k (OGenerate response)) st in
  st' = (st |> set_pending (delete k (pending st))
            |> set_recordingStatus
                 (match response with
                  | Resolved _ => "Polishing failed or returned empty."
                  | Rejected _ => "Error polishing note. Please try again."
                  end)
            |> settle caller)
  /\ heap st' = heap st
  /\ rawTranscription_text st' = rawTranscription_text st
  /\ polishedNote_html st' = polishedNote_html st
  /\ notes st' = notes st
  /\ voiceNotes st' = voiceNotes st
  /\ isRecording st' = isRecording st
  /\ genAI_calls st' = genAI_calls st
  /\ pending st' = delete k (pending st)
  /\ (forall cur note t,
        currentNote st = Some cur -> heap st !! cur = Some note ->
        Note.rawTranscription note = t -> rawTranscription_text st = t ->
        exists note', heap st' !! cur = Some note'
          /\ Note.rawTranscription note' = t
          /\ Note.polishedNote note' = Note.polishedNote note
          /\ rawTranscription_text st' = t).
Proof.
  intros Hk Hfail st'.
  assert (st' = (st |> set_pending (delete k (pending st))
                    |> set_recordingStatus
                         (match response with
                          | Resolved _ => "Polishing failed or returned empty."
                          | Rejected _ => "Error polishing note. Please try again."
                          end)
                    |> settle caller)) as ->.
  { apply (step_Resume st k (AwaitPolish caller)); [done|].
    simpl. f_equal. unfold getPolishedNote_resume.
    destruct response as [text|e]; [|done]. simpl in Hfail. by rewrite Hfail. }
  destruct caller; repeat split; try reflexivity;
    intros cur note t Hc Hn Hr Ht; exists note; repeat split; assumption.
Qed.

(** What the transcription stage leaves behind when it succeeds. *)
Lemma transcription_success st k caller t cur note :
  pending st !! k = Some (AwaitTranscription caller) ->
  currentNote st = Some cur -> heap st !! cur = Some note ->
  trim t <> "" ->
  let st1 := step (Resume k (OGenerate (Resolved (Some t)))) st in
  pending st1 = (delete k (pending st) ++ [AwaitPolish caller])%list
  /\ currentNote st1 = Some cur
  /\ heap st1 !! cur = Some (Note.set_rawTranscription t note)
  /\ rawTranscription_text st1 = t
  /\ notes st1 = notes st.
Proof.
  intros Hk Hcur Hnote Ht st1.
  assert (truthy t = true) as Htt.
  { destruct t; [done|done]. }
  assert (truthy (trim t) = true) as Htr by by apply truthy_ne.
  assert (st1 = getTranscription_resume caller (Resolved (Some t))
                  (set_pending (delete k (pending st)) st)) as ->.
  { by apply (step_Resume st k (AwaitTranscription caller)). }
  unfold getTranscription_resume. rewrite orElse_Some, Htt.
  unfold getPolishedNote. simpl_state. rewrite Hcur. simpl_state.
  rewrite Htt, Htr. cbn [negb orb].
  unfold generateContent, suspend. simpl_state.
  repeat split; [exact Hcur|]. by rewrite list_lookup_alter_eq, Hnote.
Qed.

(** C4: after a transcription [t] has been stored, a polishing request
    that comes back without text or fails is reported and ends the
    pipeline: the current note has [t] as its transcription and its
    polished content as before, the transcription element shows [t], the
    polished content shown is the old one, the list and the stored item
    are untouched, no further request is made, no method of the pipeline
    is left suspended and the recording flag is as before. *)
Theorem polishing_failure_keeps_transcription st k caller t cur note response :
  pending st !! k = Some (AwaitTranscription caller) ->
  currentNote st = Some cur -> heap st !! cur = Some note ->
  trim t <> "" ->
  failed_or_empty response ->
  let st1 := step (Resume k (OGenerate (Resolved (Some t)))) st in
  let k' := length (delete k (pending st)) in
  let st2 := step (Resume k' (OGenerate response)) st1 in
  pending st1 !! k' = Some (AwaitPolish caller)
  /\ recordingStatus st2 =
       match response with
       | Resolved _ => "Polishing failed or returned empty."
       | Rejected _ => "Error polishing note. Please try again."
       end
  /\ heap st2 !! cur = Some (Note.set_rawTranscription t note)
  /\ rawTranscription_text st2 = t
  /\ polishedNote_html st2 = polishedNote_html st
  /\ notes st2 = notes st
  /\ voiceNotes st2 = voiceNotes st
  /\ genAI_calls st2 = genAI_calls st1
  /\ pending st2 = delete k (pending st)
  /\ isRecording st2 = isRecording st.
Proof.
  intros Hk Hcur Hnote Ht Hfail st1 k' st2.
  destruct (transcription_success st k caller t cur note Hk Hcur Hnote Ht)
    as (Hp1 & Hc1 & Hh1 & Hr1 & Hn1).
  fold st1 in Hp1, Hc1, Hh1, Hr1, Hn1.
  assert (pending st1 !! k' = Some (AwaitPolish caller)) as Hk'.
  { rewrite Hp1. unfold k'. by rewrite lookup_app_r, Nat.sub_diag. }
  destruct (polishing_failure_step st1 k' caller response Hk' Hfail)
    as (Heq & Hh & Hr & Hp & Hn & Hv & Hi & Hg & Hpe & _).
  fold st2 in Heq, Hh, Hr, Hp, Hn, Hv, Hi, Hg, Hpe.
  split; [exact Hk'|]. split.
  { rewrite Heq. by destruct caller. }
  split; [by rewrite Hh|]. split; [by rewrite Hr|].
  assert (st1 = getTranscription_resume caller (Resolved (Some t))
                  (set_pending (delete k (pending st)) st)) as Hst1.
  { by apply (step_Resume st k (AwaitTranscription caller)). }
  assert (polishedNote_html st1 = polishedNote_html st
          /\ voiceNotes st1 = voiceNotes st
          /\ isRecording st1 = isRecording st) as (Hp0 & Hv0 & Hi0).
  { rewrite Hst1. unfold getTranscription_resume.
    destruct (truthy (orElse (Some t) "")); [|by destruct caller].
    unfold_methods. repeat case_match; repeat split. }
  split; [congruence|]. split; [congruence|]. split; [congruence|].
  split; [exact Hg|]. split; [|congruence].
  rewrite Hpe, Hp1. unfold k'.
  clear. induction (delete k (pending st)) as [|c l IH]; [done|].
  simpl. by rewrite IH.
Qed.

Lemma polishing_failure_keeps_transcription_witness :
  let st := constructor no_placeholders None 7 7
            |> getTranscription "AAAA" "audio/webm" FromRecorder in
  let st1 := step (Resume 0 (OGenerate (Resolved (Some "memo")))) st in
  let st2 := step (Resume 0 (OGenerate (Rejected None))) st1 in
  heap st2 !! 0%nat = Some (Note.mk "note_7" "" "memo" "" 7)
  /\ rawTranscription_text st2 = "memo"
  /\ notes st2 = [].
Proof.
  intros st st1 st2.
  assert (trim "memo" <> "") as Ht by discriminate.
  destruct (polishing_failure_keeps_transcription st 0%nat FromRecorder "memo"
              0%nat (Note.mk "note_7" "" "" "" 7) (Rejected None)
              eq_refl eq_refl eq_refl Ht I)
    as (_ & _ & Hh & Hr & _ & Hn & _).
  split; [exact Hh|]. split; [exact Hr | exact Hn].
Defined.

(** C5: a first file of more than 50 * 1024 * 1024 bytes only changes the
    status line, to the message about the size, and empties the file
    input: no note is created, nothing is read or sent, no method is left
    suspended. *)
Theorem oversized_upload_rejected st value file files now1 now2 :
  (50 * 1024 * 1024 < File.size file)%N ->
  let st' := step (ChangeUpload value (file :: files) now1 now2) st in
  st' = (st |> set_audioUpload_value value
            |> set_recordingStatus "File is too large (max 50MB)."
            |> set_audioUpload_value "")
  /\ recordingStatus st' = "File is too large (max 50MB)."
  /\ genAI_calls st' = genAI_calls st
  /\ pending st' = pending st
  /\ currentNote st' = currentNote st
  /\ heap st' = heap st
  /\ notes st' = notes st.
Proof.
  intros Hsize st'.
  assert (st' = (st |> set_audioUpload_value value
                    |> set_recordingStatus "File is too large (max 50MB)."
                    |> set_audioUpload_value "")) as ->.
  { unfold st'. cbn [step]. unfold handleFileUpload.
    apply N.ltb_lt in Hsize. rewrite Hsize.
    replace ("File is too large (max " +:+ pretty 50%N +:+ "MB).")
      with "File is too large (max 50MB)." by (vm_compute; reflexivity).
    reflexivity. }
  repeat split.
Qed.

Lemma oversized_upload_rejected_witness :
  let st := constructor no_placeholders None 7 7 in
  let file := File.mk "talk.mp3" 62914560 "audio/mpeg" in
  recordingStatus (step (ChangeUpload "talk.mp3" [file] 8 8) st)
    = "File is too large (max 50MB)."
  /\ genAI_calls (step (ChangeUpload "talk.mp3" [file] 8 8) st) = [].
Proof.
  intros st file.
  destruct (oversized_upload_rejected st "talk.mp3" file [] 8 8 eq_refl)
    as (_ & Hs & Hc & _).
  split; [exact Hs | exact Hc].
Defined.

End Pipeline.

(** * Recording *)

Section Recording.

Lemma same_streams_refl st : same_streams st st.
Proof. by split. Qed.

Lemma same_streams_trans st1 st2 st3 :
  same_streams st1 st2 -> same_streams st2 st3 -> same_streams st1 st3.
Proof. intros [? ?] [? ?]. split; congruence. Qed.

Lemma same_streams_set_recordingStatus v st : same_streams st (set_recordingStatus v st).
Proof. split; reflexivity. Qed.

Lemma same_streams_set_rawTranscription_text v st : same_streams st (set_rawTranscription_text v st).
Proof. split; reflexivity. Qed.

Lemma same_streams_set_editorTitle v st : same_streams st (set_editorTitle v st).
Proof. split; reflexivity. Qed.

Lemma same_streams_set_audioUpload_value v st : same_streams st (set_audioUpload_value v st).
Proof. split; reflexivity. Qed.

Lemma same_streams_set_audioChunks v st : same_streams st (set_audioChunks v st).
Proof. split; reflexivity. Qed.

Lemma same_streams_set_isRecording v st : same_streams st (set_isRecording v st).
Proof. split; reflexivity. Qed.

Lemma same_streams_set_audioContext v st : same_streams st (set_audioContext v st).
Proof. split; reflexivity. Qed.

Lemma same_streams_set_recorders v st : same_streams st (set_recorders v st).
Proof. split; reflexivity. Qed.

Lemma same_streams_set_pending v st : same_streams st (set_pending v st).
Proof. split; reflexivity. Qed.

Lemma kept_refl s0 st : unreachable_stream_kept s0 st st.
Proof. by intros ? ?. Qed.

Lemma kept_trans s0 st1 st2 st3 :
  unreachable_stream_kept s0 st1 st2 -> unreachable_stream_kept s0 st2 st3 ->
  unreachable_stream_kept s0 st1 st3.
Proof. intros H12 H23 Hl Hs. destruct (H12 Hl Hs). by apply H23. Qed.

Lemma same_streams_kept s0 st st' :
  same_streams st st' -> unreachable_stream_kept s0 st st'.
Proof. intros [Hs Hl] ? ?. by rewrite Hs, Hl. Qed.

Lemma kept_stopStreamTracks s0 st :
  unreachable_stream_kept s0 st (stopStreamTracks st).
Proof.
  intros Hl Hs. unfold stopStreamTracks, stopTracks.
  destruct (stream st) as [s|] eqn:E; simpl_state; [|by rewrite E].
  rewrite E. split; [|done]. rewrite list_lookup_alter_ne; [done|congruence].
Qed.

Lemma kept_release s0 st :
  unreachable_stream_kept s0 st (st |> stopStreamTracks |> set_stream None).
Proof.
  intros Hl Hs. destruct (kept_stopStreamTracks s0 st Hl Hs) as [H _].
  split; [exact H|done].
Qed.

Lemma kept_startRecording_catch s0 error st :
  unreachable_stream_kept s0 st (startRecording_catch error st).
Proof.
  unfold startRecording_catch, stopLiveDisplay.
  eapply kept_trans; [|apply same_streams_kept, same_streams_set_audioContext].
  eapply kept_trans; [|apply kept_release].
  apply same_streams_kept.
  eapply same_streams_trans; [|apply same_streams_set_isRecording].
  apply same_streams_set_recordingStatus.
Qed.

Lemma same_streams_processAudio caller audioBlob st :
  same_streams st (processAudio caller audioBlob st).
Proof. same_streams_tac. Qed.

Lemma same_streams_startRecording_request st :
  same_streams st (startRecording_request st).
Proof. same_streams_tac. Qed.

Lemma same_streams_stopRecording st : same_streams st (stopRecording st).
Proof. same_streams_tac. Qed.

Lemma same_streams_createNewNote now1 now2 st :
  same_streams st (createNewNote now1 now2 st).
Proof. same_streams_tac. Qed.

Lemma same_streams_handleFileUpload files now1 now2 st :
  same_streams st (handleFileUpload files now1 now2 st).
Proof. same_streams_tac. Qed.

Lemma same_streams_clearAllNotes confirmed now1 now2 st :
  same_streams st (clearAllNotes confirmed now1 now2 st).
Proof. same_streams_tac. Qed.

Lemma same_streams_deleteNote noteId now1 now2 st :
  same_streams st (deleteNote noteId now1 now2 st).
Proof. same_streams_tac. Qed.

Lemma same_streams_displayNoteById noteId st :
  same_streams st (displayNoteById noteId st).
Proof. same_streams_tac. Qed.

Lemma same_streams_processAudio_resume audioBlob caller r st :
  same_streams st (processAudio_resume audioBlob caller r st).
Proof. same_streams_tac. Qed.

Lemma same_streams_getTranscription_resume caller r st :
  same_streams st (getTranscription_resume caller r st).
Proof. same_streams_tac. Qed.

Lemma same_streams_getPolishedNote_resume caller r st :
  same_streams st (getPolishedNote_resume caller r st).
Proof. same_streams_tac. Qed.

Lemma same_streams_ondataavailable data st :
  same_streams st (ondataavailable data st).
Proof. same_streams_tac. Qed.



Lemma kept_startRecording s0 st :
  unreachable_stream_kept s0 st (startRecording st).
Proof.
  unfold startRecording.
  assert (unreachable_stream_kept s0 st (st |> set_audioChunks [] |> stopStreamTracks))
    as H1.
  { eapply kept_trans; [|apply kept_stopStreamTracks].
    apply same_streams_kept, same_streams_set_audioChunks. }
  case_match.
  - eapply kept_trans; [exact H1|]. apply same_streams_kept, same_streams_set_pending.
  - eapply kept_trans; [exact H1|].
    apply same_streams_kept, same_streams_startRecording_request.
Qed.

Lemma kept_startRecording_closed s0 r st :
  unreachable_stream_kept s0 st (startRecording_closed r st).
Proof.
  destruct r; simpl.
  - apply same_streams_kept, same_streams_startRecording_request.
  - apply kept_startRecording_catch.
Qed.

(** A granted request takes the next free index, which is not [s0]. *)
Lemma kept_acquire s0 st :
  unreachable_stream_kept s0 st
    (st |> set_stream (Some (length (streams st)))
        |> set_streams (streams st ++ [0%nat])).
Proof.
  intros Hl Hs. simpl_state. split.
  - by apply lookup_app_l_Some.
  - apply lookup_lt_Some in Hl. intros [= E]. lia.
Qed.

Lemma kept_startRecording_record s0 env st :
  unreachable_stream_kept s0 st (startRecording_record env st).
Proof.
  unfold startRecording_record.
  repeat case_match;
    first
      [ apply kept_startRecording_catch
      | eapply kept_trans; [|apply kept_startRecording_catch];
        apply same_streams_kept; split; reflexivity
      | apply same_streams_kept; unfold startLiveDisplay, setupAudioVisualizer;
        simpl_state; repeat case_match; split; reflexivity ].
Qed.

Lemma kept_startRecording_userMedia s0 fallback r env st :
  unreachable_stream_kept s0 st (startRecording_userMedia fallback r env st).
Proof.
  unfold startRecording_userMedia. destruct r as [[]|error].
  - eapply kept_trans; [apply kept_acquire|apply kept_startRecording_record].
  - destruct fallback; [apply kept_startRecording_catch|].
    apply same_streams_kept, same_streams_set_pending.
Qed.

Lemma kept_onstop s0 st : unreachable_stream_kept s0 st (onstop st).
Proof.
  unfold onstop.
  eapply kept_trans; [|apply kept_release].
  apply same_streams_kept. unfold stopLiveDisplay.
  case_match.
  - eapply same_streams_trans; [|apply same_streams_processAudio].
    apply same_streams_set_audioContext.
  - eapply same_streams_trans; [|apply same_streams_set_recordingStatus].
    apply same_streams_set_audioContext.
Qed.

Lemma kept_resume s0 c o st st' :
  resume c o st = Some st' -> unreachable_stream_kept s0 st st'.
Proof.
  destruct c, o; simpl; intros [= <-].
  - apply kept_startRecording_closed.
  - apply kept_startRecording_userMedia.
  - apply same_streams_kept, same_streams_processAudio_resume.
  - apply same_streams_kept, same_streams_getTranscription_resume.
  - apply same_streams_kept, same_streams_getPolishedNote_resume.
Qed.

Lemma kept_step s0 ev st : unreachable_stream_kept s0 st (step ev st).
Proof.
  destruct ev; cbn [step].
  - unfold toggleRecording. case_match.
    + apply kept_startRecording.
    + apply same_streams_kept, same_streams_stopRecording.
  - apply same_streams_kept, same_streams_createNewNote.
  - eapply kept_trans;
      [|apply same_streams_kept, same_streams_handleFileUpload].
    apply same_streams_kept, same_streams_set_audioUpload_value.
  - apply same_streams_kept, same_streams_clearAllNotes.
  - apply same_streams_kept, same_streams_deleteNote.
  - apply same_streams_kept, same_streams_displayNoteById.
  - apply same_streams_kept, same_streams_set_editorTitle.
  - apply same_streams_kept, same_streams_set_rawTranscription_text.
  - destruct (pending st !! k) as [c|]; [|apply kept_refl].
    destruct (resume c o _) as [st'|] eqn:Hr; [|apply kept_refl].
    apply kept_resume with (s0 := s0) in Hr.
    eapply kept_trans; [|exact Hr].
    apply same_streams_kept, same_streams_set_pending.
  - destruct (recorders st !! r) as [rc|]; [|apply kept_refl].
    destruct (stopTask_ready st rc); [|apply kept_refl].
    eapply kept_trans; [|apply kept_onstop].
    apply same_streams_kept.
    eapply same_streams_trans; [|apply same_streams_ondataavailable].
    apply same_streams_set_recorders.
Qed.

Lemma kept_run s0 evs st :
  streams st !! s0 = Some 0%nat -> stream st <> Some s0 ->
  streams (run evs st) !! s0 = Some 0%nat /\ stream (run evs st) <> Some s0.
Proof.
  revert st. induction evs as [|ev evs IH]; intros st Hl Hs; [done|].
  simpl. destruct (kept_step s0 ev st Hl Hs). by apply IH.
Qed.

(** [startRecording] with a stream in the field: its tracks are stopped
    and the buffered chunks are dropped before anything is requested. *)
Lemma startRecording_releases_held_stream st s n :
  stream st = Some s -> streams st !! s = Some n ->
  let st' := startRecording st in
  streams st' !! s = Some (S n)
  /\ audioChunks st' = []
  /\ length (streams st') = length (streams st).
Proof.
  intros Hs Hn. simpl. unfold startRecording, stopStreamTracks, stopTracks.
  simpl_state. rewrite Hs. simpl_state.
  unfold startRecording_request, suspend.
  case_match; simpl_state;
    rewrite list_lookup_alter_eq, Hn, length_alter; done.
Qed.

(** C8: when the recorder's stop task runs with no chunk buffered and an
    empty last chunk, the status line gets the "try again" message, which
    no failure of [startRecording] produces; nothing is read or sent and
    no method is suspended; the stream field is cleared.  [processAudio]
    answers an empty blob in the same way. *)
Theorem empty_capture_reported st r rc data :
  recorders st !! r = Some rc ->
  stopTask_ready st rc = true ->
  audioChunks st = [] ->
  Blob.size data = 0%N ->
  let st' := step (StopTask r data) st in
  recordingStatus st' = "No audio data captured. Please try again."
  /\ (forall error st0,
        recordingStatus (startRecording_catch error st0) <> recordingStatus st')
  /\ genAI_calls st' = genAI_calls st
  /\ pending st' = pending st
  /\ heap st' = heap st
  /\ notes st' = notes st
  /\ stream st' = None
  /\ (forall caller audioBlob st0,
        Blob.size audioBlob = 0%N ->
        processAudio caller audioBlob st0
        = (st0 |> set_recordingStatus "No audio data captured. Please try again."
               |> settle caller)).
Proof.
  intros Hr Hready Hchunks Hsize st'.
  assert (st' = (st |> set_recorders
                         (<[r := {| rec_stream := rec_stream rc;
                                    rec_mimeType := rec_mimeType rc;
                                    rec_state := Stopped |}]> (recorders st))
                    |> stopLiveDisplay
                    |> set_recordingStatus "No audio data captured. Please try again."
                    |> stopStreamTracks |> set_stream None)) as ->.
  { unfold st'. cbn [step]. rewrite Hr, Hready.
    unfold ondataavailable. rewrite Hsize. cbn [N.ltb N.compare].
    unfold onstop, stopLiveDisplay. simpl_state. rewrite Hchunks. reflexivity. }
  unfold stopLiveDisplay, stopStreamTracks, stopTracks. simpl_state.
  destruct (stream st) as [s|]; simpl_state.
  all: split; [reflexivity|]; split;
    [intros error st0; unfold startRecording_catch, stopLiveDisplay,
       stopStreamTracks, stopTracks;
     repeat case_match; simpl_state; discriminate|].
  all: repeat split; try reflexivity.
  all: intros caller audioBlob st0 Hz; unfold processAudio; by rewrite Hz.
Qed.

Lemma empty_capture_reported_witness :
  let st := run [ClickRecord; Resume 0 granted; ClickRecord] st_ready in
  recordingStatus (step (StopTask 0 (Blob.mk 0 "audio/webm")) st)
    = "No audio data captured. Please try again."
  /\ genAI_calls (step (StopTask 0 (Blob.mk 0 "audio/webm")) st) = [].
Proof.
  intros st.
  destruct (empty_capture_reported st 0%nat
              {| rec_stream := 0; rec_mimeType := "audio/webm";
                 rec_state := Stopping |}
              (Blob.mk 0 "audio/webm") eq_refl eq_refl eq_refl eq_refl)
    as (Hs & _ & Hc & _).
  split; [exact Hs | exact Hc].
Defined.

(** C6 fails on the source.  Two clicks on the record button before the
    first microphone request is answered start [startRecording] twice:
    at the second call no stream is held yet, so nothing is stopped; when
    both requests are granted the second stream replaces the first in the
    field while the first is still live, with its recorder recording. *)
Theorem double_start_overlapping_streams :
  let st2 := run [ClickRecord; ClickRecord] st_ready in
  let st3 := step (Resume 0 granted) st2 in
  let st4 := step (Resume 0 granted) st3 in
  st4 = run double_start st_ready
  /\ isRecording st2 = false
  /\ stream st2 = None
  /\ pending st2 = [AwaitUserMedia false; AwaitUserMedia false]
  /\ stream st3 = Some 0%nat
  /\ liveStreams st3 = [0%nat]
  /\ stream st4 = Some 1%nat
  /\ liveStreams st4 = [0; 1]%nat
  /\ recorders st4 =
       [{| rec_stream := 0; rec_mimeType := "audio/webm"; rec_state := Recording |};
        {| rec_stream := 1; rec_mimeType := "audio/webm"; rec_state := Recording |}].
Proof. vm_compute. repeat split. Qed.

(** The same double start, followed by a regular stop: the second stream
    is released, the first never was. *)
Example double_start_then_stop :
  let st := run (double_start ++ [ClickRecord; StopTask 1 (Blob.mk 10 "audio/webm")])
              st_ready in
  streams st = [0; 1]%nat /\ stream st = None /\ liveStreams st = [0%nat].
Proof. vm_compute. repeat split. Qed.

(** C7 fails on the source, in two ways.  After the double start the
    first stream is live and out of reach of the [stream] field, and stays
    so whatever happens next: its tracks are never stopped.  And the tracks
    of a stream can be stopped twice: a start between [stop()] and the
    recorder's stop task stops them and leaves the stream in the field;
    when the microphone is then refused, the [catch] block stops them
    again. *)
Theorem stream_release_not_exactly_once :
  (forall evs : list Event,
     let st := run evs (run double_start st_ready) in
     streams st !! 0%nat = Some 0%nat
     /\ stream st <> Some 0%nat
     /\ 0%nat ∈ liveStreams st)
  /\ (let st := run restart_refused st_ready in
      streams st = [2%nat] /\ stream st = None).
Proof.
  split; [|vm_compute; repeat split].
  intros evs st.
  destruct (kept_run 0%nat evs (run double_start st_ready)) as [Hl Hs];
    [vm_compute; reflexivity|vm_compute; discriminate|].
  fold st in Hl, Hs. split; [exact Hl|]. split; [exact Hs|].
  unfold liveStreams. apply list_elem_of_In, List.filter_In. split.
  - apply List.in_seq. apply lookup_lt_Some in Hl. lia.
  - by apply bool_decide_eq_true.
Qed.

End Recording.

(** * The timer read-out, the theme and the placeholders *)

Section Timer.

Lemma padStart_two_digits (k : nat) :
  (k < 100)%nat -> String.length (padStart 2 "0" (pretty (Z.of_nat k))) = 2%nat.
Proof.
  intros Hk.
  do 100 (destruct k as [|k]; [vm_compute; reflexivity|]). lia.
Qed.

Lemma padStart_two_digits_Z (n : Z) :
  0 <= n < 100 -> String.length (padStart 2 "0" (pretty n)) = 2%nat.
Proof.
  intros Hn. rewrite <- (Z2Nat.id n) by lia. apply padStart_two_digits. lia.
Qed.

Lemma timer_fields_bounds e :
  0 <= e ->
  0 <= timer_minutes e
  /\ 0 <= timer_seconds e < 60
  /\ 0 <= timer_hundredths e < 100
  /\ timer_minutes e * 60000 + timer_seconds e * 1000 + timer_hundredths e * 10 <= e
  /\ e < timer_minutes e * 60000 + timer_seconds e * 1000
         + timer_hundredths e * 10 + 10.
Proof.
  intros He. unfold timer_minutes, timer_seconds, timer_hundredths.
  assert (0 <= e `div` 1000) as Hq by (apply Z.div_pos; lia).
  rewrite (Z.rem_mod_nonneg (e `div` 1000) 60) by lia.
  rewrite (Z.rem_mod_nonneg e 1000) by lia.
  pose proof (Z.div_mod e 1000 ltac:(lia)) as H1.
  pose proof (Z.mod_pos_bound e 1000 ltac:(lia)) as B1.
  pose proof (Z.div_mod (e `div` 1000) 60 ltac:(lia)) as H2.
  pose proof (Z.mod_pos_bound (e `div` 1000) 60 ltac:(lia)) as B2.
  pose proof (Z.div_mod (e `mod` 1000) 10 ltac:(lia)) as H3.
  pose proof (Z.mod_pos_bound (e `mod` 1000) 10 ltac:(lia)) as B3.
  assert (0 <= (e `div` 1000) `div` 60) by (apply Z.div_pos; lia).
  assert (0 <= (e `mod` 1000) `div` 10) by (apply Z.div_pos; lia).
  lia.
Qed.

(** X1: while recording, the read-out shows the time since the start cut
    to hundredths of a second: seconds below 60, hundredths below 100, the
    three fields together at most 9 ms behind the elapsed time; below 100
    minutes the text has the shape mm:ss.hh, 8 characters. *)
Theorem timer_shows_elapsed_time st now start :
  isRecording st = true ->
  0 <= now - start ->
  let e := now - start in
  updateLiveTimer now start st = Some (timerText e)
  /\ 0 <= timer_minutes e
  /\ 0 <= timer_seconds e < 60
  /\ 0 <= timer_hundredths e < 100
  /\ timer_minutes e * 60000 + timer_seconds e * 1000 + timer_hundredths e * 10 <= e
  /\ e < timer_minutes e * 60000 + timer_seconds e * 1000
         + timer_hundredths e * 10 + 10
  /\ (e < 6000000 -> String.length (timerText e) = 8%nat).
Proof.
  intros Hrec He e.
  destruct (timer_fields_bounds e He) as (Hm & Hs & Hh & Hlo & Hhi).
  split; [unfold updateLiveTimer; by rewrite Hrec|].
  repeat (split; [lia|]).
  intros Hlt. unfold timerText. rewrite !append_length.
  rewrite !padStart_two_digits_Z by lia. reflexivity.
Qed.

Lemma timer_shows_elapsed_time_witness :
  let st := run [ClickRecord; Resume 0 granted] st_ready in
  updateLiveTimer 83456 1000 st = Some "01:22.45".
Proof.
  intros st.
  assert (0 <= 83456 - 1000) as H by lia.
  destruct (timer_shows_elapsed_time st 83456 1000 eq_refl H) as (Ht & _).
  exact Ht.
Defined.

End Timer.

Section ThemeAndPlaceholders.

Lemma eqb_string_decide (x y : string) : String.eqb x y = bool_decide (x = y).
Proof.
  destruct (String.eqb_spec x y) as [->|Hne].
  - by rewrite bool_decide_eq_true_2.
  - by rewrite bool_decide_eq_false_2.
Qed.

Lemma existsb_eqb_elem (x : string) l : existsb (String.eqb x) l = bool_decide (x ∈ l).
Proof.
  induction l as [|y l IH]; cbn [existsb].
  - symmetry. apply bool_decide_eq_false_2, not_elem_of_nil.
  - rewrite IH, eqb_string_decide. apply eq_true_iff_eq.
    by rewrite orb_true_iff, !bool_decide_eq_true, elem_of_cons.
Qed.

Lemma filter_others old new (l : list string) :
  old ∉ l -> new ∉ l ->
  List.filter (fun y => negb (String.eqb y old || String.eqb y new)) l = l.
Proof.
  induction l as [|x l IH]; intros Ho Hn; simpl; [done|].
  apply not_elem_of_cons in Ho as [Ho1 Ho2].
  apply not_elem_of_cons in Hn as [Hn1 Hn2].
  rewrite !eqb_string_decide.
  rewrite !bool_decide_eq_false_2 by congruence. simpl. by rewrite IH.
Qed.

Lemma elem_filter_others old new (l : list string) x :
  x ∈ List.filter (fun y => negb (String.eqb y old || String.eqb y new)) l
  <-> x ∈ l /\ x <> old /\ x <> new.
Proof.
  rewrite list_elem_of_In, List.filter_In, <- list_elem_of_In.
  rewrite negb_true_iff, orb_false_iff, !eqb_string_decide.
  rewrite !bool_decide_eq_false. done.
Qed.

Lemma elem_set_replace old new l x :
  x ∈ set_replace old new l <->
  (x = new /\ (old ∈ l \/ new ∈ l)) \/ (x ∈ l /\ x <> old /\ x <> new).
Proof.
  induction l as [|y l IH]; simpl.
  - rewrite !elem_of_nil. naive_solver.
  - rewrite !eqb_string_decide.
    destruct (decide (y = old)) as [->|Ho]; [|destruct (decide (y = new)) as [->|Hn]].
    + rewrite bool_decide_eq_true_2 by done. simpl.
      rewrite elem_of_cons, elem_filter_others, !elem_of_cons. naive_solver.
    + rewrite (bool_decide_eq_true_2 (new = new)) by done. rewrite orb_true_r.
      rewrite elem_of_cons, elem_filter_others, !elem_of_cons. naive_solver.
    + rewrite !bool_decide_eq_false_2 by done. simpl.
      rewrite elem_of_cons, IH, !elem_of_cons. naive_solver.
Qed.

Lemma elem_classList_replace old new l x :
  x ∈ classList_replace old new l <->
  (old ∈ l /\ (x = new \/ (x ∈ l /\ x <> old)))
  \/ ((old ∉ l) /\ x ∈ l).
Proof.
  unfold classList_replace. rewrite existsb_eqb_elem.
  destruct (decide (old ∈ l)) as [Hin|Hout].
  - rewrite bool_decide_eq_true_2 by done. rewrite elem_set_replace.
    destruct (decide (x = new)); naive_solver.
  - rewrite bool_decide_eq_false_2 by done. naive_solver.
Qed.

Lemma set_replace_back old new l :
  NoDup l -> new ∉ l -> old <> new ->
  set_replace new old (set_replace old new l) = l.
Proof.
  intros Hnd Hnew Hne. induction Hnd as [|x l Hx Hnd IH]; simpl; [done|].
  apply not_elem_of_cons in Hnew as [Hn1 Hn2].
  rewrite !eqb_string_decide.
  destruct (decide (x = old)) as [->|Ho].
  - rewrite bool_decide_eq_true_2 by done. simpl.
    rewrite !eqb_string_decide, (bool_decide_eq_true_2 (new = new)) by done. simpl.
    rewrite (filter_others old new l) by done.
    f_equal. assert (List.filter
      (fun y => negb (String.eqb y new || String.eqb y old)) l = l) as ->; [|done].
    by apply filter_others.
  - rewrite !bool_decide_eq_false_2 by done. simpl.
    rewrite !eqb_string_decide, !bool_decide_eq_false_2 by congruence. simpl.
    by rewrite IH.
Qed.

Lemma classList_replace_back old new l :
  NoDup l -> new ∉ l -> old <> new ->
  classList_replace new old (classList_replace old new l) = l.
Proof.
  intros Hnd Hnew Hne. unfold classList_replace at 2.
  rewrite existsb_eqb_elem. destruct (decide (old ∈ l)) as [Hin|Hout].
  - rewrite bool_decide_eq_true_2 by done. unfold classList_replace.
    rewrite existsb_eqb_elem, bool_decide_eq_true_2.
    + by apply set_replace_back.
    + apply elem_set_replace. left. auto.
  - rewrite bool_decide_eq_false_2 by done. unfold classList_replace.
    by rewrite existsb_eqb_elem, bool_decide_eq_false_2.
Qed.

(** X2: the icon follows the mode.  [initTheme] puts the moon on the icon
    in light mode and the sun otherwise, whenever the icon has one of the
    two; [toggleTheme] keeps it so, flips the mode and stores the name of
    the new mode; toggling twice gives back the mode and the classes of the
    icon. *)
Theorem theme_icon_follows_mode :
  (forall t, "fa-sun" ∈ icon_classes t \/ "fa-moon" ∈ icon_classes t ->
     icon_matches (initTheme t)
     /\ (light_mode (initTheme t) = true <-> theme_item t = Some "light"))
  /\ (forall t, icon_matches t ->
        icon_matches (toggleTheme t)
        /\ light_mode (toggleTheme t) = negb (light_mode t)
        /\ theme_item (toggleTheme t)
           = Some (if light_mode (toggleTheme t) then "light" else "dark"))
  /\ (forall t, icon_matches t -> NoDup (icon_classes t) ->
        light_mode (toggleTheme (toggleTheme t)) = light_mode t
        /\ icon_classes (toggleTheme (toggleTheme t)) = icon_classes t).
Proof.
  assert ("fa-sun" <> "fa-moon") as Hne by discriminate.
  split; [|split].
  - intros t Hicon. unfold initTheme, icon_matches.
    destruct (decide (theme_item t = Some "light")) as [E|E].
    + rewrite bool_decide_eq_true_2 by done. simpl.
      rewrite !elem_classList_replace. split; [|done].
      destruct (decide ("fa-sun" ∈ icon_classes t)); naive_solver.
    + rewrite bool_decide_eq_false_2 by done. simpl.
      rewrite !elem_classList_replace. split; [|done].
      destruct (decide ("fa-moon" ∈ icon_classes t)); naive_solver.
  - intros t Hm. unfold toggleTheme, icon_matches in *.
    destruct (light_mode t); simpl in *; rewrite !elem_classList_replace;
      naive_solver.
  - intros t Hm Hnd. unfold icon_matches in Hm. unfold toggleTheme.
    destruct (light_mode t); simpl in *; destruct Hm as [Hin Hout].
    + split; [done|]. by apply classList_replace_back.
    + split; [done|]. by apply classList_replace_back.
Qed.

Lemma theme_icon_follows_mode_witness :
  let t := {| light_mode := false; icon_classes := ["fas"; "fa-sun"];
              theme_item := None |} in
  icon_classes (toggleTheme (toggleTheme t)) = ["fas"; "fa-sun"]
  /\ theme_item (toggleTheme t) = Some "light".
Proof.
  intros t.
  assert (icon_matches t) as Hm.
  { split; compute_done. }
  assert (NoDup (icon_classes t)) as Hnd by compute_done.
  destruct theme_icon_follows_mode as (_ & H2 & H3).
  split.
  - exact (proj2 (H3 t Hm Hnd)).
  - exact (proj2 (proj2 (H2 t Hm))).
Defined.

(** X3: the stored theme survives a reload: whatever the page starts
    with, [initTheme] on the item written by [toggleTheme] gives the mode
    [toggleTheme] had set. *)
Theorem theme_survives_reload t light0 icon0 :
  light_mode (initTheme {| light_mode := light0; icon_classes := icon0;
                           theme_item := theme_item (toggleTheme t) |})
  = light_mode (toggleTheme t).
Proof. unfold initTheme, toggleTheme. by destruct (light_mode t). Qed.

(** X4: with a trimmed placeholder, [updatePlaceholderState] is
    idempotent, marks the element exactly when its trimmed text is empty
    or the placeholder, and undoes a [focus] on an element that showed the
    placeholder; after [focus] the element never shows the placeholder as
    marked text. *)
Theorem placeholder_focus_blur placeholder el :
  trim placeholder = placeholder ->
  let shown := updatePlaceholderState placeholder el in
  updatePlaceholderState placeholder shown = shown
  /\ (el_placeholder_active shown = true <->
      trim (el_text el) = "" \/ trim (el_text el) = placeholder)
  /\ (el_placeholder_active shown = true -> trim (el_text shown) = placeholder)
  /\ (el_placeholder_active shown = true ->
      onfocus placeholder shown = {| el_text := ""; el_placeholder_active := false |}
      /\ updatePlaceholderState placeholder (onfocus placeholder shown)
         = {| el_text := placeholder; el_placeholder_active := true |}).
Proof.
  intros Hp. unfold updatePlaceholderState, onfocus.
  set (T := trim (el_text el)).
  assert (forall x y : string, x = y -> String.eqb x y = true) as Heq
    by (intros x y; apply String.eqb_eq).
  assert (forall x y : string, x <> y -> String.eqb x y = false) as Hneq
    by (intros x y; apply String.eqb_neq).
  destruct (decide (T = "")) as [E1|E1];
    destruct (decide (T = placeholder)) as [E2|E2];
    rewrite ?(Heq _ _ E1), ?(Heq _ _ E2), ?(Hneq _ _ E1), ?(Hneq _ _ E2);
    cbn [orb el_text el_placeholder_active];
    rewrite ?Hp, ?String.eqb_refl, ?orb_true_r;
    cbn [orb el_text el_placeholder_active].
  - assert (placeholder = "") as -> by congruence.
    cbn. repeat split; auto.
  - assert (String.eqb placeholder "" = false) as Hph
      by (apply Hneq; congruence).
    rewrite ?Hph. cbn [orb el_text el_placeholder_active trim trimStart trimEnd].
    rewrite ?String.eqb_refl. repeat split; auto.
  - fold T. rewrite ?(Heq _ _ E2), ?(Hneq _ _ E1).
    cbn [orb el_text el_placeholder_active trim trimStart trimEnd].
    rewrite ?String.eqb_refl.
    assert (String.eqb placeholder "" = false) as Hph
      by (apply Hneq; congruence).
    rewrite ?Hph. repeat split; auto.
  - fold T. rewrite ?(Hneq _ _ E2), ?(Hneq _ _ E1).
    cbn [orb]. repeat split; try done. intros [?|?]; done.
Qed.

Lemma placeholder_focus_blur_witness :
  let el := {| el_text := "   "; el_placeholder_active := false |} in
  updatePlaceholderState "Untitled Note" el
    = {| el_text := "Untitled Note"; el_placeholder_active := true |}
  /\ onfocus "Untitled Note" (updatePlaceholderState "Untitled Note" el)
     = {| el_text := ""; el_placeholder_active := false |}.
Proof.
  intros el.
  destruct (placeholder_focus_blur "Untitled Note" el eq_refl)
    as (_ & _ & _ & H).
  split; [reflexivity|]. exact (proj1 (H eq_refl)).
Defined.

End ThemeAndPlaceholders.

(** * References, objects and the list *)

Section References.

Lemma createNewNote_store now1 now2 st :
  heap (createNewNote now1 now2 st) = (heap st ++ [draft now1 now2])%list
  /\ notes (createNewNote now1 now2 st) = notes st
  /\ currentNote (createNewNote now1 now2 st) = Some (length (heap st))
  /\ voiceNotes (createNewNote now1 now2 st) = voiceNotes st.
Proof.
  unfold createNewNote. unfold_methods. repeat case_match; repeat split.
Qed.

Lemma deleteNote_unfold noteId now1 now2 st :
  let st1 := st |> set_notes
                     (List.filter (fun r => negb (hasId st noteId r)) (notes st))
                |> saveNotesToLocalStorage in
  deleteNote noteId now1 now2 st
  = if isCurrentId st noteId then createNewNote now1 now2 st1 else st1.
Proof.
  unfold deleteNote, isCurrentId, saveNotesToLocalStorage. simpl_state.
  destruct (currentNote st) as [cur|]; [|done].
  unfold hasId. simpl_state. done.
Qed.

Lemma handleFileUpload_accept file files now1 now2 st :
  (50 * 1024 * 1024 <? File.size file)%N = false ->
  handleFileUpload (file :: files) now1 now2 st
  = (st |> createNewNote now1 now2
        |> set_recordingStatus
             ("Processing " +:+ quote +:+ File.name file +:+ quote +:+ "...")
        |> processAudio FromUpload (File.blob file)).
Proof. intros H. unfold handleFileUpload. rewrite H. reflexivity. Qed.

Lemma handleFileUpload_reject file files now1 now2 st :
  (50 * 1024 * 1024 <? File.size file)%N = true ->
  handleFileUpload (file :: files) now1 now2 st
  = (st |> set_recordingStatus "File is too large (max 50MB)."
        |> set_audioUpload_value "").
Proof.
  intros H. unfold handleFileUpload. rewrite H.
  replace ("File is too large (max " +:+ pretty 50%N +:+ "MB).")
    with "File is too large (max 50MB)." by (vm_compute; reflexivity).
  reflexivity.
Qed.

Lemma heap_handleFileUpload_accept file files now1 now2 st :
  (50 * 1024 * 1024 <? File.size file)%N = false ->
  same_store (createNewNote now1 now2 st)
             (handleFileUpload (file :: files) now1 now2 st).
Proof.
  intros H. rewrite handleFileUpload_accept by done.
  eapply same_store_trans; [|apply same_store_processAudio].
  apply same_store_set_recordingStatus.
Qed.

(** What an event does to the current note: it stays, or it becomes the
    draft just made, or a note of the list. *)
Lemma currentNote_step ev st :
  currentNote (step ev st) = currentNote st
  \/ (currentNote (step ev st) = Some (length (heap st))
      /\ exists d, heap (step ev st) = (heap st ++ [d])%list)
  \/ (exists r, currentNote (step ev st) = Some r
        /\ is_Some (heap st !! r) /\ heap (step ev st) = heap st).
Proof.
  destruct ev; cbn [step].
  - left. unfold_methods. unfold toggleRecording. repeat case_match; reflexivity.
  - right. left. destruct (createNewNote_store now1 now2 st) as (Hh & _ & C & _).
    split; [exact C|]. eexists; exact Hh.
  - unfold handleFileUpload. destruct files as [|file files]; [by left|].
    case_match; [by left|]. right. left.
    destruct (createNewNote_store now1 now2 (set_audioUpload_value value st))
      as (Hh & _ & C & _).
    set (stN := createNewNote now1 now2 (set_audioUpload_value value st)) in *.
    clearbody stN. simpl_state_in C. simpl_state_in Hh.
    unfold_methods. repeat case_match; simpl_state;
      (split; [exact C|eexists; exact Hh]).
  - unfold clearAllNotes. destruct confirmed; [|by left]. right. left.
    destruct (createNewNote_store now1 now2
                (saveNotesToLocalStorage (set_notes [] st))) as (Hh & _ & C & _).
    split; [exact C|eexists; exact Hh].
  - unfold deleteNote.
    set (st1 := saveNotesToLocalStorage _).
    destruct (currentNote st1) as [cur|] eqn:E; [|by left].
    case_match; [|by left]. right. left.
    destruct (createNewNote_store now1 now2 st1) as (Hh & _ & C & _).
    split; [exact C|eexists; exact Hh].
  - unfold displayNoteById. destruct (List.find _ _) as [r|]; [|by left].
    destruct (heap st !! r) as [note|] eqn:E; [|by left].
    right. right. exists r. rewrite E.
    split; [reflexivity|]. split; [by eexists|reflexivity].
  - by left.
  - by left.
  - left. destruct (pending st !! k) as [c|]; [|done].
    destruct c, o; cbn [resume]; try reflexivity;
      unfold_note_methods; unfold_methods; repeat case_match; reflexivity.
  - left. destruct (recorders st !! r) as [rc|]; [|done].
    case_match; [|done]. unfold_methods. repeat case_match; reflexivity.
Qed.

Lemma refs_ok_step ev st : refs_ok st -> refs_ok (step ev st).
Proof.
  intros [Hl (cur & Hc & Hv)].
  destruct (grows_step ev st) as [Hle Hn]. split.
  - intros r Hr. destruct (Hn r Hr) as [Hold|(n & Hs & _)]; [|by eexists].
    destruct (Hl r Hold) as [n Hn0].
    destruct (Hle r n Hn0) as (n' & Hn' & _). by eexists.
  - destruct (currentNote_step ev st) as [E|[[E (d & Hd)]|(r & E & Hr & Hh)]].
    + exists cur. split; [congruence|]. destruct Hv as [n Hn0].
      destruct (Hle cur n Hn0) as (n' & Hn' & _). by eexists.
    + exists (length (heap st)). split; [done|]. rewrite Hd.
      rewrite lookup_app_r, Nat.sub_diag by lia. by eexists.
    + exists r. split; [done|]. by rewrite Hh.
Qed.

Lemma constructor_store ph saved now1 now2 :
  let l := default [] saved in
  heap (constructor ph saved now1 now2) = (l ++ [draft now1 now2])%list
  /\ notes (constructor ph saved now1 now2) = seq 0 (length l)
  /\ currentNote (constructor ph saved now1 now2) = Some (length l).
Proof.
  intros l. unfold constructor.
  set (st0 := loadNotesFromLocalStorage _).
  assert (heap st0 = l /\ notes st0 = seq 0 (length l)) as [Hh0 Hn0]
    by (by destruct saved).
  destruct (createNewNote_store now1 now2 st0) as (Hh & Hn & Hc & _).
  set (stN := createNewNote now1 now2 st0) in *. clearbody stN.
  rewrite Hh0 in Hh, Hc. rewrite Hn0 in Hn. clearbody st0.
  simpl_state. done.
Qed.

Lemma refs_ok_constructor ph saved now1 now2 :
  refs_ok (constructor ph saved now1 now2).
Proof.
  destruct (constructor_store ph saved now1 now2) as (Hh & Hn & Hc).
  set (st := constructor ph saved now1 now2) in *. clearbody st.
  split.
  - rewrite Hn, Hh. intros r (i & [-> Hi]%lookup_seq)%list_elem_of_lookup_1.
    apply lookup_lt_is_Some. rewrite length_app. cbn [Nat.add]. lia.
  - eexists. split; [exact Hc|]. rewrite Hh.
    rewrite lookup_app_r, Nat.sub_diag by lia. by eexists.
Qed.

Lemma refs_ok_run evs st : refs_ok st -> refs_ok (run evs st).
Proof.
  revert st. induction evs as [|ev evs IH]; intros st H; [done|].
  cbn [run foldl]. apply IH. by apply refs_ok_step.
Qed.

(** X5: after the constructor and any sequence of events, the current note
    is never [null] and is an existing object, and so is every entry of the
    list: the guards [if (this.currentNote)] never fail. *)
Theorem current_note_always_there ph saved now1 now2 evs :
  let st := run evs (constructor ph saved now1 now2) in
  (exists cur note, currentNote st = Some cur /\ heap st !! cur = Some note)
  /\ (forall r, r ∈ notes st -> exists note, heap st !! r = Some note).
Proof.
  intros st.
  assert (refs_ok st) as [Hl (cur & Hc & [note Hn])]
    by apply refs_ok_run, refs_ok_constructor.
  split; [by exists cur, note|]. intros r Hr. by destruct (Hl r Hr) as [n ?]; exists n.
Qed.

Lemma current_note_always_there_witness :
  let evs := (record_and_transcribe 0 "memo"
              ++ [Resume 0 (OGenerate (Resolved (Some "# Memo")))])%list in
  exists note,
    heap (run evs (constructor no_placeholders None 7 7)) !! 0%nat = Some note.
Proof.
  intros evs.
  assert (0%nat ∈ notes (run evs (constructor no_placeholders None 7 7))) as H
    by (vm_compute; by left).
  exact (proj2 (current_note_always_there no_placeholders None 7 7 evs) 0%nat H).
Defined.

End References.

Section Objects.

Lemma heap_saveOrUpdateCurrentNote st :
  heap (saveOrUpdateCurrentNote st) =
    match currentNote st with
    | Some cur => alter (Note.set_title (savedTitle st)) cur (heap st)
    | None => heap st
    end
  /\ currentNote (saveOrUpdateCurrentNote st) = currentNote st.
Proof.
  unfold saveOrUpdateCurrentNote, saveNotesToLocalStorage.
  rewrite orElse_Some. fold (savedTitle st).
  repeat case_match; simpl_state; done.
Qed.

Lemma getTranscription_resume_text caller text st :
  truthy text = true ->
  getTranscription_resume caller (Resolved (Some text)) st
  = (st |> write_transcription text
        |> set_recordingStatus "Transcription complete. Polishing note..."
        |> getPolishedNote caller).
Proof.
  intros Ht. unfold getTranscription_resume.
  assert (orElse (Some text) "" = text) as -> by by rewrite orElse_Some, Ht.
  rewrite Ht. reflexivity.
Qed.

Lemma getPolishedNote_resume_text caller text st :
  truthy text = true ->
  getPolishedNote_resume caller (Resolved (Some text)) st
  = (st |> write_polished text
        |> saveOrUpdateCurrentNote
        |> set_recordingStatus "Note polished. Ready for next recording."
        |> settle caller).
Proof.
  intros Ht. unfold getPolishedNote_resume.
  assert (orElse (Some text) "" = text) as -> by by rewrite orElse_Some, Ht.
  rewrite Ht. reflexivity.
Qed.

Lemma response_cases (response : Settled (option string)) :
  failed_or_empty response
  \/ exists text, response = Resolved (Some text) /\ truthy text = true.
Proof.
  destruct response as [[text|]|e]; [|by left|by left].
  destruct (truthy text) eqn:E; [right; by exists text|left].
  simpl. by rewrite E.
Qed.

Lemma getTranscription_resume_failed caller response st :
  failed_or_empty response ->
  same_store st (getTranscription_resume caller response st).
Proof.
  intros Hf. unfold getTranscription_resume.
  destruct response as [text|e]; simpl in Hf; rewrite ?Hf; same_store_tac.
Qed.

Lemma getPolishedNote_resume_failed caller response st :
  failed_or_empty response ->
  same_store st (getPolishedNote_resume caller response st).
Proof.
  intros Hf. unfold getPolishedNote_resume.
  destruct response as [text|e]; simpl in Hf; rewrite ?Hf; same_store_tac.
Qed.

Lemma heap_getTranscription_resume caller response st :
  heap (getTranscription_resume caller response st) = heap st
  \/ (exists cur t, currentNote st = Some cur
        /\ heap (getTranscription_resume caller response st)
           = alter (Note.set_rawTranscription t) cur (heap st)).
Proof.
  destruct (response_cases response) as [Hf|(text & -> & Ht)].
  - left. by apply getTranscription_resume_failed.
  - rewrite getTranscription_resume_text by done.
    destruct (same_store_getPolishedNote caller
      (set_recordingStatus "Transcription complete. Polishing note..."
         (write_transcription text st))) as [-> _].
    unfold write_transcription. simpl_state.
    destruct (currentNote st) as [cur|] eqn:E; simpl_state.
    + right. by exists cur, text.
    + by left.
Qed.

Lemma heap_getPolishedNote_resume caller response st :
  heap (getPolishedNote_resume caller response st) = heap st
  \/ (exists cur t title, currentNote st = Some cur
        /\ heap (getPolishedNote_resume caller response st)
           = alter (Note.set_title title ∘ Note.set_polishedNote t) cur (heap st)).
Proof.
  destruct (response_cases response) as [Hf|(text & -> & Ht)].
  - left. by apply getPolishedNote_resume_failed.
  - rewrite getPolishedNote_resume_text by done.
    destruct (same_store_settle caller
      (set_recordingStatus "Note polished. Ready for next recording."
         (saveOrUpdateCurrentNote (write_polished text st)))) as [-> _].
    simpl_state.
    destruct (heap_saveOrUpdateCurrentNote (write_polished text st)) as [-> _].
    unfold write_polished. simpl_state.
    destruct (currentNote st) as [cur|] eqn:E; simpl_state.
    + right. exists cur, text. eexists. split; [done|].
      rewrite E. apply list_alter_alter_eq.
    + rewrite E. by left.
Qed.

(** What an event does to the objects: nothing, or one new object, or a
    write into the current note that keeps its id and its timestamp. *)
Lemma heap_step ev st :
  heap (step ev st) = heap st
  \/ (exists d, heap (step ev st) = (heap st ++ [d])%list)
  \/ (exists cur f, currentNote st = Some cur
        /\ heap (step ev st) = alter f cur (heap st)
        /\ forall n, Note.id (f n) = Note.id n
                     /\ Note.timestamp (f n) = Note.timestamp n).
Proof.
  destruct ev; cbn [step].
  - left. apply same_store_toggleRecording.
  - right. left. eexists. exact (proj1 (createNewNote_store now1 now2 st)).
  - destruct files as [|file files]; [by left|].
    destruct (50 * 1024 * 1024 <? File.size file)%N eqn:E.
    + left. rewrite handleFileUpload_reject by done. reflexivity.
    + right. left. exists (draft now1 now2).
      destruct (heap_handleFileUpload_accept file files now1 now2
                  (set_audioUpload_value value st) E) as [-> _].
      exact (proj1 (createNewNote_store now1 now2
                      (set_audioUpload_value value st))).
  - unfold clearAllNotes. destruct confirmed; [|by left]. right. left.
    exists (draft now1 now2).
    destruct (createNewNote_store now1 now2
                (saveNotesToLocalStorage (set_notes [] st))) as (Hh & _).
    set (stN := createNewNote now1 now2 _) in *. clearbody stN.
    unfold saveNotesToLocalStorage in Hh. simpl_state_in Hh. exact Hh.
  - rewrite deleteNote_unfold. case_match; [|by left]. right. left.
    exists (draft now1 now2).
    destruct (createNewNote_store now1 now2
      (saveNotesToLocalStorage
         (set_notes (List.filter (fun r => negb (hasId st noteId r)) (notes st))
            st))) as (Hh & _).
    set (stN := createNewNote now1 now2 _) in *. clearbody stN.
    unfold saveNotesToLocalStorage in Hh. simpl_state_in Hh. exact Hh.
  - left. apply same_store_displayNoteById.
  - by left.
  - by left.
  - destruct (pending st !! k) as [c|]; [|by left].
    destruct c, o; cbn [resume]; try (by left).
    + left. apply (same_store_startRecording_closed r
                     (set_pending (delete k (pending st)) st)).
    + left. apply (same_store_startRecording_userMedia fallback r env
                     (set_pending (delete k (pending st)) st)).
    + left. apply (same_store_processAudio_resume audioBlob caller r
                     (set_pending (delete k (pending st)) st)).
    + destruct (heap_getTranscription_resume caller r
                  (set_pending (delete k (pending st)) st))
        as [H|(cur & t & Hc & H)]; [by left|].
      right. right. exists cur, (Note.set_rawTranscription t). by repeat split.
    + destruct (heap_getPolishedNote_resume caller r
                  (set_pending (delete k (pending st)) st))
        as [H|(cur & t & title & Hc & H)]; [by left|].
      right. right. exists cur, (Note.set_title title ∘ Note.set_polishedNote t).
      by repeat split.
  - left. destruct (recorders st !! r) as [rc|]; [|done].
    case_match; [|done].
    destruct (same_store_onstop
      (ondataavailable data
         (set_recorders
            (<[r := {| rec_stream := rec_stream rc;
                       rec_mimeType := rec_mimeType rc;
                       rec_state := Stopped |}]> (recorders st)) st))) as [-> _].
    by destruct (same_store_ondataavailable data
      (set_recorders
         (<[r := {| rec_stream := rec_stream rc;
                    rec_mimeType := rec_mimeType rc;
                    rec_state := Stopped |}]> (recorders st)) st)) as [-> _].
Qed.

(** X6: an event writes at most into the note that is current when the
    event starts; every other object keeps all its fields, and no object
    ever changes its id or its timestamp.  A response that arrives after
    the user has moved to another note therefore lands in that other
    note. *)
Theorem only_current_note_written ev st r note :
  heap st !! r = Some note ->
  (exists note', heap (step ev st) !! r = Some note'
     /\ Note.id note' = Note.id note
     /\ Note.timestamp note' = Note.timestamp note)
  /\ (currentNote st <> Some r -> heap (step ev st) !! r = Some note).
Proof.
  intros Hr.
  destruct (heap_step ev st) as [->|[(d & ->)|(cur & f & Hc & -> & Hf)]].
  - split; [by exists note|done].
  - rewrite (lookup_app_l_Some _ _ _ _ Hr). split; [by exists note|done].
  - rewrite list_lookup_alter. destruct (decide (cur = r)) as [->|Hne].
    + rewrite Hr. simpl. split; [|congruence].
      exists (f note). split; [done|]. apply Hf.
    + rewrite Hr. split; [by exists note|done].
Qed.

Lemma only_current_note_written_witness :
  let st := run (record_and_transcribe 0 "memo"
                 ++ [Resume 0 (OGenerate (Resolved (Some "# Memo")));
                     ClickNew 8 8; ClickRecord; Resume 0 granted; ClickRecord;
                     StopTask 1 (Blob.mk 10 "audio/webm");
                     Resume 0 (ORead (Resolved "data:audio/webm;base64,AAAA"))])
              st_ready in
  heap (step (Resume 0 (OGenerate (Resolved (Some "second")))) st) !! 0%nat
  = Some (Note.mk "note_7" "Memo" "memo" "# Memo" 7).
Proof.
  intros st.
  assert (heap st !! 0%nat = Some (Note.mk "note_7" "Memo" "memo" "# Memo" 7))
    as H by (vm_compute; reflexivity).
  refine (proj2 (only_current_note_written _ st 0%nat _ H) _).
  vm_compute. discriminate.
Defined.

End Objects.

(** * Deleting, reloading and selecting notes *)

Section NoteList.

Lemma omap_lookup_app (h k : list Note.t) (l : list nat) :
  (forall r, r ∈ l -> is_Some (h !! r)) ->
  omap (fun r => (h ++ k)%list !! r) l = omap (fun r => h !! r) l.
Proof.
  induction l as [|r l IH]; intros Hv; [done|]. cbn [omap list_omap].
  destruct (Hv r) as [n Hn]; [by left|].
  rewrite (lookup_app_l_Some _ _ _ _ Hn), Hn.
  f_equal. apply IH. intros r' Hr'. apply Hv. by right.
Qed.

Lemma listed_createNewNote now1 now2 st :
  (forall r, r ∈ notes st -> is_Some (heap st !! r)) ->
  listed (createNewNote now1 now2 st) = listed st.
Proof.
  intros Hv. unfold listed.
  destruct (createNewNote_store now1 now2 st) as (-> & -> & _).
  by apply omap_lookup_app.
Qed.

Lemma omap_filter_id (h : list Note.t) (noteId : string) (l : list nat) :
  omap (fun r => h !! r)
    (List.filter
       (fun r => negb (match h !! r with
                       | Some n => String.eqb (Note.id n) noteId
                       | None => false
                       end)) l)
  = List.filter (fun n => negb (String.eqb (Note.id n) noteId))
      (omap (fun r => h !! r) l).
Proof.
  induction l as [|r l IH]; [done|]. cbn [List.filter omap list_omap].
  destruct (h !! r) as [n|] eqn:E.
  - destruct (String.eqb (Note.id n) noteId) eqn:Ei; cbn [negb].
    + rewrite IH. cbn [List.filter]. by rewrite Ei.
    + cbn [omap list_omap]. rewrite E, IH. cbn [List.filter]. by rewrite Ei.
  - cbn [negb omap list_omap]. rewrite E. apply IH.
Qed.

Lemma elem_filter_id noteId (l : list Note.t) n :
  n ∈ List.filter (fun n => negb (String.eqb (Note.id n) noteId)) l ->
  Note.id n <> noteId.
Proof.
  intros [_ H]%list_elem_of_In%List.filter_In.
  apply negb_true_iff, String.eqb_neq in H. done.
Qed.

Lemma renderSidebar_listed st :
  renderSidebar st = renderItem st <$> listed st.
Proof.
  unfold renderSidebar, listed. induction (notes st) as [|r l IH]; [done|].
  cbn [omap list_omap]. destruct (heap st !! r); cbn; by rewrite IH.
Qed.

Lemma listed_deleteNote st noteId now1 now2 :
  (forall r, r ∈ notes st -> is_Some (heap st !! r)) ->
  listed (deleteNote noteId now1 now2 st)
  = List.filter (fun n => negb (String.eqb (Note.id n) noteId)) (listed st)
  /\ voiceNotes (deleteNote noteId now1 now2 st)
     = Some (listed (deleteNote noteId now1 now2 st)).
Proof.
  intros Hv. rewrite deleteNote_unfold. cbv zeta.
  set (st1 := saveNotesToLocalStorage _).
  assert (listed st1
          = List.filter (fun n => negb (String.eqb (Note.id n) noteId)) (listed st))
    as Hl1 by apply omap_filter_id.
  assert (voiceNotes st1 = Some (listed st1)) as Hs1 by reflexivity.
  assert (forall r, r ∈ notes st1 -> is_Some (heap st1 !! r)) as Hv1.
  { intros r [Hr _]%list_elem_of_In%List.filter_In.
    apply Hv. by apply list_elem_of_In. }
  clearbody st1.
  destruct (isCurrentId st noteId); [|done].
  rewrite (listed_createNewNote now1 now2 st1 Hv1).
  destruct (createNewNote_store now1 now2 st1) as (_ & _ & _ & ->). done.
Qed.

(** X7: deleting by id takes every note with that id out of the list and
    keeps the others in their order; the stored item is the new list and no
    item of the sidebar has the id any more.  When the current note had the
    id, a new empty draft becomes current; otherwise the current note and
    all objects stay. *)
Theorem delete_removes_by_id st noteId now1 now2 :
  (forall r, r ∈ notes st -> is_Some (heap st !! r)) ->
  let st' := step (ClickDelete noteId now1 now2) st in
  listed st'
  = List.filter (fun n => negb (String.eqb (Note.id n) noteId)) (listed st)
  /\ voiceNotes st' = Some (listed st')
  /\ (forall item, item ∈ renderSidebar st' -> item_noteId item <> noteId)
  /\ (isCurrentId st noteId = true ->
      currentNote st' = Some (length (heap st))
      /\ heap st' !! length (heap st) = Some (draft now1 now2)
      /\ length (heap st) ∉ notes st')
  /\ (isCurrentId st noteId = false ->
      currentNote st' = currentNote st /\ heap st' = heap st).
Proof.
  intros Hv st'. unfold st'. cbn [step].
  destruct (listed_deleteNote st noteId now1 now2 Hv) as [Hl Hs].
  split; [exact Hl|]. split; [exact Hs|]. split.
  { intros item. rewrite renderSidebar_listed, Hl.
    intros (n & -> & Hn')%list_elem_of_fmap_1. by eapply elem_filter_id. }
  clear Hl Hs. rewrite deleteNote_unfold. cbv zeta.
  set (st1 := saveNotesToLocalStorage _).
  assert (heap st1 = heap st) as Hh1 by reflexivity.
  assert (currentNote st1 = currentNote st) as Hc1 by reflexivity.
  assert (forall r, r ∈ notes st1 -> is_Some (heap st !! r)) as Hv1.
  { intros r [Hr _]%list_elem_of_In%List.filter_In.
    apply Hv. by apply list_elem_of_In. }
  clearbody st1.
  destruct (createNewNote_store now1 now2 st1) as (Hh & Hn & Hc & _).
  rewrite Hh1 in Hh, Hc.
  destruct (isCurrentId st noteId).
  - split; [|done]. intros _. split; [exact Hc|]. split.
    + by rewrite Hh, lookup_app_r, Nat.sub_diag by lia.
    + rewrite Hn. intros Hin. destruct (Hv1 _ Hin) as [n Hn'].
      apply lookup_lt_Some in Hn'. lia.
  - split; [done|]. intros _. by split.
Qed.

Lemma delete_removes_by_id_witness :
  let st' := step (ClickDelete "note_2" 9 9) st_second_open in
  listed st' = [note_a]
  /\ currentNote st' = Some 3%nat.
Proof.
  intros st'.
  assert (forall r, r ∈ notes st_second_open ->
            is_Some (heap st_second_open !! r)) as Hv.
  { intros r Hr. change (r ∈ [0; 1]%nat) in Hr.
    apply elem_of_cons in Hr as [->|Hr]; [by eexists|].
    apply elem_of_cons in Hr as [->|Hr]; [by eexists|].
    by apply elem_of_nil in Hr. }
  destruct (delete_removes_by_id st_second_open "note_2" 9 9 Hv)
    as (Hl & _ & _ & Hc & _).
  split; [exact Hl|]. exact (proj1 (Hc eq_refl)).
Defined.

Lemma omap_lookup_seq (l : list Note.t) :
  omap (fun r => l !! r) (seq 0 (length l)) = l.
Proof.
  induction l as [|n l IH] using rev_ind; [done|].
  rewrite length_app, Nat.add_1_r, seq_S, omap_app. cbn [omap list_omap Nat.add].
  rewrite lookup_app_r, Nat.sub_diag by lia. cbn.
  rewrite omap_lookup_app, IH; [done|].
  intros r (i & [-> Hi]%lookup_seq)%list_elem_of_lookup_1.
  by apply lookup_lt_is_Some.
Qed.

Lemma listed_same_store st st' : same_store st st' -> listed st' = listed st.
Proof. intros [Hh Hn]. unfold listed. by rewrite Hh, Hn. Qed.

Lemma voiceNotes_done caller st :
  voiceNotes (settle caller
                (set_recordingStatus "Note polished. Ready for next recording." st))
  = voiceNotes st.
Proof. by destruct caller. Qed.

Lemma saveOrUpdate_stored st cur note :
  currentNote st = Some cur ->
  heap st !! cur = Some note ->
  hasContent note ->
  voiceNotes (saveOrUpdateCurrentNote st)
  = Some (listed (saveOrUpdateCurrentNote st)).
Proof.
  intros Hc Hn Hcont. rewrite (saveOrUpdate_unfold st cur note Hc Hn).
  apply hasContent_test in Hcont. rewrite Hcont.
  by destruct (findIndex _ _).
Qed.

Lemma write_polished_current text st cur note :
  currentNote st = Some cur ->
  heap st !! cur = Some note ->
  currentNote (write_polished text st) = Some cur
  /\ heap (write_polished text st) !! cur
     = Some (Note.set_polishedNote text note).
Proof.
  intros Hc Hn. unfold write_polished. simpl_state. rewrite Hc. simpl_state.
  split; [exact Hc|]. by rewrite list_lookup_alter_eq, Hn.
Qed.

Lemma listed_constructor ph saved now1 now2 :
  listed (constructor ph saved now1 now2) = default [] saved.
Proof.
  destruct (constructor_store ph saved now1 now2) as (Hh & Hn & _).
  set (st := constructor ph saved now1 now2) in *. clearbody st.
  cbv zeta in Hh, Hn. set (l := default [] saved) in *. clearbody l.
  unfold listed. rewrite Hh, Hn. rewrite omap_lookup_app.
  - apply omap_lookup_seq.
  - intros r (i & [-> Hi]%lookup_seq)%list_elem_of_lookup_1.
    by apply lookup_lt_is_Some.
Qed.

(** X8: a reload gives the stored list back.  The constructor run on a
    stored item shows exactly its notes, in order (none without an item),
    with a new empty draft as current note, and the draft is not in the
    list. *)
Theorem reload_restores_list ph saved now1 now2 :
  let st := constructor ph saved now1 now2 in
  listed st = default [] saved
  /\ (exists cur, currentNote st = Some cur
        /\ heap st !! cur = Some (draft now1 now2)
        /\ cur ∉ notes st).
Proof.
  intros st. split; [apply listed_constructor|].
  destruct (constructor_store ph saved now1 now2) as (Hh & Hn & Hc).
  fold st in Hh, Hn, Hc. clearbody st. cbv zeta in Hh, Hn, Hc.
  set (l := default [] saved) in *. clearbody l.
  - exists (length l). split; [exact Hc|]. split.
    + by rewrite Hh, lookup_app_r, Nat.sub_diag by lia.
    + rewrite Hn. intros (i & [E Hi]%lookup_seq)%list_elem_of_lookup_1.
      cbn [Nat.add] in E. lia.
Qed.

(** X9: after a delete, a confirmed clear, or a polished text that is not
    blank, the stored item is the list as it then is, so that a reload right
    then shows the same notes. *)
Theorem stored_list_in_step ph saved now1 now2 evs :
  let st := run evs (constructor ph saved now1 now2) in
  let in_step st' :=
    voiceNotes st' = Some (listed st')
    /\ forall ph' n1 n2,
         listed (constructor ph' (voiceNotes st') n1 n2) = listed st' in
  (forall noteId n1 n2, in_step (step (ClickDelete noteId n1 n2) st))
  /\ (forall n1 n2, in_step (step (ClickClearAll true n1 n2) st))
  /\ (forall k caller text,
        pending st !! k = Some (AwaitPolish caller) ->
        trim text <> "" ->
        in_step (step (Resume k (OGenerate (Resolved (Some text)))) st)).
Proof.
  intros st in_step.
  assert (refs_ok st) as [Hv (cur & Hcur & [note Hnote])]
    by apply refs_ok_run, refs_ok_constructor.
  clearbody st.
  assert (forall st', voiceNotes st' = Some (listed st') -> in_step st') as Hin.
  { intros st' H. split; [exact H|]. intros ph' n1 n2. rewrite H.
    apply (listed_constructor ph' (Some (listed st')) n1 n2). }
  split; [|split].
  - intros noteId n1 n2. apply Hin.
    exact (proj2 (listed_deleteNote st noteId n1 n2 Hv)).
  - intros n1 n2. apply Hin. cbn [step]. unfold clearAllNotes.
    destruct (createNewNote_store n1 n2
                (saveNotesToLocalStorage (set_notes [] st)))
      as (_ & Hn & _ & Hvn).
    rewrite Hvn. unfold listed. rewrite Hn. reflexivity.
  - intros k caller text Hk Ht. apply Hin. cbn [step]. rewrite Hk. cbn [resume].
    assert (truthy text = true) as Htt.
    { apply truthy_ne. intros ->. by apply Ht. }
    rewrite getPolishedNote_resume_text by done.
    rewrite voiceNotes_done.
    rewrite (listed_same_store (saveOrUpdateCurrentNote
               (write_polished text (set_pending (delete k (pending st)) st)))).
    + destruct (write_polished_current text
                  (set_pending (delete k (pending st)) st) cur note Hcur Hnote)
        as [Hc2 Hn2].
      apply (saveOrUpdate_stored _ cur _ Hc2 Hn2). right. exact Ht.
    + eapply same_store_trans; [apply same_store_set_recordingStatus|].
      apply same_store_settle.
Qed.

Lemma stored_list_in_step_witness :
  let st := run (record_and_transcribe 0 "memo") st_ready in
  voiceNotes (step (Resume 0 (OGenerate (Resolved (Some "# Memo")))) st)
  = Some [Note.mk "note_7" "Memo" "memo" "# Memo" 7].
Proof.
  intros st.
  destruct (stored_list_in_step no_placeholders None 7 7
              (record_and_transcribe 0 "memo")) as (_ & _ & H).
  destruct (H 0%nat FromRecorder "# Memo") as [Hs _].
  - vm_compute. reflexivity.
  - vm_compute. discriminate.
  - etransitivity; [exact Hs|]. vm_compute. reflexivity.
Defined.

End NoteList.
(** * More on the pipeline *)

Section Requests.

Lemma createNewNote_fields now1 now2 st :
  pending (createNewNote now1 now2 st) = pending st
  /\ audioUpload_value (createNewNote now1 now2 st) = audioUpload_value st
  /\ genAI_calls (createNewNote now1 now2 st) = genAI_calls st
  /\ isRecording (createNewNote now1 now2 st) = false
  /\ recordingStatus (createNewNote now1 now2 st) = "Ready to record".
Proof.
  unfold createNewNote. unfold_methods. repeat case_match; simpl_state; done.
Qed.

Ltac calls_tac :=
  intros; unfold_note_methods; unfold_methods; repeat case_match; reflexivity.

Lemma calls_toggleRecording st :
  genAI_calls (toggleRecording st) = genAI_calls st.
Proof. calls_tac. Qed.

Lemma calls_handleFileUpload files now1 now2 st :
  genAI_calls (handleFileUpload files now1 now2 st) = genAI_calls st.
Proof. calls_tac. Qed.

Lemma calls_clearAllNotes confirmed now1 now2 st :
  genAI_calls (clearAllNotes confirmed now1 now2 st) = genAI_calls st.
Proof. calls_tac. Qed.

Lemma calls_deleteNote noteId now1 now2 st :
  genAI_calls (deleteNote noteId now1 now2 st) = genAI_calls st.
Proof. calls_tac. Qed.

Lemma calls_displayNoteById noteId st :
  genAI_calls (displayNoteById noteId st) = genAI_calls st.
Proof. calls_tac. Qed.

Lemma calls_startRecording_closed r st :
  genAI_calls (startRecording_closed r st) = genAI_calls st.
Proof. calls_tac. Qed.

Lemma calls_startRecording_userMedia fallback r env st :
  genAI_calls (startRecording_userMedia fallback r env st) = genAI_calls st.
Proof. calls_tac. Qed.

Lemma calls_onstop st : genAI_calls (onstop st) = genAI_calls st.
Proof. calls_tac. Qed.

Lemma calls_ondataavailable data st :
  genAI_calls (ondataavailable data st) = genAI_calls st.
Proof. calls_tac. Qed.

Lemma calls_saveOrUpdateCurrentNote st :
  genAI_calls (saveOrUpdateCurrentNote st) = genAI_calls st.
Proof. calls_tac. Qed.

Lemma calls_settle caller st : genAI_calls (settle caller st) = genAI_calls st.
Proof. by destruct caller. Qed.

Lemma calls_getPolishedNote_resume caller response st :
  genAI_calls (getPolishedNote_resume caller response st) = genAI_calls st.
Proof.
  destruct (response_cases response) as [Hf|(text & -> & Ht)].
  - unfold getPolishedNote_resume.
    destruct response as [text|e]; simpl in Hf; rewrite ?Hf;
      by rewrite calls_settle.
  - rewrite getPolishedNote_resume_text by done.
    rewrite calls_settle. simpl_state. rewrite calls_saveOrUpdateCurrentNote.
    unfold write_polished. simpl_state. by case_match.
Qed.

(** The two places where a request is made. *)
Lemma calls_processAudio_resume audioBlob caller readResult st :
  genAI_calls (processAudio_resume audioBlob caller readResult st) = genAI_calls st
  \/ exists c, genAI_calls (processAudio_resume audioBlob caller readResult st)
               = (genAI_calls st ++ [c])%list /\ request_ok c.
Proof.
  unfold processAudio_resume. destruct readResult as [base64data|e].
  - cbv zeta.
    destruct (truthy (orElse (split "," base64data !! 1%nat) "")) eqn:E1;
      [|left; cbn [negb orb]; unfold processAudio_catch; by rewrite calls_settle].
    destruct (truthy (Blob.type audioBlob)) eqn:E2;
      [|left; cbn [negb orb]; unfold processAudio_catch; by rewrite calls_settle].
    right. cbn [negb orb]. eexists. split; [reflexivity|]. left.
    eexists _, _. split; [reflexivity|]. by rewrite <- !truthy_ne.
  - left. unfold processAudio_catch. by rewrite calls_settle.
Qed.

Lemma calls_getPolishedNote caller st :
  genAI_calls (getPolishedNote caller st) = genAI_calls st
  \/ (genAI_calls (getPolishedNote caller st)
      = (genAI_calls st ++ [[text_part (polish_prompt +:+ rawTranscription_text st)]])%list
      /\ trim (rawTranscription_text st) <> "").
Proof.
  unfold getPolishedNote.
  destruct (truthy (trim (rawTranscription_text st))) eqn:E.
  - destruct (truthy (rawTranscription_text st)); cbn [negb orb].
    + right. split; [reflexivity|]. by apply truthy_ne.
    + left. by rewrite calls_settle.
  - left. rewrite orb_true_r. by rewrite calls_settle.
Qed.

Lemma write_transcription_fields text st :
  genAI_calls (write_transcription text st) = genAI_calls st
  /\ rawTranscription_text (write_transcription text st) = text
  /\ pending (write_transcription text st) = pending st
  /\ audioUpload_value (write_transcription text st) = audioUpload_value st.
Proof. unfold write_transcription. simpl_state. by case_match. Qed.

Lemma calls_getTranscription_resume caller response st :
  genAI_calls (getTranscription_resume caller response st) = genAI_calls st
  \/ exists c, genAI_calls (getTranscription_resume caller response st)
               = (genAI_calls st ++ [c])%list /\ request_ok c.
Proof.
  destruct (response_cases response) as [Hf|(text & -> & Ht)].
  - left. unfold getTranscription_resume.
    destruct response as [text|e]; simpl in Hf; rewrite ?Hf;
      by rewrite calls_settle.
  - rewrite getTranscription_resume_text by done.
    destruct (write_transcription_fields text st) as (Hc & Hr & _).
    destruct (calls_getPolishedNote caller
      (set_recordingStatus "Transcription complete. Polishing note..."
         (write_transcription text st))) as [H|[H Hne]];
      simpl_state_in H; rewrite H, Hc.
    + by left.
    + right. simpl_state_in Hne. rewrite Hr in Hne. rewrite Hr.
      eexists. split; [reflexivity|]. right. by eexists.
Qed.

(** What an event does to the requests: nothing, or one more, made by a
    resumed method. *)
Lemma calls_step ev st :
  genAI_calls (step ev st) = genAI_calls st
  \/ exists c, genAI_calls (step ev st) = (genAI_calls st ++ [c])%list
               /\ request_ok c /\ exists k o, ev = Resume k o.
Proof.
  destruct ev; cbn [step].
  - left. apply calls_toggleRecording.
  - left. apply createNewNote_fields.
  - left. by rewrite calls_handleFileUpload.
  - left. apply calls_clearAllNotes.
  - left. apply calls_deleteNote.
  - left. apply calls_displayNoteById.
  - by left.
  - by left.
  - destruct (pending st !! k) as [c|]; [|by left].
    destruct c, o; cbn [resume]; try (by left).
    + left. by rewrite calls_startRecording_closed.
    + left. by rewrite calls_startRecording_userMedia.
    + destruct (calls_processAudio_resume audioBlob caller r
                  (set_pending (delete k (pending st)) st)) as [H|(c & H & Hc)];
        [by left|]. right. exists c. split; [exact H|]. split; [exact Hc|].
      by eexists _, _.
    + destruct (calls_getTranscription_resume caller r
                  (set_pending (delete k (pending st)) st)) as [H|(c & H & Hc)];
        [by left|]. right. exists c. split; [exact H|]. split; [exact Hc|].
      by eexists _, _.
    + left. by rewrite calls_getPolishedNote_resume.
  - left. destruct (recorders st !! r) as [rc|]; [|done].
    case_match; [|done].
    by rewrite calls_onstop, calls_ondataavailable.
Qed.

Lemma calls_constructor ph saved now1 now2 :
  genAI_calls (constructor ph saved now1 now2) = [].
Proof.
  unfold constructor. set (st0 := loadNotesFromLocalStorage _).
  assert (genAI_calls st0 = []) as H0 by (by destruct saved).
  clearbody st0.
  destruct (createNewNote_fields now1 now2 st0) as (_ & _ & Hc & _).
  set (stN := createNewNote now1 now2 st0) in *. clearbody stN.
  simpl_state. congruence.
Qed.

(** X10: the model is only ever asked something.  Whatever the user and the
    browser do after the constructor, every request that has been made is
    a transcription request with a MIME type and data that are not empty,
    or a polishing request whose transcription is not blank; and only the
    continuation of a suspended method makes a request, never a click or
    an edit by itself. *)
Theorem requests_never_empty ph saved now1 now2 evs :
  let st := run evs (constructor ph saved now1 now2) in
  Forall request_ok (genAI_calls st)
  /\ forall ev, genAI_calls (step ev st) <> genAI_calls st ->
                exists k o, ev = Resume k o.
Proof.
  intros st. split.
  - unfold st. rewrite <- (rev_involutive evs).
    induction (rev evs) as [|ev evs' IH]; cbn [rev].
    + cbn [run foldl]. rewrite calls_constructor. constructor.
    + unfold run. rewrite foldl_app. cbn [foldl].
      fold (run (rev evs') (constructor ph saved now1 now2)).
      destruct (calls_step ev (run (rev evs') (constructor ph saved now1 now2)))
        as [->|(c & -> & Hc & _)]; [exact IH|].
      apply Forall_app. split; [exact IH|]. by constructor.
  - intros ev Hne. destruct (calls_step ev st) as [H|(c & _ & _ & H)]; done.
Qed.

Lemma requests_never_empty_witness :
  let evs := [ClickRecord; Resume 0 granted; ClickRecord;
              StopTask 0 (Blob.mk 10 "audio/webm")] in
  let ev := Resume 0 (ORead (Resolved "data:audio/webm;base64,AAAA")) in
  exists k o, ev = Resume k o.
Proof.
  intros evs ev.
  assert (genAI_calls (step ev (run evs (constructor no_placeholders None 7 7)))
          <> genAI_calls (run evs (constructor no_placeholders None 7 7))) as H
    by (vm_compute; discriminate).
  exact (proj2 (requests_never_empty no_placeholders None 7 7 evs) ev H).
Defined.

End Requests.

Section Upload.

Lemma settle_fields caller st :
  pending (settle caller st) = pending st
  /\ audioUpload_value (settle caller st)
     = match caller with
       | FromUpload => ""
       | FromRecorder => audioUpload_value st
       end.
Proof. by destruct caller. Qed.

Lemma saveOrUpdateCurrentNote_fields st :
  pending (saveOrUpdateCurrentNote st) = pending st
  /\ audioUpload_value (saveOrUpdateCurrentNote st) = audioUpload_value st.
Proof.
  unfold saveOrUpdateCurrentNote, saveNotesToLocalStorage.
  repeat case_match; simpl_state; done.
Qed.

Lemma write_polished_fields text st :
  pending (write_polished text st) = pending st
  /\ audioUpload_value (write_polished text st) = audioUpload_value st.
Proof. unfold write_polished. simpl_state. by case_match. Qed.

Lemma ended_settle caller (st st' : State) :
  pending st' = pending st -> audioUpload_value st' = audioUpload_value st ->
  ended_or_waiting caller st (settle caller st').
Proof.
  intros Hp Hv. left. destruct (settle_fields caller st') as [-> ->].
  split; [exact Hp|]. by destruct caller.
Qed.

Lemma processAudio_ended_or_waiting caller audioBlob st :
  ended_or_waiting caller st (processAudio caller audioBlob st).
Proof.
  unfold processAudio. case_match.
  - by apply ended_settle.
  - right. eexists. by split; [reflexivity|].
Qed.

Lemma processAudio_resume_ended_or_waiting audioBlob caller readResult st :
  ended_or_waiting caller st (processAudio_resume audioBlob caller readResult st).
Proof.
  unfold processAudio_resume, processAudio_catch.
  destruct readResult as [base64data|e]; [|by apply ended_settle].
  cbv zeta. case_match; [by apply ended_settle|].
  right. eexists. by split; [reflexivity|].
Qed.

Lemma getPolishedNote_ended_or_waiting caller st :
  ended_or_waiting caller st (getPolishedNote caller st).
Proof.
  unfold getPolishedNote. case_match; [by apply ended_settle|].
  right. eexists. by split; [reflexivity|].
Qed.

Lemma getTranscription_resume_ended_or_waiting caller response st :
  ended_or_waiting caller st (getTranscription_resume caller response st).
Proof.
  destruct (response_cases response) as [Hf|(text & -> & Ht)].
  - unfold getTranscription_resume.
    destruct response as [text|e]; simpl in Hf; rewrite ?Hf;
      by apply ended_settle.
  - rewrite getTranscription_resume_text by done.
    destruct (write_transcription_fields text st) as (_ & _ & Hp & Hv).
    destruct (getPolishedNote_ended_or_waiting caller
      (set_recordingStatus "Transcription complete. Polishing note..."
         (write_transcription text st))) as [[H1 H2]|(c' & H1 & H2 & H3)];
      simpl_state_in H1; [simpl_state_in H2|simpl_state_in H3].
    + left. by rewrite H1, H2, Hp, Hv.
    + right. exists c'. by rewrite H1, H3, Hp, Hv.
Qed.

Lemma getPolishedNote_resume_ended_or_waiting caller response st :
  ended_or_waiting caller st (getPolishedNote_resume caller response st).
Proof.
  destruct (response_cases response) as [Hf|(text & -> & Ht)].
  - unfold getPolishedNote_resume.
    destruct response as [text|e]; simpl in Hf; rewrite ?Hf;
      by apply ended_settle.
  - rewrite getPolishedNote_resume_text by done.
    destruct (write_polished_fields text st) as [Hp Hv].
    destruct (saveOrUpdateCurrentNote_fields (write_polished text st))
      as [Hp' Hv'].
    apply ended_settle; simpl_state; congruence.
Qed.

(** X11: each time a suspended step of the pipeline is resumed, the
    pipeline either ends or waits at exactly one more [await] of the same
    caller.  When the pipeline of an upload ends -- in whatever way: reader
    error, failed conversion, failed or empty transcription, nothing to
    polish, failed, empty or completed polishing -- the file input is
    reset, and it is reset at no earlier step; the pipeline of a recording
    never touches the input. *)
Theorem pipeline_ends_or_goes_on st k c o caller :
  pending st !! k = Some c ->
  caller_of c = Some caller ->
  is_Some (resume c o st) ->
  let st' := step (Resume k o) st in
  (pending st' = delete k (pending st)
   /\ audioUpload_value st'
      = match caller with
        | FromUpload => ""
        | FromRecorder => audioUpload_value st
        end)
  \/ (exists c', pending st' = (delete k (pending st) ++ [c'])%list
        /\ caller_of c' = Some caller
        /\ audioUpload_value st' = audioUpload_value st).
Proof.
  intros Hk Hc [st1 Hr] st'. unfold st'. cbn [step]. rewrite Hk.
  destruct c, o; try discriminate Hr; try discriminate Hc;
    cbn [resume]; injection Hc as <-.
  - apply (processAudio_resume_ended_or_waiting audioBlob caller0 r
             (set_pending (delete k (pending st)) st)).
  - apply (getTranscription_resume_ended_or_waiting caller0 r
             (set_pending (delete k (pending st)) st)).
  - apply (getPolishedNote_resume_ended_or_waiting caller0 r
             (set_pending (delete k (pending st)) st)).
Qed.

Lemma pipeline_ends_or_goes_on_witness :
  let st := step (ChangeUpload "C:/fakepath/memo.mp3"
                    [File.mk "memo.mp3" 10 "audio/mpeg"] 8 8) st_ready in
  let st' := step (Resume 0 (ORead (Rejected None))) st in
  pending st' = [] /\ audioUpload_value st' = "".
Proof.
  intros st st'.
  destruct (pipeline_ends_or_goes_on st 0
              (AwaitRead (Blob.mk 10 "audio/mpeg") FromUpload)
              (ORead (Rejected None)) FromUpload)
    as [H|(c' & H & _)].
  - vm_compute. reflexivity.
  - reflexivity.
  - by eexists.
  - exact H.
  - exfalso. revert H. vm_compute. destruct c'; discriminate.
Defined.

(** X12: an upload of at most 50 MiB (the limit included) is taken: the
    value of the input stays until the pipeline ends, a new empty draft
    becomes the current note, a recording in progress is switched off, and
    the list is untouched.  A file with content goes to the reader; an
    empty file is reported at once and the input is reset. *)
Theorem accepted_upload_opens_new_note st value file files now1 now2 :
  (File.size file <= 50 * 1024 * 1024)%N ->
  let st' := step (ChangeUpload value (file :: files) now1 now2) st in
  currentNote st' = Some (length (heap st))
  /\ heap st' = (heap st ++ [draft now1 now2])%list
  /\ notes st' = notes st
  /\ isRecording st' = false
  /\ if (File.size file =? 0)%N
     then recordingStatus st' = "No audio data captured. Please try again."
          /\ audioUpload_value st' = ""
          /\ pending st' = pending st
     else recordingStatus st' = "Converting audio..."
          /\ audioUpload_value st' = value
          /\ pending st' = (pending st ++ [AwaitRead (File.blob file) FromUpload])%list.
Proof.
  intros Hsize st'. unfold st'. cbn [step].
  assert ((50 * 1024 * 1024 <? File.size file)%N = false) as E
    by (apply N.ltb_ge; exact Hsize).
  rewrite handleFileUpload_accept by exact E.
  destruct (createNewNote_store now1 now2 (set_audioUpload_value value st))
    as (Hh & Hn & Hc & _).
  destruct (createNewNote_fields now1 now2 (set_audioUpload_value value st))
    as (Hp & Hv & _ & Hr & _).
  set (stN := createNewNote now1 now2 (set_audioUpload_value value st)) in *.
  clearbody stN. simpl_state_in Hh. simpl_state_in Hn. simpl_state_in Hc.
  simpl_state_in Hp. simpl_state_in Hv.
  unfold processAudio. change (Blob.size (File.blob file)) with (File.size file).
  destruct (File.size file =? 0)%N; unfold settle, suspend; simpl_state;
    rewrite ?Hp, ?Hv; by repeat split.
Qed.

Lemma accepted_upload_opens_new_note_witness :
  let st' := step (ChangeUpload "C:/fakepath/memo.mp3"
                     [File.mk "memo.mp3" (50 * 1024 * 1024) "audio/mpeg"] 8 8)
               st_ready in
  currentNote st' = Some 1%nat /\ recordingStatus st' = "Converting audio...".
Proof.
  intros st'.
  destruct (accepted_upload_opens_new_note st_ready "C:/fakepath/memo.mp3"
              (File.mk "memo.mp3" (50 * 1024 * 1024) "audio/mpeg") [] 8 8)
    as (Hc & _ & _ & _ & Hs & _).
  - vm_compute. discriminate.
  - split; [exact Hc|exact Hs].
Defined.

End Upload.
(** * The ids of the list *)

Section Ids.

Lemma NoDup_fmap_filter {A B} (f : A -> B) (p : A -> bool) (l : list A) :
  NoDup (f <$> l) -> NoDup (f <$> List.filter p l).
Proof.
  induction l as [|x l IH]; [done|]. cbn [fmap list_fmap List.filter].
  intros [Hx Hl]%NoDup_cons. destruct (p x); [|by apply IH].
  cbn [fmap list_fmap]. apply NoDup_cons. split; [|by apply IH].
  intros (y & Hy & [Hin _]%list_elem_of_In%List.filter_In)%list_elem_of_fmap_1.
  apply Hx. rewrite Hy. apply list_elem_of_fmap_2. by apply list_elem_of_In.
Qed.

(** The id behind a reference. *)
Lemma ids_omap st :
  Note.id <$> listed st = omap (fun r => Note.id <$> heap st !! r) (notes st).
Proof. unfold listed. by rewrite list_fmap_omap. Qed.

Lemma omap_ext_in {A B} (f g : A -> option B) (l : list A) :
  (forall x, x ∈ l -> f x = g x) -> omap f l = omap g l.
Proof.
  induction l as [|x l IH]; intros H; [done|]. cbn [omap list_omap].
  rewrite (H x) by by left. rewrite IH; [done|]. intros y Hy. apply H. by right.
Qed.

Lemma omap_insert_same {A B} (g : A -> option B) (l : list A) i r c :
  l !! i = Some r -> g r = g c -> omap g (<[i := c]> l) = omap g l.
Proof.
  revert i. induction l as [|x l IH]; intros [|i] Hi Hg; try done.
  - cbn in Hi. injection Hi as ->.
    change (omap g (c :: l) = omap g (r :: l)). cbn [omap list_omap].
    by rewrite Hg.
  - cbn in Hi. change (omap g (x :: <[i := c]> l) = omap g (x :: l)).
    cbn [omap list_omap]. by rewrite (IH i Hi Hg).
Qed.

Lemma omap_same_index {A B} (g : A -> option B) (l : list A) i j r r' x :
  NoDup (omap g l) ->
  l !! i = Some r -> l !! j = Some r' -> g r = Some x -> g r' = Some x -> i = j.
Proof.
  revert i j. induction l as [|y l IH]; intros i j Hnd Hi Hj Hr Hr'; [done|].
  assert (forall k z, l !! k = Some z -> g z = Some x -> x ∈ omap g l) as Hin.
  { intros k z Hk Hz. apply list_elem_of_omap. exists z.
    split; [by eapply list_elem_of_lookup_2|done]. }
  cbn [omap list_omap] in Hnd.
  destruct i as [|i], j as [|j]; cbn in Hi, Hj.
  - done.
  - injection Hi as ->. rewrite Hr in Hnd. apply NoDup_cons in Hnd as [Hx _].
    destruct Hx. by eapply Hin.
  - injection Hj as ->. rewrite Hr' in Hnd. apply NoDup_cons in Hnd as [Hx _].
    destruct Hx. by eapply Hin.
  - f_equal. apply IH; try done.
    destruct (g y); [by apply NoDup_cons in Hnd as [_ ?]|done].
Qed.

Lemma id_alter (f : Note.t -> Note.t) cur (h : list Note.t) r :
  (forall n, Note.id (f n) = Note.id n) ->
  Note.id <$> alter f cur h !! r = Note.id <$> h !! r.
Proof.
  intros Hf. destruct (decide (cur = r)) as [->|Hne].
  - rewrite list_lookup_alter_eq. destruct (h !! r); cbn; [by rewrite Hf|done].
  - by rewrite list_lookup_alter_ne.
Qed.

Lemma ids_alter (f : Note.t -> Note.t) cur st st' :
  (forall n, Note.id (f n) = Note.id n) ->
  heap st' = alter f cur (heap st) -> notes st' = notes st ->
  Note.id <$> listed st' = Note.id <$> listed st.
Proof.
  intros Hf Hh Hn. rewrite !ids_omap, Hh, Hn.
  apply omap_ext_in. intros r _. by apply id_alter.
Qed.

Lemma ids_same_store st st' :
  same_store st st' -> Note.id <$> listed st' = Note.id <$> listed st.
Proof. intros H. by rewrite (listed_same_store st st' H). Qed.

(** Saving keeps the ids of the list, or puts a new one in front. *)
Lemma ids_saveOrUpdateCurrentNote st :
  Note.id <$> listed (saveOrUpdateCurrentNote st) = Note.id <$> listed st
  \/ exists x, Note.id <$> listed (saveOrUpdateCurrentNote st)
               = x :: (Note.id <$> listed st)
               /\ x ∉ Note.id <$> listed st.
Proof.
  destruct (currentNote st) as [cur|] eqn:Hc;
    [|left; unfold saveOrUpdateCurrentNote; by rewrite Hc].
  destruct (heap st !! cur) as [note|] eqn:Hn.
  2:{ left. unfold saveOrUpdateCurrentNote. rewrite Hc. simpl_state.
      rewrite list_lookup_alter_eq, Hn. cbn [fmap option_fmap option_map].
      eapply ids_alter; [|reflexivity|reflexivity]. done. }
  rewrite (saveOrUpdate_unfold st cur note Hc Hn).
  set (st1 := set_heap _ st).
  assert (Note.id <$> listed st1 = Note.id <$> listed st) as H1.
  { eapply ids_alter; [|reflexivity|reflexivity]. done. }
  assert (forall r, Note.id <$> heap st1 !! r = Note.id <$> heap st !! r) as Hid.
  { intros r. unfold st1. simpl_state. by apply id_alter. }
  assert (notes st1 = notes st) as Hn1 by reflexivity.
  destruct (_ || _); [|by left].
  destruct (findIndex _ _) as [i|] eqn:Hf.
  - left. apply findIndex_Some in Hf as [(r & Hr & Hp) _].
    rewrite <- H1. rewrite !ids_omap. unfold saveNotesToLocalStorage.
    simpl_state. rewrite Hn1.
    apply (omap_insert_same _ _ i r cur Hr).
    rewrite !Hid, Hn. unfold hasId in Hp.
    destruct (heap st !! r) as [n|]; [|done].
    apply String.eqb_eq in Hp. cbn. by rewrite Hp.
  - right. exists (Note.id note). rewrite <- H1. split.
    + rewrite !ids_omap. unfold saveNotesToLocalStorage. simpl_state.
      rewrite Hn1. cbn [omap list_omap]. by rewrite Hid, Hn.
    + rewrite H1, ids_omap. intros (r & Hr & Hx)%list_elem_of_omap.
      assert (hasId st (Note.id note) r = false) as Hno
        by (eapply findIndex_None; [exact Hf|exact Hr]).
      unfold hasId in Hno. destruct (heap st !! r) as [n|]; [|done].
      cbn in Hx. injection Hx as Hx. rewrite Hx in Hno.
      by rewrite String.eqb_refl in Hno.
Qed.

Lemma ids_write_polished text st :
  Note.id <$> listed (write_polished text st) = Note.id <$> listed st.
Proof.
  unfold write_polished. simpl_state. case_match; [|done].
  eapply ids_alter; [|reflexivity|reflexivity]. done.
Qed.

Lemma ids_getPolishedNote_resume caller response st :
  Note.id <$> listed (getPolishedNote_resume caller response st)
  = Note.id <$> listed st
  \/ exists x, Note.id <$> listed (getPolishedNote_resume caller response st)
               = x :: (Note.id <$> listed st)
               /\ x ∉ Note.id <$> listed st.
Proof.
  destruct (response_cases response) as [Hf|(text & -> & Ht)].
  - left. by apply ids_same_store, getPolishedNote_resume_failed.
  - rewrite getPolishedNote_resume_text by done.
    rewrite (ids_same_store (saveOrUpdateCurrentNote (write_polished text st))).
    + rewrite <- (ids_write_polished text st).
      apply ids_saveOrUpdateCurrentNote.
    + eapply same_store_trans; [apply same_store_set_recordingStatus|].
      apply same_store_settle.
Qed.

Lemma ids_getTranscription_resume caller response st :
  Note.id <$> listed (getTranscription_resume caller response st)
  = Note.id <$> listed st.
Proof.
  destruct (response_cases response) as [Hf|(text & -> & Ht)].
  - by apply ids_same_store, getTranscription_resume_failed.
  - rewrite getTranscription_resume_text by done.
    rewrite (ids_same_store (write_transcription text st)).
    + unfold write_transcription. simpl_state. case_match; [|done].
      eapply ids_alter; [|reflexivity|reflexivity]. done.
    + eapply same_store_trans; [apply same_store_set_recordingStatus|].
      apply same_store_getPolishedNote.
Qed.

Lemma distinct_ids_step ev st :
  refs_ok st -> distinct_ids (listed st) -> distinct_ids (listed (step ev st)).
Proof.
  intros [Hv _] Hd. unfold distinct_ids in *. destruct ev; cbn [step].
  - by rewrite (ids_same_store st _ (same_store_toggleRecording st)).
  - by rewrite listed_createNewNote.
  - destruct files as [|file files]; [done|].
    destruct (50 * 1024 * 1024 <? File.size file)%N eqn:E.
    + by rewrite handleFileUpload_reject.
    + rewrite (ids_same_store _ _
        (heap_handleFileUpload_accept file files now1 now2
           (set_audioUpload_value value st) E)).
      by rewrite listed_createNewNote.
  - unfold clearAllNotes. destruct confirmed; [|done].
    rewrite listed_createNewNote; [constructor|].
    intros r Hr. by apply elem_of_nil in Hr.
  - destruct (listed_deleteNote st noteId now1 now2 Hv) as [-> _].
    by apply NoDup_fmap_filter.
  - by rewrite (ids_same_store st _ (same_store_displayNoteById noteId st)).
  - done.
  - done.
  - destruct (pending st !! k) as [c|]; [|done].
    destruct c, o; cbn [resume]; try done.
    + by rewrite (ids_same_store _ _ (same_store_startRecording_closed r
                    (set_pending (delete k (pending st)) st))).
    + by rewrite (ids_same_store _ _ (same_store_startRecording_userMedia
                    fallback r env (set_pending (delete k (pending st)) st))).
    + by rewrite (ids_same_store _ _ (same_store_processAudio_resume
                    audioBlob caller r (set_pending (delete k (pending st)) st))).
    + by rewrite ids_getTranscription_resume.
    + destruct (ids_getPolishedNote_resume caller r
                  (set_pending (delete k (pending st)) st))
        as [->|(x & -> & Hx)]; [done|].
      apply NoDup_cons. by split.
  - destruct (recorders st !! r) as [rc|]; [|done].
    case_match; [|done].
    rewrite (ids_same_store (ondataavailable data
               (set_recorders
                  (<[r := {| rec_stream := rec_stream rc;
                             rec_mimeType := rec_mimeType rc;
                             rec_state := Stopped |}]> (recorders st)) st))).
    + by rewrite (ids_same_store _ _ (same_store_ondataavailable data _)).
    + apply same_store_onstop.
Qed.

Lemma distinct_ids_run evs st :
  refs_ok st -> distinct_ids (listed st) ->
  refs_ok (run evs st) /\ distinct_ids (listed (run evs st)).
Proof.
  revert st. induction evs as [|ev evs IH]; intros st Hr Hd; [done|].
  cbn [run foldl]. apply IH; [by apply refs_ok_step|by apply distinct_ids_step].
Qed.

(** X13: the ids of the list stay distinct.  When no two notes of the
    stored item share an id, no two notes of the list ever do, whatever
    the clock gives for the ids of new notes: a current note whose id is
    already in the list is written over the entry with that id, and only a
    note with a new id is added. *)
Theorem listed_ids_stay_distinct ph saved now1 now2 evs :
  distinct_ids (default [] saved) ->
  distinct_ids (listed (run evs (constructor ph saved now1 now2))).
Proof.
  intros Hd. apply distinct_ids_run; [apply refs_ok_constructor|].
  by rewrite listed_constructor.
Qed.

Lemma listed_ids_stay_distinct_witness :
  distinct_ids
    (listed (run (record_and_transcribe 0 "memo"
                  ++ [Resume 0 (OGenerate (Resolved (Some "# Memo")))])
               (constructor no_placeholders (Some [note_a; note_b]) 7 7))).
Proof.
  apply (listed_ids_stay_distinct no_placeholders (Some [note_a; note_b]) 7 7).
  unfold distinct_ids. cbn. apply NoDup_cons. split.
  - intros [H|H]%elem_of_cons; [discriminate H|by apply elem_of_nil in H].
  - apply NoDup_cons. split; [by intros H%elem_of_nil|constructor].
Defined.

Lemma no_match {A} (f : A -> string) (l : list A) x :
  x ∉ f <$> l -> List.filter (fun a => String.eqb (f a) x) l = [].
Proof.
  induction l as [|a l IH]; [done|]. cbn [fmap list_fmap List.filter].
  intros Hx. apply not_elem_of_cons in Hx as [Hne Hx].
  destruct (String.eqb (f a) x) eqn:E; [|by apply IH].
  apply String.eqb_eq in E. by destruct Hne.
Qed.

Lemma one_match {A} (f : A -> string) (l : list A) x :
  NoDup (f <$> l) -> x ∈ f <$> l ->
  length (List.filter (fun a => String.eqb (f a) x) l) = 1%nat.
Proof.
  induction l as [|a l IH]; cbn [fmap list_fmap List.filter].
  - by intros _ H%elem_of_nil.
  - intros [Ha Hl]%NoDup_cons Hx. destruct (String.eqb (f a) x) eqn:E.
    + apply String.eqb_eq in E. subst x. by rewrite no_match.
    + apply elem_of_cons in Hx as [->|Hx]; [by rewrite String.eqb_refl in E|].
      by apply IH.
Qed.

Lemma filter_fmap {A B} (p : B -> bool) (f : A -> B) (l : list A) :
  List.filter p (f <$> l) = f <$> List.filter (fun a => p (f a)) l.
Proof.
  induction l as [|a l IH]; [done|]. cbn [fmap list_fmap List.filter].
  destruct (p (f a)); cbn [fmap list_fmap]; by rewrite IH.
Qed.

Lemma find_listed st r note :
  distinct_ids (listed st) ->
  r ∈ notes st ->
  heap st !! r = Some note ->
  List.find (hasId st (Note.id note)) (notes st) = Some r.
Proof.
  intros Hd Hr Hn. unfold distinct_ids in Hd. rewrite ids_omap in Hd.
  assert (hasId st (Note.id note) r = true) as Hp
    by (unfold hasId; rewrite Hn; apply String.eqb_refl).
  destruct (List.find _ _) as [r'|] eqn:Hf.
  - apply List.find_some in Hf as [Hr' Hp']. apply list_elem_of_In in Hr'.
    apply list_elem_of_lookup_1 in Hr as [i Hi].
    apply list_elem_of_lookup_1 in Hr' as [j Hj].
    unfold hasId in Hp'. destruct (heap st !! r') as [n'|] eqn:Hn'; [|done].
    apply String.eqb_eq in Hp'.
    assert (j = i) as ->.
    { eapply (omap_same_index _ _ j i r' r (Note.id note) Hd Hj Hi).
      - by rewrite Hn', <- Hp'.
      - by rewrite Hn. }
    congruence.
  - apply list_elem_of_In in Hr.
    by rewrite (List.find_none _ _ Hf r Hr) in Hp.
Qed.

(** X14: a click on the item of a note of the list opens that very note.
    With distinct ids in the list, the object that becomes the current
    note is the one behind the clicked item (not a copy and not another
    note with the same id), the editor shows its fields, and in the
    sidebar then drawn exactly one item is active, the clicked one. *)
Theorem click_opens_clicked_note st r note :
  distinct_ids (listed st) ->
  r ∈ notes st ->
  heap st !! r = Some note ->
  let st' := step (ClickNote (Note.id note)) st in
  st' = (st |> set_currentNote (Some r) |> displayNote note)
  /\ currentNote st' = Some r
  /\ (forall item, item ∈ renderSidebar st' ->
        (item_active item = true <-> item_noteId item = Note.id note))
  /\ length (List.filter item_active (renderSidebar st')) = 1%nat.
Proof.
  intros Hd Hr Hn st'.
  assert (st' = (st |> set_currentNote (Some r) |> displayNote note)) as E.
  { unfold st'. cbn [step]. unfold displayNoteById.
    by rewrite (find_listed st r note Hd Hr Hn), Hn. }
  assert (currentNote st' = Some r /\ heap st' = heap st /\ notes st' = notes st)
    as (Hc' & Hh' & Hn').
  { rewrite E. unfold displayNote. simpl_state. done. }
  assert (forall n, item_active (renderItem st' n)
                    = String.eqb (Note.id n) (Note.id note)) as Hact.
  { intros n. unfold renderItem, isCurrentId, hasId. cbn [item_active].
    rewrite Hc', Hh', Hn. apply String.eqb_sym. }
  assert (listed st' = listed st) as Hl by (unfold listed; by rewrite Hh', Hn').
  clearbody st'.
  split; [exact E|]. split; [exact Hc'|]. split.
  - intros item. rewrite renderSidebar_listed.
    intros (n & -> & _)%list_elem_of_fmap_1. rewrite Hact.
    cbn [item_noteId renderItem]. apply String.eqb_eq.
  - rewrite renderSidebar_listed, filter_fmap, length_fmap.
    rewrite (List.filter_ext _ (fun n => String.eqb (Note.id n) (Note.id note)))
      by exact Hact.
    rewrite Hl. apply one_match; [exact Hd|].
    unfold listed. rewrite list_fmap_omap. apply list_elem_of_omap.
    exists r. split; [exact Hr|]. by rewrite Hn.
Qed.

Lemma click_opens_clicked_note_witness :
  currentNote (step (ClickNote "note_1") st_second_open) = Some 0%nat.
Proof.
  refine (proj1 (proj2 (click_opens_clicked_note st_second_open 0%nat note_a
                          _ _ _))).
  - unfold distinct_ids.
    change (NoDup ["note_1"; "note_2"]). apply NoDup_cons. split.
    + intros [H|H]%elem_of_cons; [discriminate H|by apply elem_of_nil in H].
    + apply NoDup_cons. split; [by intros H%elem_of_nil|constructor].
  - change (0%nat ∈ [0; 1]%nat). by left.
  - reflexivity.
Defined.

End Ids.
(** * A recording session *)

Section Session.

Lemma liveStreams_app_stopped st st' n :
  streams st' = (streams st ++ [S n])%list -> liveStreams st' = liveStreams st.
Proof.
  intros H. unfold liveStreams. rewrite H, length_app. cbn [length].
  rewrite Nat.add_1_r, seq_S, List.filter_app. cbn [List.filter Nat.add].
  rewrite lookup_app_r, Nat.sub_diag by lia. cbn [lookup list_lookup].
  rewrite bool_decide_eq_false_2 by discriminate. rewrite app_nil_r.
  apply List.filter_ext_in. intros s [_ Hs]%List.in_seq.
  by rewrite lookup_app_l by lia.
Qed.

(** The click that starts a recording, with nothing held. *)
Lemma start_click st :
  isRecording st = false -> stream st = None -> audioContext st = false ->
  step ClickRecord st
  = (st |> set_audioChunks []
        |> set_audioContext false
        |> set_recordingStatus "Requesting microphone access..."
        |> set_pending (pending st ++ [AwaitUserMedia false])).
Proof.
  intros Hr Hs Hc. cbn [step]. unfold toggleRecording. rewrite Hr. cbn [negb].
  unfold startRecording, stopStreamTracks. simpl_state. rewrite Hs.
  simpl_state. rewrite Hc. reflexivity.
Qed.

(** The microphone is granted and the recorder starts. *)
Lemma start_granted st k fallback env :
  pending st !! k = Some (AwaitUserMedia fallback) ->
  audioContext st = false ->
  (webm_supported env || default_supported env) && start_ok env = true ->
  let st' := step (Resume k (OUserMedia (Resolved ()) env)) st in
  exists mimeType,
    isRecording st' = true
    /\ stream st' = Some (length (streams st))
    /\ streams st' = (streams st ++ [0%nat])%list
    /\ mediaRecorder st' = Some (length (recorders st))
    /\ recorders st'
       = (recorders st ++ [{| rec_stream := length (streams st);
                              rec_mimeType := mimeType;
                              rec_state := Recording |}])%list
    /\ pending st' = delete k (pending st)
    /\ audioContext st' = true
    /\ audioChunks st' = audioChunks st
    /\ recordingStatus st' = recordingStatus st.
Proof.
  intros Hk Hc [Hm Hs]%andb_true_iff st'. unfold st'. cbn [step].
  rewrite Hk. cbn [resume]. unfold startRecording_userMedia, startRecording_record.
  simpl_state. rewrite Hs.
  exists (if webm_supported env then "audio/webm" else default_mimeType env).
  assert ((if webm_supported env then Some "audio/webm"
           else if default_supported env then Some (default_mimeType env)
           else None)
          = Some (if webm_supported env then "audio/webm"
                  else default_mimeType env)) as ->.
  { destruct (webm_supported env); [done|]. cbn [orb] in Hm. by rewrite Hm. }
  unfold startLiveDisplay, setupAudioVisualizer. simpl_state. rewrite Hc.
  simpl_state. rewrite alter_app_r_alt, Nat.sub_diag by lia. by repeat split.
Qed.

(** The click that stops the recording. *)
Lemma stop_click st r :
  isRecording st = true -> mediaRecorder st = Some r ->
  step ClickRecord st
  = (st |> set_recorders (alter Recorder_stop r (recorders st))
        |> set_isRecording false
        |> set_recordingStatus "Processing audio...").
Proof.
  intros Hr Hm. cbn [step]. unfold toggleRecording. rewrite Hr. cbn [negb].
  unfold stopRecording, mediaRecorder_stop. by rewrite Hm, Hr.
Qed.

Lemma onstop_fields st s :
  stream st = Some s ->
  stream (onstop st) = None
  /\ streams (onstop st) = alter S s (streams st)
  /\ audioContext (onstop st) = false
  /\ isRecording (onstop st) = isRecording st.
Proof.
  intros Hs. unfold onstop. cbv zeta.
  set (st1 := if (0 <? length (audioChunks (stopLiveDisplay st)))%nat
              then _ else _).
  assert (stream st1 = Some s /\ streams st1 = streams st
          /\ audioContext st1 = false /\ isRecording st1 = isRecording st)
    as (H1 & H2 & H3 & H4).
  { unfold st1, processAudio, settle, suspend, stopLiveDisplay.
    repeat case_match; simpl_state; done. }
  clearbody st1. unfold stopStreamTracks, stopTracks. rewrite H1.
  simpl_state. by rewrite H2.
Qed.

(** The recorder's stop task, with a stream in the field. *)
Lemma stop_task st r rc data s :
  recorders st !! r = Some rc ->
  stopTask_ready st rc = true ->
  stream st = Some s ->
  let st' := step (StopTask r data) st in
  stream st' = None
  /\ streams st' = alter S s (streams st)
  /\ audioContext st' = false
  /\ isRecording st' = isRecording st.
Proof.
  intros Hr Hready Hs st'. unfold st'. cbn [step]. rewrite Hr, Hready.
  set (st0 := ondataavailable data _).
  assert (stream st0 = Some s /\ streams st0 = streams st
          /\ isRecording st0 = isRecording st) as (H1 & H2 & H3).
  { unfold st0, ondataavailable. case_match; simpl_state; done. }
  clearbody st0. destruct (onstop_fields st0 s H1) as (-> & -> & -> & ->).
  by rewrite H2, H3.
Qed.

(** X15: one recording, from the click that starts it to the recorder's
    stop task, with nothing held at the start: the click asks for the
    microphone; when it is granted and the recorder starts, a new stream is
    in the field and the application records; the second click stops the
    recorder; the stop task stops the tracks of that stream, once, and
    clears the field.  Afterwards the streams that were live before are
    the live streams: the session leaves nothing open. *)
Theorem recording_session_releases_stream_once st env data :
  isRecording st = false -> stream st = None -> audioContext st = false ->
  (webm_supported env || default_supported env) && start_ok env = true ->
  let st1 := step ClickRecord st in
  let st2 := step (Resume (length (pending st)) (OUserMedia (Resolved ()) env)) st1 in
  let st3 := step ClickRecord st2 in
  let st4 := step (StopTask (length (recorders st)) data) st3 in
  (pending st1 = (pending st ++ [AwaitUserMedia false])%list
   /\ recordingStatus st1 = "Requesting microphone access...")
  /\ (isRecording st2 = true
      /\ stream st2 = Some (length (streams st))
      /\ streams st2 = (streams st ++ [0%nat])%list
      /\ pending st2 = pending st)
  /\ (isRecording st3 = false
      /\ recordingStatus st3 = "Processing audio..."
      /\ streams st3 = streams st2)
  /\ (isRecording st4 = false
      /\ stream st4 = None
      /\ streams st4 = (streams st ++ [1%nat])%list
      /\ liveStreams st4 = liveStreams st).
Proof.
  intros Hrec Hstream Hctx Henv st1 st2 st3 st4.
  assert (pending st1 = (pending st ++ [AwaitUserMedia false])%list
          /\ recordingStatus st1 = "Requesting microphone access..."
          /\ audioContext st1 = false /\ streams st1 = streams st
          /\ recorders st1 = recorders st) as (Hp1 & Hs1 & Hc1 & Hst1 & Hr1).
  { unfold st1. by rewrite start_click. }
  clearbody st1.
  destruct (start_granted st1 (length (pending st)) false env)
    as (m & Hrec2 & Hstream2 & Hst2 & Hm2 & Hr2 & Hp2 & _); [| done | done |].
  { rewrite Hp1. apply list_lookup_middle. reflexivity. }
  fold st2 in Hrec2, Hstream2, Hst2, Hm2, Hr2, Hp2. clearbody st2.
  rewrite Hp1, delete_middle, app_nil_r in Hp2. rewrite Hst1 in Hstream2, Hst2, Hr2.
  rewrite Hr1 in Hm2, Hr2.
  assert (st3 = (st2 |> set_recorders
                          (alter Recorder_stop (length (recorders st))
                             (recorders st2))
                     |> set_isRecording false
                     |> set_recordingStatus "Processing audio...")) as E3
    by (by apply stop_click).
  assert (isRecording st3 = false /\ recordingStatus st3 = "Processing audio..."
          /\ streams st3 = streams st2 /\ stream st3 = stream st2
          /\ recorders st3 = alter Recorder_stop (length (recorders st))
                               (recorders st2))
    as (Hrec3 & Hs3 & Hst3 & Hstream3 & Hr3) by (by rewrite E3).
  clearbody st3. clear E3.
  destruct (stop_task st3 (length (recorders st))
              {| rec_stream := length (streams st); rec_mimeType := m;
                 rec_state := Stopping |} data (length (streams st)))
    as (Hstream4 & Hst4 & _ & Hrec4).
  { rewrite Hr3, Hr2, alter_app_r_alt, Nat.sub_diag by lia.
    rewrite lookup_app_r, Nat.sub_diag by lia. reflexivity. }
  { reflexivity. }
  { by rewrite Hstream3. }
  fold st4 in Hstream4, Hst4, Hrec4. clearbody st4.
  rewrite Hst3, Hst2, alter_app_r_alt, Nat.sub_diag in Hst4 by lia.
  cbn in Hst4.
  repeat split; try done; try congruence.
  by apply (liveStreams_app_stopped st st4 0%nat).
Qed.

Lemma recording_session_releases_stream_once_witness :
  let st4 := run [ClickRecord; Resume 0 granted; ClickRecord;
                  StopTask 0 (Blob.mk 10 "audio/webm")] st_ready in
  streams st4 = [1%nat] /\ stream st4 = None.
Proof.
  intros st4.
  destruct (recording_session_releases_stream_once st_ready env_ok
              (Blob.mk 10 "audio/webm")) as (_ & _ & _ & _ & H1 & H2 & _).
  - vm_compute. reflexivity.
  - vm_compute. reflexivity.
  - vm_compute. reflexivity.
  - reflexivity.
  - split; [|exact H1]. etransitivity; [exact H2|]. vm_compute. reflexivity.
Defined.

Lemma startRecording_catch_fields error st :
  let st' := startRecording_catch error st in
  isRecording st' = false
  /\ stream st' = None
  /\ streams st' = match stream st with
                   | Some s => alter S s (streams st)
                   | None => streams st
                   end
  /\ audioContext st' = false
  /\ pending st' = pending st
  /\ recordingStatus st'
     = if String.eqb (default "Unknown" error) "NotAllowedError"
          || String.eqb (default "Unknown" error) "PermissionDeniedError"
       then "Microphone permission denied. Please check browser settings."
       else "Error accessing microphone. Please check connection.".
Proof.
  unfold startRecording_catch, stopLiveDisplay, stopStreamTracks, stopTracks.
  cbv zeta. simpl_state. destruct (stream st); simpl_state; by repeat split.
Qed.

(** X16: when the microphone is granted but the recorder cannot be built
    or started, the stream that was just acquired is released: its tracks
    are stopped once, the field is cleared, the application is not
    recording, and the status line tells the failure by the name of the
    error. *)
Theorem failed_start_releases_stream st k fallback env :
  pending st !! k = Some (AwaitUserMedia fallback) ->
  (webm_supported env || default_supported env) && start_ok env = false ->
  let st' := step (Resume k (OUserMedia (Resolved ()) env)) st in
  isRecording st' = false
  /\ stream st' = None
  /\ streams st' = (streams st ++ [1%nat])%list
  /\ liveStreams st' = liveStreams st
  /\ pending st' = delete k (pending st)
  /\ recordingStatus st'
     = if String.eqb (default "Unknown" (recorder_errorName env)) "NotAllowedError"
          || String.eqb (default "Unknown" (recorder_errorName env))
               "PermissionDeniedError"
       then "Microphone permission denied. Please check browser settings."
       else "Error accessing microphone. Please check connection.".
Proof.
  intros Hk Henv st'.
  assert (exists st0, st' = startRecording_catch (recorder_errorName env) st0
                      /\ stream st0 = Some (length (streams st))
                      /\ streams st0 = (streams st ++ [0%nat])%list
                      /\ pending st0 = delete k (pending st))
    as (st0 & -> & Hs0 & Hst0 & Hp0).
  { unfold st'. cbn [step]. rewrite Hk. cbn [resume].
    unfold startRecording_userMedia, startRecording_record. simpl_state.
    destruct (webm_supported env) eqn:Ew; [|destruct (default_supported env)];
      cbn [orb andb] in Henv; rewrite ?Henv;
      eexists; (split; [reflexivity|]); simpl_state; done. }
  destruct (startRecording_catch_fields (recorder_errorName env) st0)
    as (H1 & H2 & H3 & _ & H5 & H6).
  rewrite Hs0, Hst0, alter_app_r_alt, Nat.sub_diag in H3 by lia. cbn in H3.
  rewrite Hp0 in H5. repeat split; try done.
  by apply (liveStreams_app_stopped st _ 0%nat).
Qed.

Lemma failed_start_releases_stream_witness :
  let env := {| webm_supported := false; default_supported := false;
                default_mimeType := ""; start_ok := true;
                recorder_errorName := Some "NotSupportedError" |} in
  let st' := run [ClickRecord; Resume 0 (OUserMedia (Resolved ()) env)] st_ready in
  streams st' = [1%nat]
  /\ recordingStatus st' = "Error accessing microphone. Please check connection.".
Proof.
  intros env st'.
  destruct (failed_start_releases_stream (step ClickRecord st_ready) 0 false env)
    as (_ & _ & H3 & _ & _ & H6).
  - vm_compute. reflexivity.
  - reflexivity.
  - split; [|exact H6]. etransitivity; [exact H3|]. vm_compute. reflexivity.
Defined.

(** X17: a refused microphone request is repeated once, without a word:
    after the first refusal the relaxed request is pending and the status
    line, the recording flag and the streams are as before.  The second
    refusal ends the attempt: not recording, no stream in the field, and a
    message chosen by the name of the second error alone -- the first error
    is dropped. *)
Theorem microphone_request_retried_once st k error1 env1 error2 env2 :
  pending st !! k = Some (AwaitUserMedia false) ->
  let st1 := step (Resume k (OUserMedia (Rejected error1) env1)) st in
  let st2 := step (Resume (length (pending st) - 1)
                     (OUserMedia (Rejected error2) env2)) st1 in
  (pending st1 = (delete k (pending st) ++ [AwaitUserMedia true])%list
   /\ recordingStatus st1 = recordingStatus st
   /\ isRecording st1 = isRecording st
   /\ stream st1 = stream st
   /\ streams st1 = streams st)
  /\ (pending st2 = delete k (pending st)
      /\ isRecording st2 = false
      /\ stream st2 = None
      /\ recordingStatus st2
         = if String.eqb (default "Unknown" error2) "NotAllowedError"
              || String.eqb (default "Unknown" error2) "PermissionDeniedError"
           then "Microphone permission denied. Please check browser settings."
           else "Error accessing microphone. Please check connection.").
Proof.
  intros Hk st1 st2.
  assert (st1 = set_pending (delete k (pending st) ++ [AwaitUserMedia true]) st)
    as E1.
  { unfold st1. cbn [step]. rewrite Hk. reflexivity. }
  assert (length (pending st) - 1 = length (delete k (pending st)))%nat as El.
  { rewrite length_delete; [done|by eexists]. }
  assert (st2 = startRecording_catch error2
                  (set_pending (delete k (pending st)) st1)) as E2.
  { unfold st2. cbn [step]. rewrite E1. simpl_state. rewrite El.
    rewrite list_lookup_middle by done. rewrite delete_middle, app_nil_r.
    reflexivity. }
  split; [by rewrite E1|].
  destruct (startRecording_catch_fields error2
              (set_pending (delete k (pending st)) st1))
    as (H1 & H2 & _ & _ & H5 & H6).
  rewrite <- E2 in H1, H2, H5, H6. by repeat split.
Qed.

Lemma microphone_request_retried_once_witness :
  let st2 := run [ClickRecord; Resume 0 denied; Resume 0 denied] st_ready in
  isRecording st2 = false
  /\ recordingStatus st2
     = "Microphone permission denied. Please check browser settings.".
Proof.
  intros st2.
  destruct (microphone_request_retried_once (step ClickRecord st_ready) 0
              (Some "NotAllowedError") env_ok (Some "NotAllowedError") env_ok)
    as (_ & _ & H2 & _ & H4).
  - vm_compute. reflexivity.
  - split; [exact H2|exact H4].
Defined.

Lemma createNewNote_recording now1 now2 st :
  isRecording st = true ->
  createNewNote now1 now2 st
  = (st |> set_currentNote (Some (length (heap st)))
        |> set_heap (heap st ++ [draft now1 now2])
        |> displayNote (draft now1 now2)
        |> set_recordingStatus "Ready to record"
        |> mediaRecorder_stop
        |> set_isRecording false).
Proof.
  intros Hr. unfold createNewNote. cbv zeta. unfold displayNote. cbv zeta.
  simpl_state. rewrite Hr. reflexivity.
Qed.

Lemma createNewNote_recording_fields now1 now2 st r :
  isRecording st = true ->
  mediaRecorder st = Some r ->
  let st1 := step (ClickNew now1 now2) st in
  isRecording st1 = false
  /\ recordingStatus st1 = "Ready to record"
  /\ currentNote st1 = Some (length (heap st))
  /\ heap st1 = (heap st ++ [draft now1 now2])%list
  /\ recorders st1 = alter Recorder_stop r (recorders st)
  /\ pending st1 = pending st
  /\ stream st1 = stream st.
Proof.
  intros Hrec Hm st1. unfold st1. cbn [step].
  rewrite createNewNote_recording by done.
  unfold mediaRecorder_stop, displayNote. cbv zeta. simpl_state.
  rewrite Hm. simpl_state. by repeat split.
Qed.

Lemma onstop_data st c l s :
  audioChunks st = c :: l ->
  (0 < Blob.size (Blob_of_chunks (c :: l)
                    (orElse (mediaRecorder_mimeType st) "audio/webm")))%N ->
  stream st = Some s ->
  recordingStatus (onstop st) = "Converting audio..."
  /\ currentNote (onstop st) = currentNote st
  /\ stream (onstop st) = None
  /\ exists audioBlob,
       pending (onstop st) = (pending st ++ [AwaitRead audioBlob FromRecorder])%list.
Proof.
  intros Hc Hpos Hs. unfold onstop, stopLiveDisplay. cbv zeta. simpl_state.
  rewrite Hc. cbn [length Nat.ltb Nat.leb].
  unfold mediaRecorder_mimeType in *. simpl_state.
  set (audioBlob := Blob_of_chunks _ _) in *. clearbody audioBlob.
  unfold processAudio. rewrite (proj2 (N.eqb_neq _ _)) by lia.
  unfold suspend, stopStreamTracks, stopTracks. simpl_state. rewrite Hs.
  simpl_state. repeat split. by eexists.
Qed.

Lemma Blob_of_chunks_data chunks data type :
  (0 < Blob.size data)%N ->
  (0 < Blob.size (Blob_of_chunks (chunks ++ [data]) type))%N.
Proof.
  intros Hd. unfold Blob_of_chunks. cbn [Blob.size]. rewrite foldr_app.
  cbn [foldr]. induction chunks as [|c l IH]; cbn [foldr]; lia.
Qed.

Lemma stop_task_data st r rc s data :
  recorders st !! r = Some rc ->
  stopTask_ready st rc = true ->
  stream st = Some s ->
  (0 < Blob.size data)%N ->
  let st' := step (StopTask r data) st in
  recordingStatus st' = "Converting audio..."
  /\ currentNote st' = currentNote st
  /\ stream st' = None
  /\ exists audioBlob,
       pending st' = (pending st ++ [AwaitRead audioBlob FromRecorder])%list.
Proof.
  intros Hr Hready Hs Hd st'. unfold st'. cbn [step]. rewrite Hr, Hready.
  set (st0 := set_recorders _ st).
  assert (pending st0 = pending st /\ stream st0 = stream st
          /\ currentNote st0 = currentNote st) as (Hp0 & Hs0 & Hc0) by done.
  clearbody st0. rewrite Hs in Hs0.
  unfold ondataavailable. rewrite (proj2 (N.ltb_lt _ _) Hd).
  set (st1 := set_audioChunks _ st0).
  assert (pending st1 = pending st0 /\ stream st1 = stream st0
          /\ currentNote st1 = currentNote st0
          /\ audioChunks st1 = (audioChunks st0 ++ [data])%list)
    as (Hp1 & Hs1 & Hc1 & Hch1) by done.
  clearbody st1. rewrite Hp0 in Hp1. rewrite Hs0 in Hs1. rewrite Hc0 in Hc1.
  destruct (audioChunks st1) as [|c l] eqn:Hl.
  { symmetry in Hch1. by apply app_eq_nil in Hch1 as [_ ?]. }
  destruct (onstop_data st1 c l s Hl) as (Ha & Hb & Hc & Hd'); [|done|].
  { rewrite Hch1. by apply Blob_of_chunks_data. }
  rewrite Ha, Hb, Hc. rewrite Hp1 in Hd'. by repeat split.
Qed.

(** X21: a new note asked for while recording does not drop the
    recording.  [createNewNote] stops the recorder and makes the new draft
    the current note; the recorder's stop task then runs as after a stop
    click, and audio that was captured is read and sent on while the new
    draft is the current note -- the note that will take the transcription. *)
Theorem new_note_while_recording st r rc s now1 now2 data :
  isRecording st = true ->
  mediaRecorder st = Some r ->
  recorders st !! r = Some rc ->
  rec_state rc = Recording ->
  stream st = Some s ->
  (0 < Blob.size data)%N ->
  let st1 := step (ClickNew now1 now2) st in
  let st2 := step (StopTask r data) st1 in
  (isRecording st1 = false
   /\ recordingStatus st1 = "Ready to record"
   /\ currentNote st1 = Some (length (heap st))
   /\ heap st1 = (heap st ++ [draft now1 now2])%list
   /\ rec_state <$> recorders st1 !! r = Some Stopping)
  /\ (recordingStatus st2 = "Converting audio..."
      /\ currentNote st2 = Some (length (heap st))
      /\ stream st2 = None
      /\ exists audioBlob,
           pending st2 = (pending st ++ [AwaitRead audioBlob FromRecorder])%list).
Proof.
  intros Hrec Hm Hr Hst Hs Hd. cbv zeta.
  destruct (createNewNote_recording_fields now1 now2 st r Hrec Hm)
    as (H1 & H2 & H3 & H4 & H5 & H6 & H7).
  set (st1 := step (ClickNew now1 now2) st) in *. clearbody st1.
  assert (recorders st1 !! r
          = Some {| rec_stream := rec_stream rc; rec_mimeType := rec_mimeType rc;
                    rec_state := Stopping |}) as Hr1.
  { rewrite H5, list_lookup_alter_eq, Hr. cbn. unfold Recorder_stop.
    by rewrite Hst. }
  split; [by rewrite Hr1|].
  destruct (stop_task_data st1 r _ s data Hr1) as (Ha & Hb & Hc & Hd');
    [reflexivity|congruence|exact Hd|].
  rewrite H6 in Hd'. rewrite H3 in Hb. by repeat split.
Qed.

Lemma new_note_while_recording_witness :
  let st := run [ClickRecord; Resume 0 granted] st_ready in
  let st2 := run [ClickNew 8 8; StopTask 0 (Blob.mk 10 "audio/webm")] st in
  recordingStatus st2 = "Converting audio..." /\ currentNote st2 = Some 1%nat.
Proof.
  intros st st2.
  destruct (new_note_while_recording st 0
              {| rec_stream := 0; rec_mimeType := "audio/webm";
                 rec_state := Recording |} 0 8 8 (Blob.mk 10 "audio/webm"))
    as (_ & H1 & H2 & _).
  - vm_compute. reflexivity.
  - vm_compute. reflexivity.
  - vm_compute. reflexivity.
  - reflexivity.
  - vm_compute. reflexivity.
  - reflexivity.
  - split; [exact H1|]. etransitivity; [exact H2|]. vm_compute. reflexivity.
Defined.

End Session.
(** * The chunks of a recording *)

Section Chunks.

Ltac chunks_tac :=
  intros; unfold_note_methods; unfold_methods; repeat case_match; reflexivity.

Lemma chunks_stopRecording st : audioChunks (stopRecording st) = audioChunks st.
Proof. chunks_tac. Qed.

Lemma chunks_startRecording st : audioChunks (startRecording st) = [].
Proof. chunks_tac. Qed.

Lemma chunks_createNewNote now1 now2 st :
  audioChunks (createNewNote now1 now2 st) = audioChunks st.
Proof. chunks_tac. Qed.

Lemma chunks_handleFileUpload files now1 now2 st :
  audioChunks (handleFileUpload files now1 now2 st) = audioChunks st.
Proof. chunks_tac. Qed.

Lemma chunks_clearAllNotes confirmed now1 now2 st :
  audioChunks (clearAllNotes confirmed now1 now2 st) = audioChunks st.
Proof. chunks_tac. Qed.

Lemma chunks_deleteNote noteId now1 now2 st :
  audioChunks (deleteNote noteId now1 now2 st) = audioChunks st.
Proof. chunks_tac. Qed.

Lemma chunks_displayNoteById noteId st :
  audioChunks (displayNoteById noteId st) = audioChunks st.
Proof. chunks_tac. Qed.

Lemma chunks_startRecording_closed r st :
  audioChunks (startRecording_closed r st) = audioChunks st.
Proof. chunks_tac. Qed.

Lemma chunks_startRecording_userMedia fallback r env st :
  audioChunks (startRecording_userMedia fallback r env st) = audioChunks st.
Proof. chunks_tac. Qed.

Lemma chunks_processAudio_resume audioBlob caller r st :
  audioChunks (processAudio_resume audioBlob caller r st) = audioChunks st.
Proof. chunks_tac. Qed.

Lemma chunks_getTranscription_resume caller r st :
  audioChunks (getTranscription_resume caller r st) = audioChunks st.
Proof. chunks_tac. Qed.

Lemma chunks_getPolishedNote_resume caller r st :
  audioChunks (getPolishedNote_resume caller r st) = audioChunks st.
Proof. chunks_tac. Qed.

Lemma chunks_onstop st : audioChunks (onstop st) = audioChunks st.
Proof. chunks_tac. Qed.

Lemma chunks_ok_ondataavailable data st :
  chunks_ok st -> chunks_ok (ondataavailable data st).
Proof.
  unfold chunks_ok, ondataavailable. intros H.
  destruct (0 <? Blob.size data)%N eqn:E; [|done]. simpl_state.
  apply Forall_app. split; [done|]. constructor; [|done]. by apply N.ltb_lt.
Qed.

Lemma chunks_ok_step ev st : chunks_ok st -> chunks_ok (step ev st).
Proof.
  unfold chunks_ok at 2. intros H. destruct ev; cbn [step].
  - unfold toggleRecording. case_match.
    + rewrite chunks_startRecording. constructor.
    + by rewrite chunks_stopRecording.
  - by rewrite chunks_createNewNote.
  - by rewrite chunks_handleFileUpload.
  - by rewrite chunks_clearAllNotes.
  - by rewrite chunks_deleteNote.
  - by rewrite chunks_displayNoteById.
  - done.
  - done.
  - destruct (pending st !! k) as [c|]; [|done].
    destruct c, o; cbn [resume]; try done.
    + by rewrite chunks_startRecording_closed.
    + by rewrite chunks_startRecording_userMedia.
    + by rewrite chunks_processAudio_resume.
    + by rewrite chunks_getTranscription_resume.
    + by rewrite chunks_getPolishedNote_resume.
  - destruct (recorders st !! r) as [rc|]; [|done].
    case_match; [|done]. rewrite chunks_onstop.
    by apply (chunks_ok_ondataavailable data (set_recorders _ st)).
Qed.

Lemma chunks_ok_run evs st : chunks_ok st -> chunks_ok (run evs st).
Proof.
  revert st. induction evs as [|ev evs IH]; intros st H; [done|].
  cbn [run foldl]. apply IH. by apply chunks_ok_step.
Qed.

Lemma chunks_constructor ph saved now1 now2 :
  audioChunks (constructor ph saved now1 now2) = [].
Proof.
  unfold constructor. set (st0 := loadNotesFromLocalStorage _).
  assert (audioChunks st0 = []) as H0 by (by destruct saved).
  clearbody st0. pose proof (chunks_createNewNote now1 now2 st0) as Hc.
  set (stN := createNewNote now1 now2 st0) in *. clearbody stN.
  simpl_state. congruence.
Qed.

Lemma Blob_of_chunks_pos chunks type :
  Forall (fun c => (0 < Blob.size c)%N) chunks -> chunks <> [] ->
  (0 < Blob.size (Blob_of_chunks chunks type))%N.
Proof.
  intros H Hne. destruct H as [|c l Hc Hl]; [done|]. cbn. lia.
Qed.

(** X18: the recorder never hands an empty blob to [processAudio].  At
    any point after the constructor no buffered chunk is empty, so when a
    recorder's stop task runs, either nothing at all was captured, which
    is reported at once with nothing left pending, or the blob built from
    the chunks has a positive size and goes to the reader: the check for
    an empty blob in [processAudio] can only ever refuse an upload. *)
Theorem recorded_audio_never_empty ph saved now1 now2 evs r rc data :
  let st := run evs (constructor ph saved now1 now2) in
  recorders st !! r = Some rc ->
  stopTask_ready st rc = true ->
  let st' := step (StopTask r data) st in
  (audioChunks st = [] /\ Blob.size data = 0%N
   /\ recordingStatus st' = "No audio data captured. Please try again."
   /\ pending st' = pending st)
  \/ (exists audioBlob,
        (0 < Blob.size audioBlob)%N
        /\ recordingStatus st' = "Converting audio..."
        /\ pending st' = (pending st ++ [AwaitRead audioBlob FromRecorder])%list).
Proof.
  intros st Hr Hready st'.
  assert (chunks_ok st) as Hok.
  { apply chunks_ok_run. unfold chunks_ok. rewrite chunks_constructor.
    constructor. }
  clearbody st. unfold st'. cbn [step]. rewrite Hr, Hready.
  set (st0 := set_recorders _ st).
  assert (chunks_ok st0) as Hok0 by exact Hok.
  assert (pending st0 = pending st /\ audioChunks st0 = audioChunks st)
    as [Hp0 Hc0] by done.
  clearbody st0. apply (chunks_ok_ondataavailable data) in Hok0.
  assert (pending (ondataavailable data st0) = pending st) as Hp1.
  { unfold ondataavailable. by case_match. }
  assert (audioChunks (ondataavailable data st0) = []
          -> audioChunks st = [] /\ Blob.size data = 0%N) as Hempty.
  { unfold ondataavailable. destruct (0 <? Blob.size data)%N eqn:E.
    - simpl_state. by intros [_ ?]%app_eq_nil.
    - intros H. rewrite <- Hc0. split; [exact H|].
      apply N.ltb_ge in E. lia. }
  set (st1 := ondataavailable data st0) in *. clearbody st1.
  unfold onstop, stopLiveDisplay. simpl_state.
  destruct (audioChunks st1) as [|c l] eqn:Hl.
  - left. destruct Hempty as [-> ->]; [done|]. cbn [length Nat.ltb Nat.leb].
    unfold stopStreamTracks, stopTracks. simpl_state.
    by destruct (stream st1); simpl_state.
  - right. cbn [length Nat.ltb Nat.leb].
    set (audioBlob := Blob_of_chunks (c :: l) _).
    assert (0 < Blob.size audioBlob)%N as Hpos
      by (apply Blob_of_chunks_pos; [by rewrite <- Hl|done]).
    exists audioBlob. split; [exact Hpos|]. clearbody audioBlob.
    unfold processAudio. rewrite (proj2 (N.eqb_neq _ _)) by lia.
    unfold suspend, stopStreamTracks, stopTracks. simpl_state.
    destruct (stream st1); simpl_state; by rewrite Hp1.
Qed.

Lemma recorded_audio_never_empty_witness :
  let st := run [ClickRecord; Resume 0 granted; ClickRecord] st_ready in
  recordingStatus (step (StopTask 0 (Blob.mk 10 "audio/webm")) st)
  = "Converting audio...".
Proof.
  intros st.
  destruct (recorded_audio_never_empty no_placeholders None 7 7
              [ClickRecord; Resume 0 granted; ClickRecord] 0
              {| rec_stream := 0; rec_mimeType := "audio/webm";
                 rec_state := Stopping |} (Blob.mk 10 "audio/webm"))
    as [(_ & H & _)|(b & _ & H & _)].
  - vm_compute. reflexivity.
  - reflexivity.
  - discriminate H.
  - exact H.
Defined.

End Chunks.
(** * From the reader to the request, and the live title *)

Section Reader.

Lemma split_lacks s : lacks "," s = true -> split "," s = [s].
Proof.
  induction s as [|c s IH]; [done|]. cbn [lacks split].
  intros [Hc Hs]%andb_true_iff. apply negb_true_iff in Hc.
  by rewrite Hc, (IH Hs).
Qed.

Lemma split_header header rest :
  lacks "," header = true ->
  split "," (header +:+ String "," rest) = header :: split "," rest.
Proof.
  induction header as [|c s IH]; intros H.
  - reflexivity.
  - cbn [lacks] in H. apply andb_true_iff in H as [Hc Hs].
    apply negb_true_iff in Hc.
    change (String c s +:+ String "," rest)
      with (String c (s +:+ String "," rest)).
    cbn [split]. by rewrite Hc, (IH Hs).
Qed.

Lemma processAudio_resume_data audioBlob caller base64data data st :
  split "," base64data !! 1%nat = Some data ->
  data <> "" -> Blob.type audioBlob <> "" ->
  processAudio_resume audioBlob caller (Resolved base64data) st
  = getTranscription data (Blob.type audioBlob) caller st.
Proof.
  intros Hd Hne Ht. unfold processAudio_resume. cbv zeta. rewrite Hd.
  apply truthy_ne in Hne, Ht.
  assert (orElse (Some data) "" = data) as -> by by rewrite orElse_Some, Hne.
  rewrite Hne, Ht. reflexivity.
Qed.

Lemma processAudio_resume_no_data audioBlob caller base64data st :
  orElse (split "," base64data !! 1%nat) "" = "" \/ Blob.type audioBlob = "" ->
  processAudio_resume audioBlob caller (Resolved base64data) st
  = processAudio_catch caller st.
Proof.
  intros H. unfold processAudio_resume. cbv zeta.
  destruct H as [-> | ->]; [done|]. by rewrite orb_true_r.
Qed.

(** X19: what the reader gives is what the model gets.  For a data URL
    -- a header without comma, a comma, a payload without comma -- the
    transcription request carries exactly the payload, with the MIME type
    of the blob, and the method waits for the answer.  With an empty
    payload, an empty MIME type, or a result without any comma, the
    conversion is reported as failed and nothing is sent. *)
Theorem reader_result_becomes_request st k audioBlob caller header payload :
  pending st !! k = Some (AwaitRead audioBlob caller) ->
  lacks "," header = true ->
  lacks "," payload = true ->
  let sent := step (Resume k (ORead (Resolved (header +:+ "," +:+ payload)))) st in
  let bare := step (Resume k (ORead (Resolved header))) st in
  (payload <> "" -> Blob.type audioBlob <> "" ->
   genAI_calls sent
   = (genAI_calls st
      ++ [[text_part "Generate a complete, detailed transcript of this audio.";
           inlineData (Blob.type audioBlob) payload]])%list
   /\ recordingStatus sent = "Getting transcription..."
   /\ pending sent = (delete k (pending st) ++ [AwaitTranscription caller])%list)
  /\ (payload = "" \/ Blob.type audioBlob = "" ->
      genAI_calls sent = genAI_calls st
      /\ recordingStatus sent = "Error processing recording. Please try again."
      /\ pending sent = delete k (pending st))
  /\ (genAI_calls bare = genAI_calls st
      /\ recordingStatus bare = "Error processing recording. Please try again."
      /\ pending bare = delete k (pending st)).
Proof.
  intros Hk Hh Hp sent bare.
  assert (split "," (header +:+ "," +:+ payload) !! 1%nat = Some payload) as Hs.
  { change (header +:+ "," +:+ payload) with (header +:+ String "," payload).
    by rewrite (split_header header payload Hh), (split_lacks payload Hp). }
  assert (forall st0, genAI_calls (processAudio_catch caller st0) = genAI_calls st0
            /\ recordingStatus (processAudio_catch caller st0)
               = "Error processing recording. Please try again."
            /\ pending (processAudio_catch caller st0) = pending st0) as Hcatch.
  { intros st0. unfold processAudio_catch. by destruct caller. }
  split; [|split].
  - intros Hne Ht. unfold sent. cbn [step]. rewrite Hk. cbn [resume].
    rewrite (processAudio_resume_data _ _ _ payload) by done.
    unfold getTranscription, generateContent, suspend. simpl_state. done.
  - intros Hno. unfold sent. cbn [step]. rewrite Hk. cbn [resume].
    rewrite processAudio_resume_no_data;
      [exact (Hcatch (set_pending (delete k (pending st)) st))|].
    rewrite Hs. destruct Hno as [-> | ->]; [by left|by right].
  - unfold bare. cbn [step]. rewrite Hk. cbn [resume].
    rewrite processAudio_resume_no_data;
      [exact (Hcatch (set_pending (delete k (pending st)) st))|].
    left. by rewrite (split_lacks header Hh).
Qed.

Lemma reader_result_becomes_request_witness :
  let st := run [ClickRecord; Resume 0 granted; ClickRecord;
                 StopTask 0 (Blob.mk 10 "audio/webm")] st_ready in
  genAI_calls (step (Resume 0 (ORead (Resolved "data:audio/webm;base64,AAAA"))) st)
  = [[text_part "Generate a complete, detailed transcript of this audio.";
      inlineData "audio/webm" "AAAA"]].
Proof.
  intros st.
  destruct (reader_result_becomes_request st 0 (Blob.mk 10 "audio/webm")
              FromRecorder "data:audio/webm;base64" "AAAA") as ((H & _) & _).
  - vm_compute. reflexivity.
  - reflexivity.
  - reflexivity.
  - discriminate.
  - discriminate.
  - etransitivity; [exact H|]. vm_compute. reflexivity.
Defined.

End Reader.

Section LiveTitle.

Lemma displayNote_editorTitle note st :
  editorTitle (displayNote note st)
  = orElse (Some (Note.title note))
      (orElse (editorTitle_placeholder (placeholders st)) "Untitled Note")
  /\ placeholders (displayNote note st) = placeholders st.
Proof. unfold displayNote. by simpl_state. Qed.

Lemma createNewNote_editorTitle now1 now2 st :
  editorTitle (createNewNote now1 now2 st)
  = orElse (editorTitle_placeholder (placeholders st)) "Untitled Note"
  /\ placeholders (createNewNote now1 now2 st) = placeholders st.
Proof.
  unfold createNewNote. unfold_methods. repeat case_match; simpl_state; done.
Qed.

(** X20: the title shown while recording is never blank.  For a new note
    it is 'New Recording' (the placeholder of the title, taken as free of
    surrounding white space, is what the editor shows then); for an opened
    note whose title has text other than the placeholder it is that title,
    trimmed. *)
Theorem live_title_never_blank st :
  let placeholder :=
    orElse (editorTitle_placeholder (placeholders st)) "Untitled Note" in
  liveRecordingTitle_text st <> ""
  /\ (trim placeholder = placeholder ->
      forall now1 now2,
        liveRecordingTitle_text (createNewNote now1 now2 st) = "New Recording")
  /\ (forall note,
        trim (Note.title note) <> "" ->
        trim (Note.title note) <> placeholder ->
        liveRecordingTitle_text (displayNote note st) = trim (Note.title note)).
Proof.
  intros placeholder. split; [|split].
  - unfold liveRecordingTitle_text. cbv zeta.
    destruct (truthy (trim (editorTitle st))) eqn:E; [|done].
    destruct (negb _); [|done]. by apply truthy_ne.
  - intros Hp now1 now2. unfold liveRecordingTitle_text. cbv zeta.
    destruct (createNewNote_editorTitle now1 now2 st) as [-> ->].
    fold placeholder. rewrite Hp, String.eqb_refl. cbn [negb].
    by rewrite andb_false_r.
  - intros note Hne Hph. unfold liveRecordingTitle_text. cbv zeta.
    destruct (displayNote_editorTitle note st) as [-> ->]. fold placeholder.
    assert (truthy (Note.title note) = true) as Ht.
    { apply truthy_ne. intros E. by rewrite E in Hne. }
    rewrite orElse_Some, Ht.
    apply truthy_ne in Hne. rewrite Hne.
    apply String.eqb_neq in Hph. by rewrite Hph.
Qed.

Lemma live_title_never_blank_witness :
  liveRecordingTitle_text (createNewNote 8 8 st_ready) = "New Recording".
Proof.
  refine (proj1 (proj2 (live_title_never_blank st_ready)) _ 8 8).
  vm_compute. reflexivity.
Defined.

End LiveTitle.
